(** * Photo-organizing toolkit: duplicate clustering and date-based filing

    A shallow embedding of [find_duplicates.py] and [organize_photos.py].

    Python [str] values are modelled as [string], with ASCII characters:
    case conversion acts on the letters A to Z.  Indices, counters and
    sizes, which stay non-negative, are [nat]; dictionaries are [gmap]s, or
    association lists in insertion order where the scripts iterate over
    them; the index set [processed] is a [gset nat]; the similarity ratio,
    a float in Python, is the exact rational.

    The library calls the scripts rely on ([str] methods, [pathlib],
    [os.path], [difflib.SequenceMatcher], [datetime], [os], [shutil]) are
    modelled by the definitions of the first modules, after CPython 3.11 on
    a POSIX system: [/] separates the components of a path and file names
    are case-sensitive.

    The file system is a map from paths to files and directories.  A path
    names what is on disk by its spelling; the scripts build every path
    they test from the folder they are given and the names listed in it.
    An exception is a value: a call that may raise returns a [result].
    [os.walk] is lazy and sees what the run creates; the triples it yields
    during a run are taken as they come, as a list.  What the scripts
    print is left out. *)

From Stdlib Require Import Ascii QArith Qround Lqa.
From Equations Require Import Equations.
From stdpp Require Import gmap strings list fin_maps sorting pretty.

Local Open Scope nat_scope.

(** ** Characters and strings *)

Module Str.

Definition is_upper (c : ascii) : bool :=
  let n := Ascii.nat_of_ascii c in (65 <=? n) && (n <=? 90).

Definition is_lower (c : ascii) : bool :=
  let n := Ascii.nat_of_ascii c in (97 <=? n) && (n <=? 122).

(** [str.lower] / [str.upper] on one character. *)
Definition lower_char (c : ascii) : ascii :=
  if is_upper c then Ascii.ascii_of_nat (Ascii.nat_of_ascii c + 32) else c.

Definition upper_char (c : ascii) : ascii :=
  if is_lower c then Ascii.ascii_of_nat (Ascii.nat_of_ascii c - 32) else c.

Fixpoint map (f : ascii → ascii) (s : string) : string :=
  match s with
  | EmptyString => EmptyString
  | String c s' => String (f c) (map f s')
  end.

Definition lower : string → string := map lower_char.
Definition upper : string → string := map upper_char.

Definition chars : string → list ascii := String.list_ascii_of_string.
Definition of_chars : list ascii → string := String.string_of_list_ascii.

(** [s.startswith(p)] *)
Fixpoint startswith (p s : string) : bool :=
  match p, s with
  | EmptyString, _ => true
  | String a p', String b s' => bool_decide (a = b) && startswith p' s'
  | String _ _, EmptyString => false
  end.

(** [p in s] (substring test) *)
Fixpoint contains (p s : string) : bool :=
  startswith p s ||
  match s with
  | EmptyString => false
  | String _ s' => contains p s'
  end.

(** [s.lstrip(c)] for a single character [c] *)
Fixpoint lstrip (c : ascii) (s : string) : string :=
  match s with
  | String a s' => if bool_decide (a = c) then lstrip c s' else s
  | EmptyString => EmptyString
  end.

(** [s.rstrip(c)] for a single character [c] *)
Fixpoint rstrip (c : ascii) (s : string) : string :=
  match s with
  | String a s' =>
      match rstrip c s' with
      | EmptyString => if bool_decide (a = c) then EmptyString
                       else String a EmptyString
      | t => String a t
      end
  | EmptyString => EmptyString
  end.

(** [s.rfind(c)]: index of the last occurrence of [c], [None] for -1. *)
Fixpoint rfind (c : ascii) (s : string) : option nat :=
  match s with
  | EmptyString => None
  | String a s' =>
      match rfind c s' with
      | Some i => Some (S i)
      | None => if bool_decide (a = c) then Some 0 else None
      end
  end.

(** [s[:i]] and [s[i:]] *)
Fixpoint take (i : nat) (s : string) : string :=
  match i, s with
  | S i', String a s' => String a (take i' s')
  | _, _ => EmptyString
  end.

Fixpoint drop (i : nat) (s : string) : string :=
  match i, s with
  | S i', String _ s' => drop i' s'
  | _, _ => s
  end.

(** [s.split(sep)] for a single-character separator. *)
Fixpoint split (sep : ascii) (s : string) : list string :=
  match s with
  | EmptyString => [EmptyString]
  | String a s' =>
      if bool_decide (a = sep) then EmptyString :: split sep s'
      else match split sep s' with
           | h :: t => String a h :: t
           | [] => [String a EmptyString]
           end
  end.

(** [sep.join(l)] *)
Fixpoint join (sep : string) (l : list string) : string :=
  match l with
  | [] => EmptyString
  | [x] => x
  | x :: l' => x +:+ sep +:+ join sep l'
  end.

(** A lowercase hexadecimal digit. *)
Definition hex_digit (n : nat) : ascii :=
  Ascii.ascii_of_nat (if n <? 10 then 48 + n else 87 + n).

(** What [repr] writes for one character between quotes [quote]. *)
Definition repr_char (quote c : ascii) : string :=
  let n := Ascii.nat_of_ascii c in
  if bool_decide (c = quote) || (n =? 92) then String "\" (String c "")
  else if n =? 9 then "\t"
  else if n =? 10 then "\n"
  else if n =? 13 then "\r"
  else if (n <? 32) || (n =? 127)
  then "\x" +:+ String (hex_digit (n / 16)) (String (hex_digit (n mod 16)) "")
  else String c "".

Fixpoint escape (quote : ascii) (s : string) : string :=
  match s with
  | EmptyString => EmptyString
  | String c s' => repr_char quote c +:+ escape quote s'
  end.

(** [repr(s)]: between single quotes, or between double quotes when [s]
    has a single quote and no double quote. *)
Definition repr (s : string) : string :=
  let double := Ascii.ascii_of_nat 34 in
  let quote :=
    if contains "'" s && negb (contains (String double "") s)
    then double else "'"%char in
  String quote (escape quote s +:+ String quote "").

End Str.

(** ** [difflib.SequenceMatcher(None, a, b).ratio()]

    The model follows CPython's [difflib]: [isjunk] is [None], so the junk
    set is empty, and [autojunk] keeps its default [True], so that for a
    second sequence of 200 elements or more the elements occurring more than
    [n // 100 + 1] times are dropped from the index [b2j]. *)

Module Difflib.

Definition count (c : ascii) (b : list ascii) : nat :=
  length (filter (λ x, x = c) b).

(** An element is "popular" when autojunk removes it from [b2j]. *)
Definition popular (b : list ascii) (c : ascii) : bool :=
  let n := length b in
  (200 <=? n) && (n / 100 + 1 <? count c b).

(** [positions c b off]: the indices [off + k] with [b[k] = c], ascending. *)
Fixpoint positions (c : ascii) (b : list ascii) (off : nat) : list nat :=
  match b with
  | [] => []
  | x :: b' =>
      if bool_decide (x = c) then off :: positions c b' (S off)
      else positions c b' (S off)
  end.

(** [b2j.get(c, [])] *)
Definition b2j (b : list ascii) (c : ascii) : list nat :=
  if popular b c then [] else positions c b 0.

(** [isbjunk]: the junk set is empty when [isjunk] is [None]. *)
Definition isbjunk (c : ascii) : bool := false.

Record Match := mkMatch { m_a : nat; m_b : nat; m_size : nat }.

(** [j2len.get(j - 1, 0)] *)
Definition j2lenget (j2len : gmap nat nat) (j : nat) : nat :=
  match j with
  | 0 => 0
  | S j' => default 0 (j2len !! j')
  end.

(** The inner loop [for j in b2j.get(a[i], nothing)] of
    [find_longest_match], with its [continue] and [break]. *)
Fixpoint row_loop (js : list nat) (blo bhi i : nat)
    (j2len newj2len : gmap nat nat) (best : Match)
    : gmap nat nat * Match :=
  match js with
  | [] => (newj2len, best)
  | j :: js' =>
      if j <? blo then row_loop js' blo bhi i j2len newj2len best
      else if bhi <=? j then (newj2len, best)
      else
        let k := j2lenget j2len j + 1 in
        let newj2len' := <[j := k]> newj2len in
        let best' :=
          if m_size best <? k then mkMatch (i + 1 - k) (j + 1 - k) k
          else best in
        row_loop js' blo bhi i j2len newj2len' best'
  end.

(** The outer loop [for i in range(alo, ahi)], over the rows still to do. *)
Fixpoint rows_loop (a b : list ascii) (blo bhi : nat) (rows : list nat)
    (j2len : gmap nat nat) (best : Match) : Match :=
  match rows with
  | [] => best
  | i :: rows' =>
      let js := match a !! i with Some c => b2j b c | None => [] end in
      let '(newj2len, best') := row_loop js blo bhi i j2len ∅ best in
      rows_loop a b blo bhi rows' newj2len best'
  end.

(** [while besti > alo and bestj > blo and p(b[bestj-1]) and
    a[besti-1] == b[bestj-1]]: extend the match to the left. *)
Fixpoint extend_left (a b : list ascii) (alo blo : nat) (p : ascii → bool)
    (besti bestj bestsize : nat) : Match :=
  match besti, bestj with
  | S i', S j' =>
      if (alo <? besti) && (blo <? bestj)
         && from_option p false (b !! j')
         && bool_decide (a !! i' = b !! j')
      then extend_left a b alo blo p i' j' (S bestsize)
      else mkMatch besti bestj bestsize
  | _, _ => mkMatch besti bestj bestsize
  end.

(** [while besti+bestsize < ahi and bestj+bestsize < bhi and
    p(b[bestj+bestsize]) and a[besti+bestsize] == b[bestj+bestsize]]:
    extend the match to the right; [fuel] bounds the iterations by the
    room left in [a]. *)
Fixpoint extend_right (fuel : nat) (a b : list ascii) (ahi bhi : nat)
    (p : ascii → bool) (besti bestj bestsize : nat) : nat :=
  match fuel with
  | 0 => bestsize
  | S fuel' =>
      if (besti + bestsize <? ahi) && (bestj + bestsize <? bhi)
         && from_option p false (b !! (bestj + bestsize))
         && bool_decide (a !! (besti + bestsize) = b !! (bestj + bestsize))
      then extend_right fuel' a b ahi bhi p besti bestj (S bestsize)
      else bestsize
  end.

Definition extend (a b : list ascii) (alo ahi blo bhi : nat) (p : ascii → bool)
    (m : Match) : Match :=
  let m1 := extend_left a b alo blo p (m_a m) (m_b m) (m_size m) in
  let size := extend_right (ahi - (m_a m1 + m_size m1)) a b ahi bhi p
                (m_a m1) (m_b m1) (m_size m1) in
  mkMatch (m_a m1) (m_b m1) size.

Definition find_longest_match (a b : list ascii) (alo ahi blo bhi : nat) : Match :=
  let best := rows_loop a b blo bhi (seq alo (ahi - alo)) ∅
                (mkMatch alo blo 0) in
  let best := extend a b alo ahi blo bhi (λ c, negb (isbjunk c)) best in
  extend a b alo ahi blo bhi isbjunk best.

(** A pending region [(alo, ahi, blo, bhi)] of [get_matching_blocks]. *)
Record Region := mkRegion { alo : nat; ahi : nat; blo : nat; bhi : nat }.

(** The worklist loop [while queue:] of [get_matching_blocks].  [queue] is
    the Python list read from its end: the head is what [queue.pop()]
    returns and [queue.append] conses.  [matches] is [matching_blocks]. *)
Fixpoint blocks_loop (fuel : nat) (a b : list ascii)
    (queue : list Region) (matches : list Match) : list Match :=
  match fuel, queue with
  | S fuel', r :: queue' =>
      let x := find_longest_match a b (alo r) (ahi r) (blo r) (bhi r) in
      let '(mkMatch i j k) := x in
      if k =? 0 then blocks_loop fuel' a b queue' matches
      else
        let q1 :=
          if (alo r <? i) && (blo r <? j)
          then mkRegion (alo r) i (blo r) j :: queue' else queue' in
        let q2 :=
          if (i + k <? ahi r) && (j + k <? bhi r)
          then mkRegion (i + k) (ahi r) (j + k) (bhi r) :: q1 else q1 in
        blocks_loop fuel' a b q2 (matches ++ [x])
  | _, _ => matches
  end.

(** Tuple order of [(i, j, k)], as [list.sort] uses it. *)
Definition match_leb (x y : Match) : bool :=
  (m_a x <? m_a y)
  || ((m_a x =? m_a y)
      && ((m_b x <? m_b y)
          || ((m_b x =? m_b y) && (m_size x <=? m_size y)))).

Definition match_le (x y : Match) : Prop := Is_true (match_leb x y).

Global Instance match_le_dec : RelDecision match_le.
Proof. intros x y. unfold match_le. apply _. Defined.

(** The loop collapsing adjacent blocks; the running block is
    [(i1, j1, k1)], [acc] is [non_adjacent]. *)
Fixpoint collapse (blocks : list Match) (i1 j1 k1 : nat)
    (acc : list Match) : list Match :=
  match blocks with
  | [] => if k1 =? 0 then acc else acc ++ [mkMatch i1 j1 k1]
  | mkMatch i2 j2 k2 :: rest =>
      if (i1 + k1 =? i2) && (j1 + k1 =? j2)
      then collapse rest i1 j1 (k1 + k2) acc
      else collapse rest i2 j2 k2
             (if k1 =? 0 then acc else acc ++ [mkMatch i1 j1 k1])
  end.

(** One pending region costs at most [2 * (ahi - alo) + 1] iterations. *)
Definition get_matching_blocks (a b : list ascii) : list Match :=
  let la := length a in
  let lb := length b in
  let matching_blocks :=
    blocks_loop (2 * la + 1) a b [mkRegion 0 la 0 lb] [] in
  let sorted := merge_sort match_le matching_blocks in
  collapse sorted 0 0 0 [] ++ [mkMatch la lb 0].

Definition matches_total (l : list Match) : nat :=
  foldr (λ m acc, m_size m + acc) 0 l.

(** [_calculate_ratio(matches, length)].  The Python value is the binary64
    quotient; it is kept here as the exact rational, which orders the same
    way against the threshold 0.80 for every length below 2^50. *)
Definition calculate_ratio (matches length : nat) : Q :=
  if length =? 0 then 1%Q
  else (Z.of_nat (2 * matches) # Pos.of_nat length)%Q.

Definition ratio (a b : list ascii) : Q :=
  calculate_ratio (matches_total (get_matching_blocks a b))
                  (length a + length b).

End Difflib.

(** ** find_duplicates.py *)

Definition SIMILARITY_THRESHOLD : Q := (80 # 100)%Q.

(** [filename_similarity] *)
Definition filename_similarity (name1 name2 : string) : Q :=
  Difflib.ratio (Str.chars (Str.lower name1)) (Str.chars (Str.lower name2)).


(** ** [pathlib.PurePosixPath]

    Paths are modelled in the POSIX flavour: [/] separates components, a
    path is its root (empty, [/] or [//]) and the list of its components,
    from which empty and [.] components have been dropped. *)

Module Pathlib.

Record Path := mkPath { root : string; parts : list string }.

Definition parse_root (s : string) : string :=
  if Str.startswith "///" s then "/"
  else if Str.startswith "//" s then "//"
  else if Str.startswith "/" s then "/"
  else "".

Definition is_part (c : string) : bool :=
  negb (bool_decide (c = "")) && negb (bool_decide (c = ".")).

(** [Path(s)] *)
Definition parse (s : string) : Path :=
  mkPath (parse_root s) (List.filter is_part (Str.split "/" s)).

(** [str(p)] *)
Definition str (p : Path) : string :=
  match root p, parts p with
  | EmptyString, [] => "."
  | r, ps => r +:+ Str.join "/" ps
  end.

(** [p.name] *)
Definition name (p : Path) : string := List.last (parts p) "".

(** [p.parent] *)
Definition parent (p : Path) : Path :=
  mkPath (root p) (List.removelast (parts p)).

(** [p / s] *)
Definition joinpath (p : Path) (s : string) : Path :=
  let q := parse s in
  if bool_decide (root q = "") then mkPath (root p) (parts p ++ parts q)
  else q.

(** The index [i] of the last dot when [0 < i < len(name) - 1]. *)
Definition suffix_index (name : string) : option nat :=
  match Str.rfind "." name with
  | Some i =>
      if (0 <? i) && (i <? String.length name - 1) then Some i else None
  | None => None
  end.

(** [p.suffix] and [p.stem], on the name of the path. *)
Definition name_suffix (name : string) : string :=
  match suffix_index name with
  | Some i => Str.drop i name
  | None => ""
  end.

Definition name_stem (name : string) : string :=
  match suffix_index name with
  | Some i => Str.take i name
  | None => name
  end.

Definition suffix (p : Path) : string := name_suffix (name p).
Definition stem (p : Path) : string := name_stem (name p).

End Pathlib.

(** ** [os.path] (posixpath) *)

Module OsPath.

Definition sep : string := "/".

Definition endswith_sep (s : string) : bool :=
  match Str.rfind "/" s with
  | Some i => S i =? String.length s
  | None => false
  end.

(** [os.path.join(a, b)] *)
Definition join (a b : string) : string :=
  if Str.startswith "/" b then b
  else if bool_decide (a = "") || endswith_sep a then a +:+ b
  else a +:+ "/" +:+ b.

(** [os.path.basename(p)] *)
Definition basename (p : string) : string :=
  match Str.rfind "/" p with
  | Some i => Str.drop (S i) p
  | None => p
  end.

(** [os.path.splitext(p)] *)
Definition splitext (p : string) : string * string :=
  match Str.rfind "." p with
  | Some dot =>
      let filename_index :=
        match Str.rfind "/" p with Some s => S s | None => 0 end in
      if (filename_index <=? dot)
         && negb (bool_decide
              (Str.lstrip "." (Str.take (dot - filename_index)
                                 (Str.drop filename_index p)) = ""))
      then (Str.take dot p, Str.drop dot p)
      else (p, "")
  | None => (p, "")
  end.

(** The loop of [normpath] over the components; [comps] is [new_comps]. *)
Fixpoint norm_comps (initial_slashes : nat) (todo comps : list string)
    : list string :=
  match todo with
  | [] => comps
  | comp :: todo' =>
      if bool_decide (comp = "") || bool_decide (comp = ".")
      then norm_comps initial_slashes todo' comps
      else if negb (bool_decide (comp = ".."))
              || ((initial_slashes =? 0) && bool_decide (comps = []))
              || bool_decide (List.last comps "" = "..") && negb (bool_decide (comps = []))
      then norm_comps initial_slashes todo' (comps ++ [comp])
      else norm_comps initial_slashes todo' (List.removelast comps)
  end.

(** [os.path.normpath(path)] *)
Definition normpath (path : string) : string :=
  if bool_decide (path = "") then "."
  else
    let initial_slashes :=
      if Str.startswith "///" path then 1
      else if Str.startswith "//" path then 2
      else if Str.startswith "/" path then 1
      else 0 in
    let comps := norm_comps initial_slashes (Str.split "/" path) [] in
    let path' :=
      match initial_slashes with
      | 0 => Str.join "/" comps
      | 1 => "/" +:+ Str.join "/" comps
      | _ => "//" +:+ Str.join "/" comps
      end in
    if bool_decide (path' = "") then "." else path'.

(** [os.path.abspath(path)], [cwd] being [os.getcwd()]. *)
Definition abspath (cwd path : string) : string :=
  normpath (if Str.startswith "/" path then path else join cwd path).

End OsPath.

(** ** Dates: [datetime], [strptime] and [strftime] *)

Module Time.

Record datetime := mkDatetime {
  year : nat; month : nat; day : nat;
  hour : nat; minute : nat; second : nat }.

Definition digit (c : ascii) : option nat :=
  let n := Ascii.nat_of_ascii c in
  if (48 <=? n) && (n <=? 57) then Some (n - 48) else None.

(** A field made of digits only, of [lo] to [hi] characters. *)
Fixpoint number_go (s : string) (acc : nat) : option nat :=
  match s with
  | EmptyString => Some acc
  | String c s' =>
      match digit c with
      | Some d => number_go s' (10 * acc + d)
      | None => None
      end
  end.

Definition number (lo hi : nat) (s : string) : option nat :=
  if (lo <=? String.length s) && (String.length s <=? hi)
  then number_go s 0 else None.

Definition is_leap (y : nat) : bool :=
  ((y mod 4 =? 0) && negb (y mod 100 =? 0)) || (y mod 400 =? 0).

Definition days_in_month (y m : nat) : nat :=
  match m with
  | 2 => if is_leap y then 29 else 28
  | 4 | 6 | 9 | 11 => 30
  | _ => 31
  end.

(** [\s] of the regular expression [strptime] makes of the format. *)
Definition is_space (c : ascii) : bool :=
  let n := Ascii.nat_of_ascii c in
  (n =? 32) || ((9 <=? n) && (n <=? 13)) || ((28 <=? n) && (n <=? 31)).

(** The longest prefix of [s] whose characters satisfy [p], and the rest. *)
Fixpoint span (p : ascii → bool) (s : string) : string * string :=
  match s with
  | String c s' =>
      if p c then let '(x, y) := span p s' in (String c x, y)
      else ("", s)
  | EmptyString => ("", "")
  end.

(** The field [%d]: one or two digits, or a space and a digit from 1 to
    9; with what follows it. *)
Definition day_field (s : string) : option (nat * string) :=
  match s with
  | String " " (String c rest) =>
      d ← digit c; if 1 <=? d then Some (d, rest) else None
  | _ =>
      let '(ds, rest) := span (λ c, bool_decide (is_Some (digit c))) s in
      d ← number 1 2 ds; Some (d, rest)
  end.

(** [datetime.strptime(value, "%Y:%m:%d %H:%M:%S")]; [None] stands for
    the [ValueError] of a value that does not match.  The year has four
    digits, the other fields one or two; the space of the format stands
    for one white space or more; the ranges are those the regular
    expression and the constructor of [datetime] accept. *)
Definition strptime (value : string) : option datetime :=
  match Str.split ":" value with
  | [y; m; d_hh; mm; ss] =>
      y ← number 4 4 y; m ← number 1 2 m;
      '(d, rest) ← day_field d_hh;
      let '(spaces, hh) := span is_space rest in
      hh ← number 1 2 hh; mm ← number 1 2 mm; ss ← number 1 2 ss;
      if negb (bool_decide (spaces = ""))
         && (1 <=? y) && (1 <=? m) && (m <=? 12)
         && (1 <=? d) && (d <=? days_in_month y m)
         && (hh <=? 23) && (mm <=? 59) && (ss <=? 59)
      then Some (mkDatetime y m d hh mm ss) else None
  | _ => None
  end.

(** Decimal rendering, zero-padded to [width] characters. *)
Fixpoint zeros (n : nat) : string :=
  match n with 0 => "" | S n' => String "0" (zeros n') end.

Definition padded (width n : nat) : string :=
  let s := pretty n in zeros (width - String.length s) +:+ s.

(** [d.strftime("%Y")] and [d.strftime("%Y%m%d")].  The C library of a
    POSIX system writes the year as it is, without padding: the year 987
    gives [987]; month and day have two digits. *)
Definition strftime_Y (d : datetime) : string := pretty (year d).
Definition strftime_Ymd (d : datetime) : string :=
  pretty (year d) +:+ padded 2 (month d) +:+ padded 2 (day d).

End Time.

(** ** The file system the scripts run on *)

(** The exceptions the scripts meet: subclasses of [OSError], each with
    the path it is about. *)
Inductive exn :=
  | PermissionError (filename : string)
  | FileNotFoundError (filename : string)
  | NotADirectoryError (filename : string)
  | IsADirectoryError (filename : string)
  | FileExistsError (filename : string).

(** [str(e)] *)
Definition exn_str (e : exn) : string :=
  match e with
  | PermissionError f => "[Errno 13] Permission denied: " +:+ Str.repr f
  | FileNotFoundError f =>
      "[Errno 2] No such file or directory: " +:+ Str.repr f
  | NotADirectoryError f => "[Errno 20] Not a directory: " +:+ Str.repr f
  | IsADirectoryError f => "[Errno 21] Is a directory: " +:+ Str.repr f
  | FileExistsError f => "[Errno 17] File exists: " +:+ Str.repr f
  end.

Inductive result (A : Type) :=
  | Ok (a : A)
  | Raise (e : exn).
Arguments Ok {A} a.
Arguments Raise {A} e.

(** What [os.stat] reports: the size, [st_ctime], and [st_birthtime] where
    the platform has the attribute.  Timestamps are kept as the local date
    [datetime.fromtimestamp] turns them into. *)
Record stat_result := mkStat {
  st_size : nat;
  st_ctime : Time.datetime;
  st_birthtime : option Time.datetime }.

(** The EXIF dictionary [img._getexif()] returns: tag id and value pairs in
    the order of the dictionary. *)
Definition exif_dict := list (N * string).

(** A regular file carries what [Image.open(..)._getexif()] yields for it
    ([None] when the file does not open as an image or has no EXIF block);
    a directory carries its listing and whether it may be listed. *)
Inductive node :=
  | File (st : stat_result) (exif : option exif_dict)
  | Dir (st : stat_result) (entries : list string) (listable : bool).

Definition node_stat (n : node) : stat_result :=
  match n with File st _ => st | Dir st _ _ => st end.

(** [nodes] maps a path to what is there; [denied] holds the paths at which
    creating a file or a directory fails; [os_name_nt] is [os.name == 'nt'];
    [cwd] is [os.getcwd()]; [now] is the local time of the run, which what
    the run creates is stamped with. *)
Record world := mkWorld {
  nodes : gmap string node;
  denied : gset string;
  os_name_nt : bool;
  cwd : string;
  now : Time.datetime }.

Definition set_nodes (w : world) (ns : gmap string node) : world :=
  mkWorld ns (denied w) (os_name_nt w) (cwd w) (now w).

(** [os.path.exists], [os.path.isfile], [os.stat], [os.path.getsize],
    [os.listdir] *)
Definition os_path_exists (w : world) (p : string) : bool :=
  bool_decide (is_Some (nodes w !! p)).

Definition os_path_isfile (w : world) (p : string) : bool :=
  match nodes w !! p with Some (File _ _) => true | _ => false end.

Definition os_stat (w : world) (p : string) : result stat_result :=
  match nodes w !! p with
  | Some n => Ok (node_stat n)
  | None => Raise (FileNotFoundError p)
  end.

Definition os_path_getsize (w : world) (p : string) : result nat :=
  match os_stat w p with
  | Ok st => Ok (st_size st)
  | Raise e => Raise e
  end.

Definition os_listdir (w : world) (p : string) : result (list string) :=
  match nodes w !! p with
  | Some (Dir _ entries true) => Ok entries
  | Some (Dir _ _ false) => Raise (PermissionError p)
  | Some (File _ _) => Raise (NotADirectoryError p)
  | None => Raise (FileNotFoundError p)
  end.

(** ** Media classifier (both scripts) *)

Definition image_extensions : list string :=
  [".jpg"; ".jpeg"; ".png"; ".gif"; ".bmp"; ".tiff"; ".tif";
   ".webp"; ".heic"; ".heif"; ".raw"; ".cr2"; ".nef"; ".arw";
   ".dng"; ".orf"; ".rw2"; ".pef"; ".srw"; ".raf";
   ".psd"; ".xmp";
   ".avi"; ".mov"; ".wmv"].

Definition is_image_file (file_path : string) : bool :=
  bool_decide
    (Str.lower (Pathlib.suffix (Pathlib.parse file_path)) ∈ image_extensions).

(** [get_base_name] *)
Definition get_base_name (filename : string) : string :=
  Pathlib.stem (Pathlib.parse filename).

(** ** find_duplicates.py: [find_duplicates_in_folder] *)

(** The dictionary stored for each listed file. *)
Record FileInfo := mkFileInfo {
  path : string;
  filename : string;
  base_name : string;
  file_size : nat;
  extension : string }.

Global Instance FileInfo_eq_dec : EqDecision FileInfo.
Proof. solve_decision. Defined.

(** [size_ext_groups]: a [defaultdict(list)] keyed by [(extension, size)],
    kept in insertion order as [.items()] walks it. *)
Definition groups := list ((string * nat) * list FileInfo).

(** [size_ext_groups[key].append(x)] *)
Fixpoint groups_append (key : string * nat) (x : FileInfo) (g : groups)
    : groups :=
  match g with
  | [] => [(key, [x])]
  | (k, l) :: g' =>
      if decide (k = key) then (k, l ++ [x]) :: g'
      else (k, l) :: groups_append key x g'
  end.

(** The loop [for filename in os.listdir(folder_path)]; it stops at the
    first exception, with the groups built so far. *)
Fixpoint listing_loop (w : world) (folder_path : string)
    (names : list string) (g : groups) : groups * option exn :=
  match names with
  | [] => (g, None)
  | filename :: rest =>
      let file_path := OsPath.join folder_path filename in
      if negb (os_path_isfile w file_path)
      then listing_loop w folder_path rest g
      else if negb (is_image_file file_path)
      then listing_loop w folder_path rest g
      else if Str.contains "final" (Str.lower filename)
      then listing_loop w folder_path rest g
      else
        let extension := Str.lower (Pathlib.suffix (Pathlib.parse filename)) in
        match os_path_getsize w file_path with
        | Raise e => (g, Some e)
        | Ok file_size =>
            let base_name := get_base_name filename in
            listing_loop w folder_path rest
              (groups_append (extension, file_size)
                 (mkFileInfo file_path filename base_name file_size extension)
                 g)
        end
  end.

(** The [try: ... except PermissionError: pass] block. *)
Definition size_ext_groups (w : world) (folder_path : string)
    : result groups :=
  match os_listdir w folder_path with
  | Raise (PermissionError _) => Ok []
  | Raise e => Raise e
  | Ok names =>
      match listing_loop w folder_path names [] with
      | (g, None) => Ok g
      | (g, Some (PermissionError _)) => Ok g
      | (g, Some e) => Raise e
      end
  end.

(** [filename_similarity(file1['base_name'], file2['base_name']) >=
    SIMILARITY_THRESHOLD] *)
Definition similar (file1 file2 : FileInfo) : bool :=
  Qle_bool SIMILARITY_THRESHOLD
    (filename_similarity (base_name file1) (base_name file2)).

(** [enumerate(files)] *)
Fixpoint enumerate_from {A} (n : nat) (l : list A) : list (nat * A) :=
  match l with
  | [] => []
  | x :: l' => (n, x) :: enumerate_from (S n) l'
  end.
Definition enumerate {A} (l : list A) : list (nat * A) := enumerate_from 0 l.

(** The value stored in [duplicates]. *)
Record DuplicateGroup := mkGroup {
  folder : string;
  group_extension : string;
  group_size : nat;
  files : list FileInfo }.

(** [duplicates]: a [dict] in insertion order. *)
Definition dict := list (string * DuplicateGroup).

(** [d[key] = v] *)
Fixpoint dict_set (key : string) (v : DuplicateGroup) (d : dict) : dict :=
  match d with
  | [] => [(key, v)]
  | (k, v') :: d' =>
      if decide (k = key) then (k, v) :: d'
      else (k, v') :: dict_set key v d'
  end.

(** [d.values()] *)
Definition dict_values (d : dict) : list DuplicateGroup := map snd d.

(** [f"{folder_path}|{extension}|{size}|{group_counter}"] *)
Definition group_key (folder_path extension : string) (size counter : nat)
    : string :=
  folder_path +:+ "|" +:+ extension +:+ "|" +:+ pretty size
    +:+ "|" +:+ pretty counter.

(** The loop [for j, file2 in enumerate(files)] around the seed [file1]. *)
Fixpoint inner_loop (file1 : FileInfo) (js : list (nat * FileInfo))
    (processed : gset nat) (similar_files : list FileInfo)
    : gset nat * list FileInfo :=
  match js with
  | [] => (processed, similar_files)
  | (j, file2) :: js' =>
      if bool_decide (j ∈ processed)
      then inner_loop file1 js' processed similar_files
      else if similar file1 file2
      then inner_loop file1 js' ({[j]} ∪ processed) (similar_files ++ [file2])
      else inner_loop file1 js' processed similar_files
  end.

(** What the scan carries from one group to the next. *)
Record scan_state := mkScan { group_counter : nat; duplicates : dict }.

(** The loop [for i, file1 in enumerate(files)] of one group; [todo] is
    what is left of [enumerate(files)]. *)
Fixpoint outer_loop (folder_path extension : string) (size : nat)
    (files : list FileInfo) (todo : list (nat * FileInfo))
    (processed : gset nat) (st : scan_state) : gset nat * scan_state :=
  match todo with
  | [] => (processed, st)
  | (i, file1) :: todo' =>
      if bool_decide (i ∈ processed)
      then outer_loop folder_path extension size files todo' processed st
      else
        let '(processed', similar_files) :=
          inner_loop file1 (enumerate files) ({[i]} ∪ processed) [file1] in
        let st' :=
          if 1 <? length similar_files then
            let counter := group_counter st + 1 in
            mkScan counter
              (dict_set (group_key folder_path extension size counter)
                 (mkGroup folder_path extension size similar_files)
                 (duplicates st))
          else st in
        outer_loop folder_path extension size files todo' processed' st'
  end.

(** The loop [for (extension, size), files in size_ext_groups.items()]. *)
Fixpoint groups_loop (folder_path : string) (g : groups) (st : scan_state)
    : scan_state :=
  match g with
  | [] => st
  | ((extension, size), files) :: g' =>
      let st' :=
        if 1 <? length files
        then (outer_loop folder_path extension size files
                (enumerate files) ∅ st).2
        else st in
      groups_loop folder_path g' st'
  end.

Definition find_duplicates_in_folder (w : world) (folder_path : string)
    : result dict :=
  match size_ext_groups w folder_path with
  | Raise e => Raise e
  | Ok g => Ok (duplicates (groups_loop folder_path g (mkScan 0 [])))
  end.

(** *** The partition as the specification words it

    Take the first unassigned file as a seed, give it the later unassigned
    files that are similar to it, and go on with what is left. *)

Section SeedClusters.
Context {A : Type} (sim : A → A → bool).

Equations? seed_clusters (l : list A) : list (list A) by wf (length l) lt :=
  seed_clusters [] := [];
  seed_clusters (seed :: rest) :=
    (seed :: List.filter (sim seed) rest)
      :: seed_clusters (List.filter (λ x, negb (sim seed x)) rest).
Proof. simpl. pose proof (List.filter_length_le (λ x, negb (sim seed x)) rest). lia. Qed.

(** One cluster per seed whose final member count is at least 2. *)
Definition emitted_clusters (l : list A) : list (list A) :=
  List.filter (λ c, 2 <=? length c) (seed_clusters l).
End SeedClusters.

(** ** organize_photos.py: date resolution *)

(** [TAGS.get(tag_id, tag_id)] for the two tags the script looks at:
    0x9003 and 0x9004. *)
Definition TAG_DateTimeOriginal : N := 36867%N.
Definition TAG_DateTimeDigitized : N := 36868%N.

(** The loop [for tag_id, value in exif_data.items()]; [None] when
    [strptime] raises. *)
Fixpoint exif_loop (items : exif_dict)
    (date_taken date_digitized : option Time.datetime)
    : option (option Time.datetime * option Time.datetime) :=
  match items with
  | [] => Some (date_taken, date_digitized)
  | (tag_id, value) :: rest =>
      if (tag_id =? TAG_DateTimeOriginal)%N then
        match Time.strptime value with
        | Some d => exif_loop rest (Some d) date_digitized
        | None => None
        end
      else if (tag_id =? TAG_DateTimeDigitized)%N then
        match Time.strptime value with
        | Some d => exif_loop rest date_taken (Some d)
        | None => None
        end
      else exif_loop rest date_taken date_digitized
  end.

(** [get_exif_date]: every exception ends in [return None]. *)
Definition get_exif_date (w : world) (image_path : string)
    : option Time.datetime :=
  match nodes w !! image_path with
  | Some (File _ (Some exif_data)) =>
      if bool_decide (exif_data = []) then None
      else
        match exif_loop exif_data None None with
        | Some (Some date_taken, _) => Some date_taken
        | Some (None, Some date_digitized) => Some date_digitized
        | _ => None
        end
  | _ => None
  end.

(** [get_file_creation_date] *)
Definition get_file_creation_date (w : world) (file_path : string)
    : result Time.datetime :=
  match os_stat w file_path with
  | Raise e => Raise e
  | Ok stat =>
      Ok (if os_name_nt w then st_ctime stat
          else match st_birthtime stat with
               | Some birth => birth
               | None => st_ctime stat
               end)
  end.

Definition raw_extensions : list string := [".nef"; ".arw"; ".dng"; ".raf"].

(** The loop [for ext in [raw_ext, raw_ext.upper()]]. *)
Fixpoint ext_loop (w : world) (image_dir : Pathlib.Path) (base_name : string)
    (exts : list string) : option string :=
  match exts with
  | [] => None
  | ext :: exts' =>
      let raw_path := Pathlib.joinpath image_dir (base_name +:+ ext) in
      if os_path_exists w (Pathlib.str raw_path)
      then Some (Pathlib.str raw_path)
      else ext_loop w image_dir base_name exts'
  end.

(** The loop [for raw_ext in raw_extensions]. *)
Fixpoint raw_loop (w : world) (image_dir : Pathlib.Path) (base_name : string)
    (raw_exts : list string) : option string :=
  match raw_exts with
  | [] => None
  | raw_ext :: raw_exts' =>
      match ext_loop w image_dir base_name [raw_ext; Str.upper raw_ext] with
      | Some raw_path => Some raw_path
      | None => raw_loop w image_dir base_name raw_exts'
      end
  end.

(** [find_matching_raw_file] *)
Definition find_matching_raw_file (w : world) (image_path : string)
    : option string :=
  let image_dir := Pathlib.parent (Pathlib.parse image_path) in
  let base_name := Pathlib.stem (Pathlib.parse image_path) in
  raw_loop w image_dir base_name raw_extensions.

Definition raw_sibling_extensions : list string :=
  [".jpg"; ".jpeg"; ".cr2"; ".png"; ".xmp"].

(** [if raw_file:] *)
Definition truthy (raw_file : option string) : bool :=
  match raw_file with
  | Some s => negb (bool_decide (s = ""))
  | None => false
  end.

(** [get_photo_date] *)
Definition get_photo_date (w : world) (image_path : string)
    : result Time.datetime :=
  let ext := Str.lower (Pathlib.suffix (Pathlib.parse image_path)) in
  if bool_decide (ext ∈ raw_sibling_extensions) then
    let raw_file := find_matching_raw_file w image_path in
    if truthy raw_file then
      let raw_file := default "" raw_file in
      match get_exif_date w raw_file with
      | Some exif_date => Ok exif_date
      | None => get_file_creation_date w raw_file
      end
    else get_file_creation_date w image_path
  else
    match get_exif_date w image_path with
    | Some exif_date => Ok exif_date
    | None => get_file_creation_date w image_path
    end.

(** ** organize_photos.py: filing *)

(** [os.makedirs(target_dir, exist_ok=True)].  Only the directory asked
    for is recorded; the script never looks at the ones above it. *)
Definition os_makedirs (w : world) (target_dir : string) : result world :=
  match nodes w !! target_dir with
  | Some (Dir _ _ _) => Ok w
  | Some (File _ _) => Raise (FileExistsError target_dir)
  | None =>
      if bool_decide (target_dir ∈ denied w)
      then Raise (PermissionError target_dir)
      else
        Ok (set_nodes w
              (<[target_dir := Dir (mkStat 0 (now w) None) [] true]> (nodes w)))
  end.

(** Where [shutil.copy2] and [shutil.move] write: inside [dst], under the
    name [name] of the source, when [dst] is a directory.  The script
    calls them with a [dst] at which it has just seen nothing. *)
Definition real_dst (w : world) (dst name : string) : string :=
  match nodes w !! dst with
  | Some (Dir _ _ _) => OsPath.join dst name
  | _ => dst
  end.

(** What [os.stat] reports of a copy made now of a file of record [st]:
    the size is that of the source, the file is a new one. *)
Definition copied_stat (w : world) (st : stat_result) : stat_result :=
  mkStat (st_size st) (now w)
         (match st_birthtime st with Some _ => Some (now w) | None => None end).

(** What [os.stat] reports of a file of record [st] renamed now: renaming
    is a change of metadata, which [st_ctime] records except on Windows,
    where it is the creation time. *)
Definition moved_stat (w : world) (st : stat_result) : stat_result :=
  mkStat (st_size st) (if os_name_nt w then st_ctime st else now w)
         (st_birthtime st).

(** [shutil.copy2(src, dst)]: the copy has the content of the source, and
    so its EXIF data. *)
Definition shutil_copy2 (w : world) (src dst : string) : result world :=
  match nodes w !! src with
  | Some (File st exif) =>
      let dst' := real_dst w dst (OsPath.basename src) in
      if bool_decide (dst' ∈ denied w) then Raise (PermissionError dst')
      else Ok (set_nodes w (<[dst' := File (copied_stat w st) exif]> (nodes w)))
  | Some (Dir _ _ _) => Raise (IsADirectoryError src)
  | None => Raise (FileNotFoundError src)
  end.

(** [shutil.move(src, dst)], source and destination being on one file
    system: the file is renamed; when renaming fails the call goes on as
    [copy2] does and raises its exception.  [os.walk] lists directories
    apart from files, so [src] is not a directory when the script calls;
    for one the model raises as [copy2] does. *)
Definition shutil_move (w : world) (src dst : string) : result world :=
  match nodes w !! src with
  | Some (File st exif) =>
      let dst' := real_dst w dst (OsPath.basename (Str.rstrip "/" src)) in
      if bool_decide (dst' ∈ denied w) then Raise (PermissionError dst')
      else Ok (set_nodes w
                 (<[dst' := File (moved_stat w st) exif]> (delete src (nodes w))))
  | Some (Dir _ _ _) => Raise (IsADirectoryError src)
  | None => Raise (FileNotFoundError src)
  end.

(** The loop [while os.path.exists(target_path)].  [fuel] bounds the number
    of tests; [choose_target_spec] shows that the fuel given by
    [choose_target] is never used up. *)
Fixpoint rename_loop (w : world) (target_dir base ext : string)
    (fuel : nat) (target_path : string) (counter : nat) : string :=
  match fuel with
  | 0 => target_path
  | S fuel' =>
      if os_path_exists w target_path then
        let new_filename := base +:+ "_" +:+ pretty counter +:+ ext in
        rename_loop w target_dir base ext fuel'
          (OsPath.join target_dir new_filename) (counter + 1)
      else target_path
  end.

(** The block "Handle duplicate filenames". *)
Definition choose_target (w : world) (target_dir filename : string) : string :=
  let target_path := OsPath.join target_dir filename in
  if os_path_exists w target_path then
    let '(base, ext) := OsPath.splitext filename in
    rename_loop w target_dir base ext (size (nodes w) + 2) target_path 1
  else target_path.

(** The body of the [try] for one file: the file system it leaves and
    either the path the file was filed at or the exception raised. *)
Definition file_try (w : world) (destination_folder file_path filename : string)
    (copy_files : bool) : world * result string :=
  match get_photo_date w file_path with
  | Raise e => (w, Raise e)
  | Ok photo_date =>
      let file_ext :=
        Str.lstrip "." (Str.upper (Pathlib.suffix (Pathlib.parse file_path))) in
      let year_folder := Time.strftime_Y photo_date in
      let day_folder := Time.strftime_Ymd photo_date in
      let target_dir :=
        OsPath.join (OsPath.join (OsPath.join destination_folder year_folder)
                       day_folder) file_ext in
      match os_makedirs w target_dir with
      | Raise e => (w, Raise e)
      | Ok w1 =>
          let target_path := choose_target w1 target_dir filename in
          match (if copy_files then shutil_copy2 w1 file_path target_path
                 else shutil_move w1 file_path target_path) with
          | Raise e => (w1, Raise e)
          | Ok w2 => (w2, Ok target_path)
          end
      end
  end.

(** [stats] *)
Record Stats := mkStats {
  total_found : nat;
  organized : nat;
  skipped : nat;
  errors : list string }.

(** One turn of [for filename in files]. *)
Definition process_file (destination_folder root filename : string)
    (copy_files : bool) (s : Stats * world) : Stats * world :=
  let '(stats, w) := s in
  let file_path := OsPath.join root filename in
  if negb (is_image_file file_path) then (stats, w)
  else
    let stats :=
      mkStats (total_found stats + 1) (organized stats) (skipped stats)
        (errors stats) in
    match file_try w destination_folder file_path filename copy_files with
    | (w', Ok _) =>
        (mkStats (total_found stats) (organized stats + 1) (skipped stats)
           (errors stats), w')
    | (w', Raise e) =>
        (mkStats (total_found stats) (organized stats) (skipped stats + 1)
           (errors stats ++ [file_path +:+ ": " +:+ exn_str e]), w')
    end.

Definition files_loop (destination_folder root : string)
    (filenames : list string) (copy_files : bool) (s : Stats * world)
    : Stats * world :=
  foldl (λ s filename,
           process_file destination_folder root filename copy_files s)
        s filenames.

(** [os.path.normpath(os.path.abspath(p)).lower()] *)
Definition normalized (w : world) (p : string) : string :=
  Str.lower (OsPath.normpath (OsPath.abspath (cwd w) p)).

(** The test guarding [continue]. *)
Definition in_destination (dest_normalized root_normalized : string) : bool :=
  bool_decide (root_normalized = dest_normalized)
  || Str.startswith (dest_normalized +:+ OsPath.sep) root_normalized.

(** What [os.walk] yields: [(root, dirs, files)]. *)
Definition walk_item : Type := string * list string * list string.

(** One turn of [for root, dirs, files in os.walk(source_folder)]. *)
Definition process_dir (destination_folder dest_normalized : string)
    (copy_files : bool) (s : Stats * world) (item : walk_item)
    : Stats * world :=
  let '(root, dirs, filenames) := item in
  let root_normalized := normalized s.2 root in
  if in_destination dest_normalized root_normalized then s
  else files_loop destination_folder root filenames copy_files s.

(** [organize_photos]; [walk] is the sequence [os.walk(source_folder)]
    yields during the run. *)
Definition organize_photos (walk : list walk_item) (w : world)
    (source_folder : string) (destination_folder : option string)
    (copy_files : bool) : Stats * world :=
  let destination_folder :=
    match destination_folder with
    | None => OsPath.join source_folder "Organized"
    | Some d => d
    end in
  let stats := mkStats 0 0 0 [] in
  let dest_normalized := normalized w destination_folder in
  foldl (process_dir destination_folder dest_normalized copy_files)
        (stats, w) walk.

(** ** find_duplicates.py: [scan_for_duplicates] *)

(** [if s:] for a string. *)
Definition nonempty (s : string) : bool := negb (bool_decide (s = "")).

(** [excluded_normalized]: [None] unless [excluded_folder] is a string
    that is not empty. *)
Definition excluded_normalized (w : world) (excluded_folder : option string)
    : option string :=
  match excluded_folder with
  | Some e => if nonempty e then Some (normalized w e) else None
  | None => None
  end.

(** The test guarding [continue] in the scan. *)
Definition excluded (w : world) (excluded_normalized : option string)
    (root : string) : bool :=
  match excluded_normalized with
  | Some e => nonempty e && in_destination e (normalized w root)
  | None => false
  end.

(** The loop [for root, dirs, files in os.walk(root_folder)]: the groups of
    each folder are appended in the order of its dictionary; an exception
    of [find_duplicates_in_folder] ends the scan. *)
Fixpoint scan_loop (w : world) (excluded_normalized : option string)
    (walk : list walk_item) (all_duplicates : list DuplicateGroup)
    : result (list DuplicateGroup) :=
  match walk with
  | [] => Ok all_duplicates
  | (root, dirs, filenames) :: walk' =>
      if excluded w excluded_normalized root
      then scan_loop w excluded_normalized walk' all_duplicates
      else
        match find_duplicates_in_folder w root with
        | Raise e => Raise e
        | Ok folder_duplicates =>
            scan_loop w excluded_normalized walk'
              (all_duplicates ++ dict_values folder_duplicates)
        end
  end.

(** [scan_for_duplicates]; [walk] is what [os.walk(root_folder)] yields. *)
Definition scan_for_duplicates (walk : list walk_item) (w : world)
    (root_folder : string) (excluded_folder : option string)
    : result (list DuplicateGroup) :=
  scan_loop w (excluded_normalized w excluded_folder) walk [].

(** ** find_duplicates.py: [format_size]

    [size_bytes] is an [int] until the first division, which makes it a
    [float].  The floats met are non-negative and are kept as the
    rationals they are: the quotient of two integers is rounded to 53
    significant bits, ties to even; dividing a float by 1024 is exact. *)

Module Number.

Inductive number :=
  | Int (n : Z)
  | Float (q : Q).

Definition value (x : number) : Q :=
  match x with Int n => inject_Z n | Float q => q end.

(** The integer nearest to [q], ties to the even one. *)
Definition round_half_even (q : Q) : Z :=
  let below := Qfloor q in
  match Qcompare (q - inject_Z below) (1 # 2) with
  | Lt => below
  | Gt => (below + 1)%Z
  | Eq => if Z.even below then below else (below + 1)%Z
  end.

(** A positive integer rounded to 53 significant bits. *)
Definition round53 (n : Z) : Z :=
  if (Z.log2 n <? 53)%Z then n
  else
    let e := (Z.log2 n - 52)%Z in
    (round_half_even (n # Pos.shiftl 1 (Z.to_N e)) * 2 ^ e)%Z.

(** [x < 1024] *)
Definition lt_1024 (x : number) : bool :=
  negb (Qle_bool 1024 (value x)).

(** [x / 1024] *)
Definition div_1024 (x : number) : number :=
  match x with
  | Int n => Float (round53 n # 1024)
  | Float q => Float (q / 1024)
  end.

(** [f"{x:.1f}"] for [x >= 0]: the decimal with one digit after the
    point nearest to the value, ties to even. *)
Definition format_1f (x : number) : string :=
  let tenths := round_half_even (value x * 10) in
  pretty (Z.to_N (tenths / 10)) +:+ "." +:+ pretty (Z.to_N (tenths mod 10)).

End Number.

(** The loop [for unit in ['B', 'KB', 'MB', 'GB']] and the [return] after
    it. *)
Fixpoint units_loop (units : list string) (size_bytes : Number.number)
    : string :=
  match units with
  | [] => Number.format_1f size_bytes +:+ " TB"
  | unit :: units' =>
      if Number.lt_1024 size_bytes
      then Number.format_1f size_bytes +:+ " " +:+ unit
      else units_loop units' (Number.div_1024 size_bytes)
  end.

(** [format_size] *)
Definition format_size (size_bytes : nat) : string :=
  units_loop ["B"; "KB"; "MB"; "GB"] (Number.Int (Z.of_nat size_bytes)).

(** * Definitions used to state and prove the properties *)

Section MatchingBlocksDefs.
Import Difflib.

(** Entries of a row of [j2len]: columns inside [[blo, bhi)], run lengths
    bounded by the distance to the window's corner. *)
Definition row_ok (blo bhi cap : nat) (m : gmap nat nat) : Prop :=
  ∀ j v, m !! j = Some v → blo ≤ j ∧ j < bhi ∧ v ≤ j + 1 - blo ∧ v ≤ cap.

Definition best_ok (alo ahi blo bhi : nat) (m : Match) : Prop :=
  alo ≤ m_a m ∧ m_a m + m_size m ≤ ahi ∧
  blo ≤ m_b m ∧ m_b m + m_size m ≤ bhi.

Definition region_ok (r : Region) : Prop := alo r ≤ ahi r ∧ blo r ≤ bhi r.

Definition a_room (q : list Region) : nat :=
  foldr (λ r acc, (ahi r - alo r) + acc) 0 q.
Definition b_room (q : list Region) : nat :=
  foldr (λ r acc, (bhi r - blo r) + acc) 0 q.
Definition cost (q : list Region) : nat :=
  foldr (λ r acc, 2 * (ahi r - alo r) + 1 + acc) 0 q.

(** The queue after one iteration that found the block [x] in region [r]. *)
Definition next_queue (r : Region) (x : Match) (q : list Region)
    : list Region :=
  let q1 := if (alo r <? m_a x) && (blo r <? m_b x)
            then mkRegion (alo r) (m_a x) (blo r) (m_b x) :: q else q in
  if (m_a x + m_size x <? ahi r) && (m_b x + m_size x <? bhi r)
  then mkRegion (m_a x + m_size x) (ahi r) (m_b x + m_size x) (bhi r) :: q1
  else q1.

(** [diag_of a j]: how many indexed (not popular) elements of [a] end at
    index [j]. *)
Fixpoint diag_of (a : list ascii) (j : nat) : nat :=
match a !! j with
| Some c =>
    if Difflib.popular a c then 0
    else S (match j with 0 => 0 | S j' => diag_of a j' end)
| None => 0
end.

Definition dprev_of (a : list ascii) (j : nat) : nat :=
match j with 0 => 0 | S j' => diag_of a j' end.

(** A row of [j2len] of [a] against itself stays under the diagonal. *)
Definition row_diag_of (a : list ascii) (cap : nat) (m : gmap nat nat) : Prop :=
∀ j v, m !! j = Some v → v ≤ cap ∧ v ≤ diag_of a j.

(** The block [m] is a common run: [m_size m] characters of [a] from
    [m_a m] on are there and are those of [b] from [m_b m] on. *)
Definition block_matches (a b : list ascii) (m : Difflib.Match) : Prop :=
∀ t, t < Difflib.m_size m →
  is_Some (a !! (Difflib.m_a m + t))
  ∧ a !! (Difflib.m_a m + t) = b !! (Difflib.m_b m + t).

(** An entry [v] at column [j] of the row of [j2len] for line [i] is the
    length of a common run ending at [a[i]] and [b[j]]. *)
Definition row_runs (a b : list ascii) (i : nat) (m : gmap nat nat) : Prop :=
∀ j v, m !! j = Some v →
  v ≤ S i ∧ v ≤ S j ∧
  ∀ t, t < v → is_Some (a !! (i - t)) ∧ a !! (i - t) = b !! (j - t).

(** The row of the line before [i], as line [i] reads it. *)
Definition prev_runs (a b : list ascii) (i : nat) (m : gmap nat nat) : Prop :=
∀ j v, m !! j = Some v →
  v ≤ i ∧ v ≤ S j ∧
  ∀ t, t < v → is_Some (a !! (i - 1 - t)) ∧ a !! (i - 1 - t) = b !! (j - t).

End MatchingBlocksDefs.

Fixpoint all_chars (p : ascii → bool) (s : string) : bool :=
match s with
| EmptyString => true
| String c s' => p c && all_chars p s'
end.

Definition is_digit (c : ascii) : bool :=
match Time.digit c with Some _ => true | None => false end.

(** What follows the last bar of a dictionary key. *)
Definition after_last (c : ascii) (s : string) : string :=
match Str.rfind c s with
| Some i => Str.drop (S i) s
| None => s
end.

(** The files of [todo] whose index is not in [processed]. *)
Definition live (processed : gset nat) (todo : list (nat * FileInfo))
  : list FileInfo :=
map snd (List.filter (λ p, bool_decide (p.1 ∉ processed)) todo).

(** Every key of the dictionary was made with a counter up to [n]. *)
Definition keys_below (n : nat) (d : dict) : Prop :=
∀ k v, (k, v) ∈ d →
  ∃ folder_path ext size c, k = group_key folder_path ext size c ∧ c ≤ n.

(** The clusters one group adds to the dictionary. *)
Definition group_clusters (folder_path : string)
  (g : (string * nat) * list FileInfo) : list DuplicateGroup :=
map (mkGroup folder_path g.1.1 g.1.2) (emitted_clusters similar g.2).

(** A record built by the listing loop for the group [key] of [folder_path]. *)
Definition listed (w : world) (folder_path : string) (key : string * nat)
  (f : FileInfo) : Prop :=
extension f = key.1 ∧ file_size f = key.2 ∧
path f = OsPath.join folder_path (filename f) ∧
extension f = Str.lower (Pathlib.suffix (Pathlib.parse (filename f))) ∧
os_path_getsize w (path f) = Ok (file_size f) ∧
os_path_isfile w (path f) = true ∧
is_image_file (path f) = true ∧
Str.contains "final" (Str.lower (filename f)) = false.

Definition groups_listed (w : world) (folder_path : string) (g : groups)
  : Prop :=
∀ key fs f, (key, fs) ∈ g → f ∈ fs → listed w folder_path key f.

Definition example_date : Time.datetime := Time.mkDatetime 2024 3 9 10 0 0.
Definition example_stat (n : nat) : stat_result := mkStat n example_date None.

(** The run takes place the day after. *)
Definition example_now : Time.datetime := Time.mkDatetime 2024 3 10 9 30 0.

(** A folder of photos of one size, one of them marked final, with a text
    file and a sub-folder. *)
Definition shoot_folder : world :=
mkWorld
  (list_to_map
     [("/p", Dir (example_stat 0)
               ["IMG_0001.jpg"; "DSC_9999.jpg"; "IMG_0002.jpg";
                "IMG_0003_final.jpg"; "notes.txt"; "IMG_0004.JPG"; "sub";
                "DSC_9998.jpg"; "IMG_0005.png"] true);
      ("/p/IMG_0001.jpg", File (example_stat 100) None);
      ("/p/IMG_0002.jpg", File (example_stat 100) None);
      ("/p/DSC_9999.jpg", File (example_stat 100) None);
      ("/p/DSC_9998.jpg", File (example_stat 100) None);
      ("/p/IMG_0003_final.jpg", File (example_stat 100) None);
      ("/p/notes.txt", File (example_stat 100) None);
      ("/p/IMG_0004.JPG", File (example_stat 100) None);
      ("/p/IMG_0005.png", File (example_stat 100) None);
      ("/p/sub", Dir (example_stat 0) [] true)])
  ∅ false "/" example_now.

Definition shoot_duplicates : dict :=
Eval vm_compute in
  match find_duplicates_in_folder shoot_folder "/p" with
  | Ok d => d
  | Raise _ => []
  end.

(** Two files of the same type and size. *)
Definition pair_folder (name1 name2 : string) : world :=
mkWorld
  (list_to_map
     [("/p", Dir (example_stat 0) [name1; name2] true);
      (OsPath.join "/p" name1, File (example_stat 100) None);
      (OsPath.join "/p" name2, File (example_stat 100) None)])
  ∅ false "/" example_now.

Definition pair_record (name : string) : FileInfo :=
mkFileInfo (OsPath.join "/p" name) name (get_base_name name) 100 ".jpg".

Definition no_sep (c : string) : bool :=
all_chars (λ x, negb (bool_decide (x = "/"%char))) c.

(** A component as [Path] keeps them. *)
Definition component (c : string) : Prop :=
Pathlib.is_part c = true ∧ no_sep c = true.

(** The raw extensions in the two forms tried, in the order tried. *)
Definition raw_forms : list string :=
[".nef"; ".NEF"; ".arw"; ".ARW"; ".dng"; ".DNG"; ".raf"; ".RAF"].

(** The paths [find_matching_raw_file] tests, in the order it tests them. *)
Definition raw_candidates (image_path : string) : list string :=
map (λ ext,
       Pathlib.str
         (Pathlib.joinpath (Pathlib.parent (Pathlib.parse image_path))
            (Pathlib.stem (Pathlib.parse image_path) +:+ ext)))
    raw_forms.

(** Closed decidable facts, by evaluation. *)
Ltac by_compute :=
  match goal with
  | |- ¬ ?P => apply (bool_decide_eq_false_1 P); vm_compute; reflexivity
  | |- ?P → False => apply (bool_decide_eq_false_1 P); vm_compute; reflexivity
  | |- ?P => apply (bool_decide_eq_true_1 P); vm_compute; reflexivity
  end.

(** The same file system with other EXIF data in the file at [p]. *)
Definition set_exif (w : world) (p : string) (exif : option exif_dict)
  : world :=
set_nodes w
  (alter (λ n, match n with
               | File st _ => File st exif
               | Dir st entries listable => Dir st entries listable
               end) p (nodes w)).

(** [photo.jpg] with its own EXIF date next to [photo.NEF]. *)
Definition companion_folder : world :=
mkWorld
  (list_to_map
     [("/p/photo.jpg",
       File (example_stat 100) (Some [(36867%N, "2021:05:04 10:00:00")]));
      ("/p/photo.NEF",
       File (example_stat 900)
         (Some [(271%N, "NIKON"); (36868%N, "2020:01:02 03:04:06");
                (36867%N, "2020:01:02 03:04:05")]))])
  ∅ false "/" example_now.

(** [photo.jpg] with its own EXIF date and no RAW file beside it. *)
Definition lone_folder : world :=
mkWorld
  (list_to_map
     [("/p/photo.jpg",
       File (example_stat 100) (Some [(36867%N, "2021:05:04 10:00:00")]))])
  ∅ false "/" example_now.

(** [photo.nef] beside an image whose name differs in case only. *)
Definition case_folder : world :=
mkWorld
  (list_to_map
     [("d/PHOTO.jpg", File (example_stat 100) None);
      ("d/photo.nef", File (example_stat 900) None)])
  ∅ false "/" example_now.

(** [os.path.join(target_dir, f"{base}_{counter}{ext}")] *)
Definition renamed (target_dir base ext : string) (counter : nat) : string :=
OsPath.join target_dir (base +:+ "_" +:+ pretty counter +:+ ext).

(** The directory a file dated [photo_date] is filed in. *)
Definition target_dir_of (destination_folder file_path : string)
  (photo_date : Time.datetime) : string :=
OsPath.join
  (OsPath.join (OsPath.join destination_folder (Time.strftime_Y photo_date))
     (Time.strftime_Ymd photo_date))
  (Str.lstrip "." (Str.upper (Pathlib.suffix (Pathlib.parse file_path)))).

(** The files the run goes through, directory after directory: those of the
    directories that are not skipped. *)
Definition file_steps (cwd dest_normalized : string) (walk : list walk_item)
  : list (string * string) :=
flat_map
  (λ item : walk_item,
     let '(root, dirs, filenames) := item in
     if in_destination dest_normalized
          (Str.lower (OsPath.normpath (OsPath.abspath cwd root)))
     then [] else map (pair root) filenames)
  walk.

Definition run_steps (destination_folder : string) (copy_files : bool)
  (steps : list (string * string)) (s : Stats * world) : Stats * world :=
foldl (λ s step, process_file destination_folder step.1 step.2 copy_files s)
      s steps.

Definition is_media_step (step : string * string) : bool :=
is_image_file (OsPath.join step.1 step.2).

(** The statistics add up. *)
Definition balanced (s : Stats) : Prop :=
total_found s = organized s + skipped s ∧ length (errors s) = skipped s.

(** Counters only grow, messages are only appended. *)
Definition stats_le (s s' : Stats) : Prop :=
total_found s ≤ total_found s' ∧ organized s ≤ organized s' ∧
skipped s ≤ skipped s' ∧ errors s `prefix_of` errors s'.

(** The files one directory of the walk contributes. *)
Definition dir_steps (cwd dest_normalized : string) (item : walk_item)
  : list (string * string) :=
if in_destination dest_normalized
     (Str.lower (OsPath.normpath (OsPath.abspath cwd item.1.1)))
then [] else map (pair item.1.1) item.2.

(** Three photos of the same name and day in three folders. *)
Definition collision_tree : world :=
mkWorld
  (list_to_map
     [("/src/a/x.jpg", File (example_stat 1) None);
      ("/src/b/x.jpg", File (example_stat 2) None);
      ("/src/c/x.jpg", File (example_stat 3) None)])
  ∅ false "/" example_now.

Definition collision_walk : list walk_item :=
[("/src", ["a"; "b"; "c"], []);
 ("/src/a", [], ["x.jpg"]);
 ("/src/b", [], ["x.jpg"]);
 ("/src/c", [], ["x.jpg"])].

(** One photo, filed with the root directory as destination. *)
Definition root_tree : world :=
mkWorld (list_to_map [("/photos/x.jpg", File (example_stat 1) None)])
        ∅ false "/" example_now.

Definition root_walk_first : list walk_item :=
[("/", ["photos"], []); ("/photos", [], ["x.jpg"])].

Definition root_walk_second : list walk_item :=
[("/", ["2024"; "photos"], []);
 ("/2024", ["20240309"], []);
 ("/2024/20240309", ["JPG"], []);
 ("/2024/20240309/JPG", [], ["x.jpg"]);
 ("/photos", [], ["x.jpg"])].

(** The same photo with the default destination, and the second walk. *)
Definition organized_walk_second : list walk_item :=
[("/photos", ["Organized"], ["x.jpg"]);
 ("/photos/Organized", ["2024"], []);
 ("/photos/Organized/2024", ["20240309"], []);
 ("/photos/Organized/2024/20240309", ["JPG"], []);
 ("/photos/Organized/2024/20240309/JPG", [], ["x.jpg"])].

(** A folder with a photo, a name whose file is gone, and a text file. *)
Definition mixed_walk : list walk_item :=
[("/p", [], ["photo.jpg"; "ghost.jpg"; "notes.txt"])].

(** A common run of [v] characters ending at [a[i]] and [b[j]] that stays
    inside the window opening at [alo] and [blo]. *)
Definition run_ending (a b : list ascii) (alo blo i j v : nat) : Prop :=
v ≤ i + 1 - alo ∧ v ≤ j + 1 - blo ∧
∀ t, t < v → is_Some (a !! (i - t)) ∧ a !! (i - t) = b !! (j - t).

(** What line [i] needs of the row of the line before: it bounds the runs
    that go on into line [i]. *)
Definition prev_covers (a b : list ascii) (alo blo bhi i : nat)
  (prev : gmap nat nat) : Prop :=
∀ j v, blo ≤ j → j < bhi → run_ending a b alo blo i j (S v) →
       v ≤ Difflib.j2lenget prev j.

(** [best] is as long as every run ending before line [i]. *)
Definition best_covers (a b : list ascii) (alo blo bhi i : nat)
  (best : Difflib.Match) : Prop :=
∀ i' j v, i' < i → blo ≤ j → j < bhi → run_ending a b alo blo i' j v →
          v ≤ Difflib.m_size best.

(** [exif_data.get(tag)] *)
Definition exif_get (tag : N) (exif_data : exif_dict) : option string :=
snd <$> List.find (λ kv : N * string, (kv.1 =? tag)%N) exif_data.

(** [photo.NEF] with a date taken and a date digitized that does not
    parse, beside [photo.jpg]. *)
Definition damaged_folder : world :=
mkWorld
  (list_to_map
     [("/p/photo.jpg", File (example_stat 100) None);
      ("/p/photo.NEF",
       File (example_stat 900)
         (Some [(36867%N, "2020:01:02 03:04:05");
                (36868%N, "0000:00:00 00:00:00")]))])
  ∅ false "/" example_now.

(** The record the listing loop builds for a name, its size known. *)
Definition record_of (folder_path filename : string) (size : nat) : FileInfo :=
mkFileInfo (OsPath.join folder_path filename) filename
  (get_base_name filename) size
  (Str.lower (Pathlib.suffix (Pathlib.parse filename))).

(** The records of the names that pass the tests of the listing loop, in
    the order of the listing. *)
Definition eligible (w : world) (folder_path : string) (names : list string)
  : list FileInfo :=
flat_map
  (λ filename,
     let file_path := OsPath.join folder_path filename in
     if os_path_isfile w file_path && is_image_file file_path
        && negb (Str.contains "final" (Str.lower filename))
     then match os_path_getsize w file_path with
          | Ok size => [record_of folder_path filename size]
          | Raise _ => []
          end
     else [])
  names.

Definition key_of (f : FileInfo) : string * nat := (extension f, file_size f).

Definition has_key (key : string * nat) (f : FileInfo) : bool :=
bool_decide (key_of f = key).

(** [g] is the list [l] grouped by key: one entry for each key met, with
    the records of that key in the order of [l]. *)
Definition grouped (g : groups) (l : list FileInfo) : Prop :=
NoDup g.*1
∧ (∀ key fs, (key, fs) ∈ g → fs ≠ [] ∧ fs = List.filter (has_key key) l)
∧ (∀ f, f ∈ l → key_of f ∈ g.*1)
∧ concat g.*2 ≡ₚ l.

(** [r] is [d] or lies under [d]: same root, and the components of [d]
    open those of [r]. *)
Definition under (d r : string) : Prop :=
Pathlib.root (Pathlib.parse d) = Pathlib.root (Pathlib.parse r)
∧ Pathlib.parts (Pathlib.parse d) `prefix_of` Pathlib.parts (Pathlib.parse r).

Global Instance under_dec d r : Decision (under d r).
Proof. unfold under. apply _. Defined.

(** The directories of a walk that are neither the destination nor under
    it. *)
Definition outside (w : world) (dest : string) (walk : list walk_item)
  : list walk_item :=
List.filter
  (λ item : walk_item,
     negb (bool_decide (under (normalized w dest) (normalized w item.1.1))))
  walk.

(** The tree of [root_tree] after a first run with the default
    destination, and the walk of the destination. *)
Definition filed_tree : world :=
mkWorld
  (list_to_map
     [("/photos/x.jpg", File (example_stat 1) None);
      ("/photos/Organized/2024/20240309/JPG",
       Dir (mkStat 0 example_now None) [] true);
      ("/photos/Organized/2024/20240309/JPG/x.jpg",
       File (mkStat 1 example_now None) None)])
  ∅ false "/" example_now.

Definition filed_walk : list walk_item :=
[("/photos/Organized", ["2024"], []);
 ("/photos/Organized/2024", ["20240309"], []);
 ("/photos/Organized/2024/20240309", ["JPG"], []);
 ("/photos/Organized/2024/20240309/JPG", [], ["x.jpg"])].

(** The walk with the names of media files only. *)
Definition media_only (walk : list walk_item) : list walk_item :=
map (λ item : walk_item,
       (item.1.1, item.1.2,
        List.filter (λ filename, is_image_file (OsPath.join item.1.1 filename))
          item.2))
    walk.

(** The paths of the media files a run goes through. *)
Definition media_paths (cwd dest_normalized : string)
  (walk : list walk_item) : list string :=
map (λ step : string * string, OsPath.join step.1 step.2)
    (List.filter is_media_step (file_steps cwd dest_normalized walk)).

Definition is_file (n : node) : Prop :=
match n with File _ _ => True | Dir _ _ _ => False end.

Global Instance is_file_dec n : Decision (is_file n).
Proof. destruct n; apply _. Defined.

(** The number of regular files on disk. *)
Definition file_count (w : world) : nat :=
size (filter (λ kv : string * node, is_file kv.2) (nodes w)).

(** An album with a photo and a text file. *)
Definition album_tree : world :=
mkWorld
  (list_to_map
     [("/album/a.jpg", File (example_stat 1) None);
      ("/album/notes.txt", File (example_stat 2) None)])
  ∅ false "/" example_now.

Definition album_walk : list walk_item :=
[("/album", [], ["a.jpg"; "notes.txt"])].

(** [w'] still has the content of every regular file of [w]: a regular
    file of the same size and the same EXIF data. *)
Definition keeps_contents (w w' : world) : Prop :=
∀ p st exif,
  nodes w !! p = Some (File st exif) →
  ∃ p' st', nodes w' !! p' = Some (File st' exif) ∧ st_size st' = st_size st.

(** The walked folders the scan looks into, in the order of the walk. *)
Definition scanned (w : world) (excluded_folder : option string)
  (walk : list walk_item) : list string :=
map (λ item : walk_item, item.1.1)
    (List.filter
       (λ item : walk_item,
          negb (excluded w (excluded_normalized w excluded_folder) item.1.1))
       walk).

(** [p] names a directory. *)
Definition is_dir (w : world) (p : string) : bool :=
match nodes w !! p with Some (Dir _ _ _) => true | _ => false end.

(** The exception [os.listdir] raises for a path that names no
    directory. *)
Definition listing_error (w : world) (p : string) : exn :=
match nodes w !! p with
| Some (File _ _) => NotADirectoryError p
| _ => FileNotFoundError p
end.

(** A photo shoot and an album side by side. *)
Definition library_tree : world :=
mkWorld
  (list_to_map
     [("/lib", Dir (example_stat 0) ["shoot"; "album"] true);
      ("/lib/shoot",
       Dir (example_stat 0) ["IMG_0001.jpg"; "IMG_0002.jpg"] true);
      ("/lib/shoot/IMG_0001.jpg", File (example_stat 100) None);
      ("/lib/shoot/IMG_0002.jpg", File (example_stat 100) None);
      ("/lib/album",
       Dir (example_stat 0) ["DSC_0001.png"; "DSC_0002.png"] true);
      ("/lib/album/DSC_0001.png", File (example_stat 7) None);
      ("/lib/album/DSC_0002.png", File (example_stat 7) None)])
  ∅ false "/" example_now.

Definition library_walk : list walk_item :=
[("/lib", ["shoot"; "album"], []);
 ("/lib/shoot", [], ["IMG_0001.jpg"; "IMG_0002.jpg"]);
 ("/lib/album", [], ["DSC_0001.png"; "DSC_0002.png"])].

(** The walk when the folder [/lib/gone] has been removed after its parent
    listed it. *)
Definition stale_walk : list walk_item :=
[("/lib", ["shoot"; "gone"; "album"], []);
 ("/lib/shoot", [], ["IMG_0001.jpg"; "IMG_0002.jpg"]);
 ("/lib/gone", [], []);
 ("/lib/album", [], ["DSC_0001.png"; "DSC_0002.png"])].

(** The unit a size is shown in: 0 for B, 1 for KB, 2 for MB, 3 for GB,
    4 for TB. *)
Definition unit_index (size_bytes : Z) : nat :=
if (size_bytes <? 1024)%Z then 0
else if (size_bytes <? 1024 ^ 2)%Z then 1
else if (size_bytes <? 1024 ^ 3)%Z then 2
else if (size_bytes <? 1024 ^ 4)%Z then 3
else 4.

Definition unit_name (k : nat) : string :=
nth k ["B"; "KB"; "MB"; "GB"] "TB".

(** A number of tenths written with one digit after the point. *)
Definition decimal (tenths : Z) : string :=
pretty (Z.to_N (tenths / 10)) +:+ "." +:+ pretty (Z.to_N (tenths mod 10)).

(** [x] is [z / P]. *)
Definition scaled (x : Number.number) (z P : Z) : Prop :=
(Number.value x * inject_Z P == inject_Z z)%Q.

(** * Properties *)

(** ** Facts about the matching-blocks model *)

Section DifflibBounds.
Import Difflib.

Variables a b : list ascii.

Lemma row_ok_empty blo bhi cap : row_ok blo bhi cap ∅.
Proof. intros j v H. by rewrite lookup_empty in H. Qed.

Lemma j2lenget_bound blo bhi cap m j :
  row_ok blo bhi cap m → blo ≤ j →
  j2lenget m j ≤ j - blo ∧ j2lenget m j ≤ cap.
Proof.
  intros Hm Hj. destruct j as [|j']; simpl; [lia|].
  destruct (m !! j') as [v|] eqn:E; simpl; [|lia].
  destruct (Hm _ _ E) as (? & ? & ? & ?). lia.
Qed.

Lemma best_ok_weaken alo ahi ahi' blo bhi m :
  best_ok alo ahi blo bhi m → ahi ≤ ahi' → best_ok alo ahi' blo bhi m.
Proof. unfold best_ok. intros (? & ? & ? & ?) ?. repeat split; lia. Qed.

Lemma row_loop_ok js alo blo bhi i prev new best new' best' :
  alo ≤ i →
  row_ok blo bhi (i - alo) prev →
  row_ok blo bhi (S (i - alo)) new →
  best_ok alo (S i) blo bhi best →
  row_loop js blo bhi i prev new best = (new', best') →
  row_ok blo bhi (S (i - alo)) new' ∧ best_ok alo (S i) blo bhi best'.
Proof.
  intros Hi Hprev. revert new best.
  induction js as [|j js IH]; intros new best Hnew Hbest Hrun; simpl in Hrun.
  - by simplify_eq.
  - destruct (j <? blo) eqn:E1; [by eapply IH|].
    destruct (bhi <=? j) eqn:E2; [by simplify_eq|].
    apply Nat.ltb_ge in E1. apply Nat.leb_gt in E2.
    destruct (j2lenget_bound blo bhi (i - alo) prev j Hprev E1) as [Hk1 Hk2].
    eapply IH; [| |exact Hrun].
    + intros j0 v Hv. destruct (decide (j = j0)) as [->|Hne].
      * rewrite lookup_insert_eq in Hv. simplify_eq. lia.
      * rewrite lookup_insert_ne in Hv by done. by apply Hnew.
    + destruct (m_size best <? j2lenget prev j + 1); [|done].
      unfold best_ok; simpl. lia.
Qed.

Lemma rows_loop_ok alo blo bhi n i prev best :
  alo ≤ i →
  row_ok blo bhi (i - alo) prev →
  best_ok alo i blo bhi best →
  best_ok alo (i + n) blo bhi (rows_loop a b blo bhi (seq i n) prev best).
Proof.
  revert i prev best.
  induction n as [|n IH]; intros i prev best Hi Hprev Hbest; simpl.
  - by rewrite Nat.add_0_r.
  - destruct (row_loop _ blo bhi i prev ∅ best) as [new best'] eqn:E.
    apply (row_loop_ok _ alo) in E as [Hnew Hbest']; auto.
    + replace (i + S n) with (S i + n) by lia.
      apply IH; [lia| |done].
      by replace (S i - alo) with (S (i - alo)) by lia.
    + apply row_ok_empty.
    + eapply best_ok_weaken; [done|lia].
Qed.

Lemma extend_left_ok alo ahi blo bhi p i j k :
  best_ok alo ahi blo bhi (mkMatch i j k) →
  best_ok alo ahi blo bhi (extend_left a b alo blo p i j k).
Proof.
  revert j k. induction i as [|i IH]; intros j k H; simpl; [done|].
  destruct j as [|j]; [done|].
  destruct (_ && _) eqn:E; [|done].
  rewrite !andb_true_iff in E. destruct E as [[[E1 E2] _] _].
  apply Nat.ltb_lt in E1, E2.
  apply IH. unfold best_ok in *; simpl in *. lia.
Qed.

Lemma extend_right_ok fuel alo ahi blo bhi p i j k :
  best_ok alo ahi blo bhi (mkMatch i j k) →
  best_ok alo ahi blo bhi
    (mkMatch i j (extend_right fuel a b ahi bhi p i j k)).
Proof.
  revert k. induction fuel as [|fuel IH]; intros k H; simpl; [done|].
  destruct (_ && _) eqn:E; [|done].
  rewrite !andb_true_iff in E. destruct E as [[[E1 E2] _] _].
  apply Nat.ltb_lt in E1, E2.
  apply IH. unfold best_ok in *; simpl in *. lia.
Qed.

(** The fuel [ahi - (besti + bestsize)] never cuts the loop short: more
    fuel gives the same result. *)
Lemma extend_right_fuel fuel extra ahi bhi p i j k :
  ahi - (i + k) ≤ fuel →
  extend_right (fuel + extra) a b ahi bhi p i j k
  = extend_right fuel a b ahi bhi p i j k.
Proof.
  revert k. induction fuel as [|fuel IH]; intros k H; simpl.
  - destruct extra as [|extra]; simpl; [done|].
    destruct (i + k <? ahi) eqn:E; [|done].
    apply Nat.ltb_lt in E. lia.
  - destruct (_ && _) eqn:E; [|done].
    apply IH.
    rewrite !andb_true_iff in E. destruct E as [[[E1 _] _] _].
    apply Nat.ltb_lt in E1. lia.
Qed.

Lemma extend_ok alo ahi blo bhi p m :
  best_ok alo ahi blo bhi m →
  best_ok alo ahi blo bhi (extend a b alo ahi blo bhi p m).
Proof.
  intros H. unfold extend.
  pose proof (extend_left_ok alo ahi blo bhi p (m_a m) (m_b m) (m_size m)) as HL.
  destruct m as [i j k]; simpl in *. specialize (HL H).
  destruct (extend_left a b alo blo p i j k) as [i' j' k']; simpl.
  by apply extend_right_ok.
Qed.

Lemma find_longest_match_ok alo ahi blo bhi :
  alo ≤ ahi → blo ≤ bhi →
  best_ok alo ahi blo bhi (find_longest_match a b alo ahi blo bhi).
Proof.
  intros Ha Hb. unfold find_longest_match.
  do 2 apply extend_ok.
  replace ahi with (alo + (ahi - alo)) at 1 by lia.
  apply rows_loop_ok; [done| |].
  - apply row_ok_empty.
  - unfold best_ok; simpl. lia.
Qed.

End DifflibBounds.

Section DifflibBlocks.
Import Difflib.

Variables a b : list ascii.

Lemma matches_total_snoc l x :
  matches_total (l ++ [x]) = matches_total l + m_size x.
Proof. induction l as [|y l IH]; simpl; lia. Qed.

Lemma matches_total_app l1 l2 :
  matches_total (l1 ++ l2) = matches_total l1 + matches_total l2.
Proof. induction l1 as [|y l IH]; simpl; lia. Qed.

Lemma matches_total_perm l1 l2 :
  l1 ≡ₚ l2 → matches_total l1 = matches_total l2.
Proof. induction 1; simpl; lia. Qed.

Lemma blocks_loop_step fuel r q ms :
  blocks_loop (S fuel) a b (r :: q) ms
  = let x := find_longest_match a b (alo r) (ahi r) (blo r) (bhi r) in
    if m_size x =? 0 then blocks_loop fuel a b q ms
    else blocks_loop fuel a b (next_queue r x q) (ms ++ [x]).
Proof.
  cbn [blocks_loop]. cbv zeta.
  by destruct (find_longest_match a b (alo r) (ahi r) (blo r) (bhi r)).
Qed.

(** One iteration of the worklist: what is pushed fits in what was popped. *)
Lemma step_regions r q :
  region_ok r → Forall region_ok q →
  let x := find_longest_match a b (alo r) (ahi r) (blo r) (bhi r) in
  Forall region_ok (next_queue r x q) ∧
  m_size x + a_room (next_queue r x q) ≤ a_room (r :: q) ∧
  m_size x + b_room (next_queue r x q) ≤ b_room (r :: q) ∧
  (m_size x ≠ 0 → cost (next_queue r x q) < cost (r :: q)).
Proof.
  intros [Hra Hrb] Hq x.
  pose proof (find_longest_match_ok a b _ _ _ _ Hra Hrb) as (H1 & H2 & H3 & H4).
  fold x in H1, H2, H3, H4. clearbody x. unfold next_queue.
  destruct (_ && _) eqn:E1; destruct (_ && _) eqn:E2 in |- *;
    rewrite ?andb_true_iff, ?Nat.ltb_lt in *;
    (split; [repeat (apply Forall_cons; split); try done;
               unfold region_ok; simpl; lia|]);
    simpl; repeat split; try intros ?; lia.
Qed.

Lemma blocks_loop_room fuel q ms :
  Forall region_ok q →
  matches_total (blocks_loop fuel a b q ms) ≤ matches_total ms + a_room q ∧
  matches_total (blocks_loop fuel a b q ms) ≤ matches_total ms + b_room q.
Proof.
  revert q ms. induction fuel as [|fuel IH]; intros q ms Hq.
  { destruct q; simpl; lia. }
  destruct q as [|r q]; [simpl; lia|].
  rewrite blocks_loop_step.
  apply Forall_cons in Hq as [Hr Hq].
  destruct (step_regions r q Hr Hq) as (Hq2 & Ha & Hb & _).
  cbv zeta in *.
  set (x := find_longest_match a b (alo r) (ahi r) (blo r) (bhi r)) in *.
  clearbody x.
  destruct (m_size x =? 0) eqn:Ek.
  - destruct (IH q ms Hq). simpl. lia.
  - destruct (IH _ (ms ++ [x]) Hq2) as [IHa IHb].
    rewrite matches_total_snoc in IHa, IHb. simpl in *. lia.
Qed.

(** The fuel [2 * len(a) + 1] is never exhausted: the loop ends because
    the queue is empty, and more fuel gives the same blocks. *)
Lemma blocks_loop_fuel fuel extra q ms :
  Forall region_ok q → cost q ≤ fuel →
  blocks_loop (fuel + extra) a b q ms = blocks_loop fuel a b q ms.
Proof.
  revert q ms. induction fuel as [|fuel IH]; intros q ms Hq Hc.
  { destruct q as [|r q]; [by destruct extra|simpl in Hc; lia]. }
  destruct q as [|r q]; [done|].
  replace (S fuel + extra) with (S (fuel + extra)) by lia.
  rewrite !blocks_loop_step.
  apply Forall_cons in Hq as [Hr Hq].
  destruct (step_regions r q Hr Hq) as (Hq2 & _ & _ & Hcost).
  cbv zeta in *.
  set (x := find_longest_match a b (alo r) (ahi r) (blo r) (bhi r)) in *.
  clearbody x.
  destruct (m_size x =? 0) eqn:Ek.
  - apply IH; [done|]. simpl in Hc. lia.
  - apply Nat.eqb_neq in Ek. specialize (Hcost Ek).
    apply IH; [done|]. lia.
Qed.

Lemma collapse_total l i1 j1 k1 acc :
  matches_total (collapse l i1 j1 k1 acc)
  = matches_total acc + k1 + matches_total l.
Proof.
  revert i1 j1 k1 acc.
  induction l as [|[i2 j2 k2] l IH]; intros i1 j1 k1 acc; simpl.
  - destruct (k1 =? 0) eqn:E.
    + apply Nat.eqb_eq in E. lia.
    + rewrite matches_total_snoc. simpl. lia.
  - destruct (_ && _).
    + rewrite IH. lia.
    + rewrite IH. destruct (k1 =? 0) eqn:E.
      * apply Nat.eqb_eq in E. lia.
      * rewrite matches_total_snoc. simpl. lia.
Qed.

(** Sorting, collapsing adjacent blocks and the sentinel leave the number
    of matched characters unchanged. *)
Lemma get_matching_blocks_total :
  matches_total (get_matching_blocks a b)
  = matches_total
      (blocks_loop (2 * length a + 1) a b
         [mkRegion 0 (length a) 0 (length b)] []).
Proof.
  unfold get_matching_blocks.
  rewrite matches_total_app, collapse_total. simpl.
  rewrite (matches_total_perm _ _ (merge_sort_Permutation _ _)). lia.
Qed.

Lemma matches_total_bound :
  matches_total (get_matching_blocks a b) ≤ length a ∧
  matches_total (get_matching_blocks a b) ≤ length b.
Proof.
  rewrite get_matching_blocks_total.
  match goal with |- context [blocks_loop ?f a b ?q ?m] =>
    destruct (blocks_loop_room f q m) as [Ha Hb] end.
  { apply Forall_cons; split; [|done]. unfold region_ok; simpl; lia. }
  simpl in *. lia.
Qed.

End DifflibBlocks.

Lemma calculate_ratio_range M L :
  2 * M ≤ L → (0 <= Difflib.calculate_ratio M L <= 1)%Q.
Proof.
  intros H. unfold Difflib.calculate_ratio.
  destruct (L =? 0) eqn:E; [split; discriminate|].
  apply Nat.eqb_neq in E.
  unfold Qle; simpl Qnum; simpl Qden.
  rewrite <- (positive_nat_Z (Pos.of_nat L)), Nat2Pos.id by done.
  split; lia.
Qed.

Lemma calculate_ratio_full M : (Difflib.calculate_ratio M (M + M) == 1)%Q.
Proof.
  unfold Difflib.calculate_ratio.
  destruct (M + M =? 0) eqn:E; [reflexivity|].
  apply Nat.eqb_neq in E.
  unfold Qeq; simpl Qnum; simpl Qden.
  rewrite <- (positive_nat_Z (Pos.of_nat (M + M))), Nat2Pos.id by done.
  lia.
Qed.

Lemma ratio_range a b : (0 <= Difflib.ratio a b <= 1)%Q.
Proof.
  unfold Difflib.ratio. apply calculate_ratio_range.
  destruct (matches_total_bound a b). lia.
Qed.

Section Positions.
Import Difflib.

Lemma elem_of_positions c b off j :
  j ∈ positions c b off ↔ ∃ k, j = off + k ∧ b !! k = Some c.
Proof.
  revert off. induction b as [|x b' IH]; intros off; simpl.
  - split; [by intros ?%elem_of_nil|by intros (k & _ & ?)].
  - case_bool_decide as Hx.
    + rewrite elem_of_cons, IH. split.
      * intros [->|(k & -> & Hk)].
        -- exists 0. split; [lia|by subst].
        -- exists (S k). split; [lia|done].
      * intros ([|k] & -> & Hk); [left; lia|].
        right. exists k. split; [lia|done].
    + rewrite IH. split.
      * intros (k & -> & Hk). exists (S k). split; [lia|done].
      * intros ([|k] & -> & Hk); [simpl in Hk; congruence|].
        exists k. split; [lia|done].
Qed.

Lemma positions_sorted c b off : StronglySorted lt (positions c b off).
Proof.
  revert off. induction b as [|x b' IH]; intros off; simpl; [constructor|].
  case_bool_decide; [|apply IH].
  constructor; [apply IH|].
  apply Forall_forall. intros j (k & -> & _)%elem_of_positions. lia.
Qed.
End Positions.

(** ** A sequence matched against itself *)

Section DifflibSelf.
Import Difflib.

Variable a : list ascii.

Local Abbreviation diag := (diag_of a).
Local Abbreviation dprev := (dprev_of a).
Local Abbreviation row_diag := (row_diag_of a).

Lemma diag_indexed j c :
  a !! j = Some c → popular a c = false → diag j = S (dprev j).
Proof. intros H1 H2. destruct j; simpl; by rewrite H1, H2. Qed.

Lemma j2lenget_diag cap m j :
  row_diag cap m → j2lenget m j ≤ cap ∧ j2lenget m j ≤ dprev j.
Proof.
  intros Hm. destruct j as [|j']; simpl; [lia|].
  destruct (m !! j') as [v|] eqn:E; simpl; [|lia]. by apply Hm.
Qed.

Lemma row_loop_diag i c js prev new best new' best' :
  a !! i = Some c → popular a c = false →
  StronglySorted lt js →
  (∀ j, j ∈ js → a !! j = Some c) →
  row_diag (dprev i) prev →
  j2lenget prev i = dprev i →
  row_diag (diag i) new →
  m_a best = m_b best →
  (∀ j', j' < i → diag j' ≤ m_size best) →
  (i ∉ js → diag i ≤ m_size best ∧ new !! i = Some (diag i)) →
  row_loop js 0 (length a) i prev new best = (new', best') →
  m_a best' = m_b best' ∧
  (∀ j', j' < S i → diag j' ≤ m_size best') ∧
  row_diag (diag i) new' ∧
  new' !! i = Some (diag i).
Proof.
  intros Hi Hc Hsort Hjs Hprev Hprevi. revert new best Hsort Hjs.
  assert (Hlt : i < length a) by (by eapply lookup_lt_Some).
  induction js as [|j js IH];
    intros new best Hsort Hjs Hnew Hb1 Hb2 Hb3 Hrun; simpl in Hrun.
  { simplify_eq. destruct (Hb3 (not_elem_of_nil i)) as [? ?].
    split_and!; try done.
    intros j' Hj'. destruct (decide (j' = i)) as [->|]; [done|].
    apply Hb2. lia. }
  apply StronglySorted_inv in Hsort as [Hsort Hhd].
  rewrite Forall_forall in Hhd.
  destruct (length a <=? j) eqn:E.
  { apply Nat.leb_le in E. simplify_eq.
    assert (Hni : i ∉ j :: js).
    { intros [->|Hin]%elem_of_cons; [lia|]. apply Hhd in Hin. lia. }
    destruct (Hb3 Hni) as [? ?].
    split_and!; try done.
    intros j' Hj'. destruct (decide (j' = i)) as [->|]; [done|].
    apply Hb2. lia. }
  assert (Hj : a !! j = Some c) by (apply Hjs; left).
  pose proof (diag_indexed _ _ Hi Hc) as Hdi.
  pose proof (diag_indexed _ _ Hj Hc) as Hdj.
  destruct (j2lenget_diag _ _ j Hprev) as [Hk1 Hk2].
  assert (Hnew' : row_diag (diag i) (<[j:=j2lenget prev j + 1]> new)).
  { intros j0 v Hv. destruct (decide (j = j0)) as [->|Hne].
    - rewrite lookup_insert_eq in Hv. simplify_eq. lia.
    - rewrite lookup_insert_ne in Hv by done. by apply Hnew. }
  destruct (decide (j = i)) as [->|Hne].
  - (* the diagonal entry *)
    eapply IH; [done|by intros; apply Hjs; right|exact Hnew'| | | |exact Hrun].
    + destruct (_ <? _); [simpl; lia|done].
    + intros j' Hj'. specialize (Hb2 j' Hj').
      destruct (_ <? _) eqn:E2; [|done].
      apply Nat.ltb_lt in E2. simpl. lia.
    + intros _. rewrite lookup_insert_eq.
      split; [|f_equal; lia].
      destruct (m_size best <? j2lenget prev i + 1) eqn:E2; [simpl; lia|].
      apply Nat.ltb_ge in E2. lia.
  - (* off the diagonal: never better than what is recorded *)
    assert (Hsmall : j2lenget prev j + 1 ≤ m_size best).
    { destruct (decide (j < i)) as [Hji|Hji].
      - specialize (Hb2 j Hji). lia.
      - assert (Hni : i ∉ j :: js).
        { intros [->|Hin]%elem_of_cons; [done|]. apply Hhd in Hin. lia. }
        destruct (Hb3 Hni) as [? _]. lia. }
    apply Nat.ltb_ge in Hsmall. rewrite Hsmall in Hrun.
    eapply IH; [done|by intros; apply Hjs; right|exact Hnew'|done|done| |exact Hrun].
    intros Hni. rewrite lookup_insert_ne by done. apply Hb3.
    intros [->|Hin]%elem_of_cons; done.
Qed.

Lemma rows_loop_diag n i prev best :
  i + n = length a →
  row_diag (dprev i) prev →
  j2lenget prev i = dprev i →
  m_a best = m_b best →
  (∀ j', j' < i → diag j' ≤ m_size best) →
  let r := rows_loop a a 0 (length a) (seq i n) prev best in
  m_a r = m_b r.
Proof.
  revert i prev best.
  induction n as [|n IH]; intros i prev best Hn Hprev Hprevi Hb1 Hb2;
    simpl; [done|].
  destruct (a !! i) as [c|] eqn:Hi;
    [|apply lookup_ge_None in Hi; lia].
  destruct (row_loop (b2j a c) 0 (length a) i prev ∅ best)
    as [new best'] eqn:Hrun.
  unfold b2j in Hrun. destruct (popular a c) eqn:Hc.
  - (* nothing indexed for a popular element: the row is empty *)
    simpl in Hrun. simplify_eq.
    assert (Hd : diag i = 0) by (destruct i; simpl; by rewrite Hi, Hc).
    apply IH; [lia| | |done|].
    + intros j v Hv. by rewrite lookup_empty in Hv.
    + simpl. by rewrite lookup_empty, Hd.
    + intros j' Hj'. destruct (decide (j' = i)) as [->|]; [lia|].
      apply Hb2. lia.
  - eapply row_loop_diag in Hrun as (H1 & H2 & H3 & H4); eauto.
    + apply IH; [lia|done| |done|done].
      simpl. by rewrite H4.
    + apply positions_sorted.
    + intros j (k & -> & Hk)%elem_of_positions. done.
    + intros j v Hv. by rewrite lookup_empty in Hv.
    + intros Hni. exfalso. apply Hni. apply elem_of_positions.
      by exists i.
Qed.

Lemma extend_left_self i k :
  i ≤ length a →
  extend_left a a 0 0 (λ c, negb (isbjunk c)) i i k = mkMatch 0 0 (k + i).
Proof.
  revert k. induction i as [|i IH]; intros k Hi; simpl.
  { f_equal. lia. }
  destruct (a !! i) as [c|] eqn:E; [|apply lookup_ge_None in E; lia].
  simpl. rewrite bool_decide_eq_true_2 by done. simpl.
  rewrite IH by lia. f_equal. lia.
Qed.

Lemma extend_right_self fuel k :
  k ≤ length a → length a - k ≤ fuel →
  extend_right fuel a a (length a) (length a)
    (λ c, negb (isbjunk c)) 0 0 k = length a.
Proof.
  revert k. induction fuel as [|fuel IH]; intros k Hk Hf; simpl; [lia|].
  destruct (k <? length a) eqn:E; simpl.
  - apply Nat.ltb_lt in E.
    destruct (a !! k) as [c|] eqn:E2; [|apply lookup_ge_None in E2; lia].
    simpl. rewrite bool_decide_eq_true_2 by done.
    apply IH; lia.
  - apply Nat.ltb_ge in E. lia.
Qed.

Lemma extend_right_done fuel p k :
  length a ≤ k →
  extend_right fuel a a (length a) (length a) p 0 0 k = k.
Proof.
  intros Hk. destruct fuel as [|fuel]; simpl; [done|].
  destruct (k <? length a) eqn:E; [|done].
  apply Nat.ltb_lt in E. lia.
Qed.

(** Matching a sequence against itself finds the whole of it at once. *)
Lemma find_longest_match_self :
  find_longest_match a a 0 (length a) 0 (length a)
  = mkMatch 0 0 (length a).
Proof.
  unfold find_longest_match.
  set (r := rows_loop a a 0 (length a) (seq 0 (length a - 0)) ∅
              (mkMatch 0 0 0)).
  assert (Hd : m_a r = m_b r).
  { subst r. apply rows_loop_diag; try done; lia. }
  assert (Hok : best_ok 0 (length a) 0 (length a) r).
  { subst r. replace (length a) with (0 + (length a - 0)) at 1 by lia.
    apply rows_loop_ok; [done| |unfold best_ok; simpl; lia].
    intros j v Hv. by rewrite lookup_empty in Hv. }
  clearbody r. destruct r as [i j k]. simpl in Hd. subst j.
  destruct Hok as (_ & Hik & _). simpl in Hik.
  unfold extend at 2. simpl.
  rewrite extend_left_self by lia. simpl.
  rewrite extend_right_self by lia.
  unfold extend. simpl. by rewrite extend_right_done.
Qed.

Lemma blocks_loop_nil fuel b ms : blocks_loop fuel a b [] ms = ms.
Proof. by destruct fuel. Qed.

Lemma get_matching_blocks_self :
  matches_total (get_matching_blocks a a) = length a.
Proof.
  rewrite get_matching_blocks_total.
  replace (2 * length a + 1) with (S (2 * length a)) by lia.
  rewrite blocks_loop_step. cbn [alo ahi blo bhi].
  rewrite find_longest_match_self. cbv zeta. cbn [m_size].
  destruct (length a =? 0) eqn:E.
  - apply Nat.eqb_eq in E. rewrite blocks_loop_nil. simpl. lia.
  - unfold next_queue. cbn [alo ahi blo bhi m_a m_b m_size].
    rewrite !Nat.ltb_irrefl. simpl andb. cbv iota.
    rewrite blocks_loop_nil. simpl. lia.
Qed.

Lemma ratio_self : (ratio a a == 1)%Q.
Proof.
  unfold ratio. rewrite get_matching_blocks_self.
  apply calculate_ratio_full.
Qed.

End DifflibSelf.

(** ** Matching blocks are common runs *)

Section DifflibRuns.
Import Difflib.

Variables a b : list ascii.

Local Abbreviation common_run := (block_matches a b).

Local Abbreviation row_common := (row_runs a b).

Local Abbreviation prev_common := (prev_runs a b).

Lemma row_runs_prev i m : row_common i m → prev_common (S i) m.
Proof.
  intros H j v Hv. destruct (H j v Hv) as (H1 & H2 & H3).
  split; [lia|]. split; [lia|]. intros t Ht.
  replace (S i - 1 - t) with (i - t) by lia. by apply H3.
Qed.

Lemma run_step i j c prev :
  a !! i = Some c → b !! j = Some c → prev_common i prev →
  j2lenget prev j + 1 ≤ S i ∧ j2lenget prev j + 1 ≤ S j ∧
  ∀ t, t < j2lenget prev j + 1 →
    is_Some (a !! (i - t)) ∧ a !! (i - t) = b !! (j - t).
Proof.
  intros Ha Hb Hprev.
  assert (Hzero : ∀ t, t < 1 →
            is_Some (a !! (i - t)) ∧ a !! (i - t) = b !! (j - t)).
  { intros t Ht. replace t with 0 by lia. rewrite !Nat.sub_0_r.
    rewrite Ha, Hb. eauto. }
  destruct j as [|j']; [simpl; split; [lia|split; [lia|exact Hzero]]|].
  cbn [j2lenget]. destruct (prev !! j') as [v|] eqn:E;
    [|simpl; split; [lia|split; [lia|exact Hzero]]].
  simpl. destruct (Hprev j' v E) as (H1 & H2 & H3).
  split; [lia|]. split; [lia|]. intros [|t] Ht; [apply Hzero; lia|].
  replace (i - S t) with (i - 1 - t) by lia.
  replace (S j' - S t) with (j' - t) by lia. apply H3. lia.
Qed.

Lemma row_loop_runs js c blo bhi i prev new best new' best' :
  a !! i = Some c →
  Forall (λ j, b !! j = Some c) js →
  prev_common i prev → row_common i new → common_run best →
  row_loop js blo bhi i prev new best = (new', best') →
  row_common i new' ∧ common_run best'.
Proof.
  intros Ha Hjs Hprev. revert new best.
  induction Hjs as [|j js Hj Hjs IH]; intros new best Hnew Hbest Hrun;
    simpl in Hrun.
  - by simplify_eq.
  - destruct (j <? blo); [by eapply IH|].
    destruct (bhi <=? j); [by simplify_eq|].
    destruct (run_step i j c prev Ha Hj Hprev) as (Hk1 & Hk2 & Hk3).
    eapply IH; [| |exact Hrun].
    + intros j0 v Hv. destruct (decide (j = j0)) as [->|Hne].
      * rewrite lookup_insert_eq in Hv. by simplify_eq.
      * rewrite lookup_insert_ne in Hv by done. by apply Hnew.
    + destruct (m_size best <? j2lenget prev j + 1); [|done].
      intros t Ht. cbn [m_a m_b m_size] in *.
      replace (i + 1 - (j2lenget prev j + 1) + t)
        with (i - (j2lenget prev j - t)) by lia.
      replace (j + 1 - (j2lenget prev j + 1) + t)
        with (j - (j2lenget prev j - t)) by lia.
      apply Hk3. lia.
Qed.

Lemma b2j_elem c j : j ∈ b2j b c → b !! j = Some c.
Proof.
  unfold b2j. destruct (popular b c); [by intros ?%elem_of_nil|].
  intros (k & -> & Hk)%elem_of_positions. exact Hk.
Qed.

Lemma rows_loop_runs blo bhi n i prev best :
  prev_common i prev → common_run best →
  common_run (rows_loop a b blo bhi (seq i n) prev best).
Proof.
  revert i prev best.
  induction n as [|n IH]; intros i prev best Hprev Hbest; [done|].
  cbn [seq rows_loop].
  destruct (a !! i) as [c|] eqn:Ha.
  - destruct (row_loop (b2j b c) blo bhi i prev ∅ best)
      as [new' best'] eqn:Hrun.
    eapply row_loop_runs in Hrun as [Hnew' Hbest']; [|exact Ha| |done| |done].
    + apply IH; [by apply row_runs_prev|done].
    + apply Forall_forall. intros j. apply b2j_elem.
    + intros j v Hv. by rewrite lookup_empty in Hv.
  - simpl. apply IH; [|done]. intros j v Hv. by rewrite lookup_empty in Hv.
Qed.

Lemma extend_left_runs alo blo p besti bestj bestsize :
  common_run (mkMatch besti bestj bestsize) →
  common_run (extend_left a b alo blo p besti bestj bestsize).
Proof.
  revert bestj bestsize.
  induction besti as [|i' IH]; intros bestj bestsize Hm; [done|].
  destruct bestj as [|j']; [done|]. cbn [extend_left].
  destruct (_ && _) eqn:E; [|done].
  rewrite !andb_true_iff in E. destruct E as [[_ Hp] He].
  apply bool_decide_eq_true in He.
  apply IH. intros [|t] Ht; cbn [m_a m_b m_size] in *.
  - rewrite !Nat.add_0_r. split; [|done]. rewrite He.
    destruct (b !! j'); [eauto|done].
  - replace (i' + S t) with (S i' + t) by lia.
    replace (j' + S t) with (S j' + t) by lia. apply (Hm t). simpl. lia.
Qed.

Lemma extend_right_runs fuel ahi bhi p besti bestj bestsize :
  common_run (mkMatch besti bestj bestsize) →
  common_run
    (mkMatch besti bestj
       (extend_right fuel a b ahi bhi p besti bestj bestsize)).
Proof.
  revert bestsize.
  induction fuel as [|fuel IH]; intros bestsize Hm; [done|].
  cbn [extend_right]. destruct (_ && _) eqn:E; [|done].
  rewrite !andb_true_iff in E. destruct E as [[_ Hp] He].
  apply bool_decide_eq_true in He.
  apply IH. intros t Ht. cbn [m_a m_b m_size] in *.
  destruct (decide (t = bestsize)) as [->|Hne]; [|apply (Hm t); simpl; lia].
  split; [|done]. rewrite He. destruct (b !! (bestj + bestsize)); [eauto|done].
Qed.

Lemma extend_runs alo ahi blo bhi p m :
  common_run m → common_run (extend a b alo ahi blo bhi p m).
Proof.
  intros Hm. unfold extend. destruct m as [i j k].
  pose proof (extend_left_runs alo blo p i j k Hm) as H1.
  cbn [m_a m_b m_size].
  destruct (extend_left a b alo blo p i j k) as [i1 j1 k1].
  cbn [m_a m_b m_size]. by apply extend_right_runs.
Qed.

Lemma find_longest_match_runs alo ahi blo bhi :
  common_run (find_longest_match a b alo ahi blo bhi).
Proof.
  unfold find_longest_match. do 2 apply extend_runs.
  apply rows_loop_runs.
  - intros j v Hv. by rewrite lookup_empty in Hv.
  - intros t Ht. simpl in Ht. lia.
Qed.

Lemma blocks_loop_runs fuel queue ms :
  Forall common_run ms →
  Forall common_run (blocks_loop fuel a b queue ms).
Proof.
  revert queue ms.
  induction fuel as [|fuel IH]; intros queue ms Hms; [done|].
  destruct queue as [|r q]; [done|]. rewrite blocks_loop_step. cbv zeta.
  destruct (_ =? 0); [by apply IH|].
  apply IH. apply Forall_app. split; [done|].
  apply Forall_cons. split; [apply find_longest_match_runs|done].
Qed.

Lemma collapse_runs blocks i1 j1 k1 acc :
  Forall common_run blocks → common_run (mkMatch i1 j1 k1) →
  Forall common_run acc →
  Forall common_run (collapse blocks i1 j1 k1 acc).
Proof.
  intros Hblocks. revert i1 j1 k1 acc.
  induction Hblocks as [|[i2 j2 k2] rest H2 Hrest IH];
    intros i1 j1 k1 acc H1 Hacc; cbn [collapse].
  - destruct (k1 =? 0); [done|].
    apply Forall_app. split; [done|]. by apply Forall_cons.
  - destruct (_ && _) eqn:E.
    + rewrite andb_true_iff, !Nat.eqb_eq in E. destruct E as [<- <-].
      apply IH; [|done]. intros t Ht. cbn [m_a m_b m_size] in *.
      destruct (decide (t < k1)) as [Hlt|Hge]; [apply (H1 t); simpl; lia|].
      replace (i1 + t) with (i1 + k1 + (t - k1)) by lia.
      replace (j1 + t) with (j1 + k1 + (t - k1)) by lia.
      apply (H2 (t - k1)). simpl. lia.
    + apply IH; [done|]. destruct (k1 =? 0); [done|].
      apply Forall_app. split; [done|]. by apply Forall_cons.
Qed.

(** Every block of [get_matching_blocks] is a common run of the two
    strings. *)
Lemma get_matching_blocks_runs :
  Forall common_run (get_matching_blocks a b).
Proof.
  unfold get_matching_blocks. apply Forall_app. split.
  - apply collapse_runs; [|by intros t Ht; simpl in Ht; lia|done].
    rewrite merge_sort_Permutation. by apply blocks_loop_runs.
  - apply Forall_cons. split; [|done]. intros t Ht. simpl in Ht. lia.
Qed.

End DifflibRuns.

(** ** Strings: dots, bars and decimal numbers *)

Lemma all_chars_app p s1 s2 :
  all_chars p (s1 +:+ s2) = all_chars p s1 && all_chars p s2.
Proof.
  induction s1 as [|c s1 IH]; [done|].
  change (String c s1 +:+ s2) with (String c (s1 +:+ s2)).
  simpl. by rewrite IH, andb_assoc.
Qed.

Lemma pretty_N_char_digit x : is_digit (pretty_N_char x) = true.
Proof. unfold pretty_N_char. by repeat case_match. Qed.

Lemma pretty_N_go_digits x s :
  all_chars is_digit s = true → all_chars is_digit (pretty_N_go x s) = true.
Proof.
  revert s. induction (N.lt_wf_0 x) as [x _ IH]; intros s Hs.
  assert (x = 0 ∨ 0 < x)%N as [->|?] by lia.
  - by rewrite pretty_N_go_0.
  - rewrite pretty_N_go_step by done. apply IH.
    { by apply N.div_lt. }
    simpl. by rewrite pretty_N_char_digit.
Qed.

Lemma pretty_nat_digits (n : nat) : all_chars is_digit (pretty n) = true.
Proof.
  unfold pretty, pretty_nat, pretty, pretty_N.
  case_decide; [done|]. by apply pretty_N_go_digits.
Qed.

Lemma rfind_none_all c s :
  all_chars (λ x, negb (bool_decide (x = c))) s = true → Str.rfind c s = None.
Proof.
  induction s as [|a s IH]; [done|]. simpl.
  intros [Ha Hs]%andb_prop. rewrite (IH Hs).
  apply negb_true_iff in Ha. by rewrite Ha.
Qed.

Lemma all_chars_impl (p q : ascii → bool) s :
  (∀ c, p c = true → q c = true) →
  all_chars p s = true → all_chars q s = true.
Proof.
  intros Hpq. induction s as [|a s IH]; [done|]. simpl.
  intros [Ha Hs]%andb_prop. by rewrite (Hpq _ Ha), (IH Hs).
Qed.

Lemma rfind_pretty (c : ascii) (n : nat) :
  is_digit c = false → Str.rfind c (pretty n) = None.
Proof.
  intros Hc. apply rfind_none_all.
  eapply all_chars_impl; [|apply pretty_nat_digits].
  intros x Hx. apply negb_true_iff, bool_decide_eq_false.
  intros ->. congruence.
Qed.

(** [s.rfind(c)] in [x + c + d] when [c] does not occur in [d]. *)
Lemma rfind_app_sep c x d :
  Str.rfind c d = None →
  Str.rfind c (x +:+ String c d) = Some (String.length x).
Proof.
  intros Hd. induction x as [|a x IH].
  - change ("" +:+ String c d) with (String c d). simpl.
    by rewrite Hd, bool_decide_eq_true_2.
  - change (String a x +:+ String c d) with (String a (x +:+ String c d)).
    simpl. by rewrite IH.
Qed.

Lemma drop_app_length x d : Str.drop (String.length x) (x +:+ d) = d.
Proof.
  induction x as [|a x IH]; [by destruct d|].
  change (String a x +:+ d) with (String a (x +:+ d)). done.
Qed.

Lemma take_app_length x d : Str.take (String.length x) (x +:+ d) = x.
Proof.
  induction x as [|a x IH]; [by destruct d|].
  change (String a x +:+ d) with (String a (x +:+ d)). simpl. by rewrite IH.
Qed.

Lemma string_app_assoc (s1 s2 s3 : string) :
  (s1 +:+ s2) +:+ s3 = s1 +:+ (s2 +:+ s3).
Proof.
  induction s1 as [|a s1 IH]; [done|].
  change (String a s1 +:+ s2) with (String a (s1 +:+ s2)).
  change (String a (s1 +:+ s2) +:+ s3) with (String a ((s1 +:+ s2) +:+ s3)).
  by rewrite IH.
Qed.

Lemma string_app_length (s1 s2 : string) :
  String.length (s1 +:+ s2) = String.length s1 + String.length s2.
Proof.
  induction s1 as [|a s1 IH]; [done|].
  change (String a s1 +:+ s2) with (String a (s1 +:+ s2)).
  simpl. by rewrite IH.
Qed.

Lemma after_last_app c x d :
  Str.rfind c d = None → after_last c (x +:+ String c d) = d.
Proof.
  intros Hd. unfold after_last. rewrite rfind_app_sep by done.
  replace (S (String.length x)) with (String.length (x +:+ String c ""))
    by (rewrite string_app_length; simpl; lia).
  replace (x +:+ String c d) with ((x +:+ String c "") +:+ d)
    by (by rewrite string_app_assoc).
  apply drop_app_length.
Qed.

(** The counter is the last component of the key: two keys with different
    counters differ. *)
Lemma group_key_counter folder_path extension size counter :
  after_last "|" (group_key folder_path extension size counter)
  = pretty counter.
Proof.
  assert (group_key folder_path extension size counter
          = (folder_path +:+ "|" +:+ extension +:+ "|" +:+ pretty size)
              +:+ String "|" (pretty counter)) as ->.
  { unfold group_key. by rewrite !string_app_assoc. }
  apply after_last_app. by apply rfind_pretty.
Qed.

Lemma group_key_inj f1 e1 s1 c1 f2 e2 s2 c2 :
  group_key f1 e1 s1 c1 = group_key f2 e2 s2 c2 → c1 = c2.
Proof.
  intros H. apply (f_equal (after_last "|")) in H.
  rewrite !group_key_counter in H. by apply (inj pretty) in H.
Qed.

(** ** The clustering loops against the specification's partition *)

Lemma filter_ext_elem {A} (f g : A → bool) (l : list A) :
  (∀ x, x ∈ l → f x = g x) → List.filter f l = List.filter g l.
Proof.
  intros H. apply List.filter_ext_in. intros x Hx. apply H.
  by apply list_elem_of_In.
Qed.

Lemma filter_none {A} (f : A → bool) (l : list A) :
  (∀ x, x ∈ l → f x = false) → List.filter f l = [].
Proof.
  induction l as [|x l IH]; intros H; [done|]. simpl.
  rewrite H by left. apply IH. intros y Hy. apply H. by right.
Qed.

Lemma map_snd_filter {A B} (g : A * B → bool) (h : B → bool) (l : list (A * B)) :
  map snd (List.filter (λ p, g p && h p.2) l)
  = List.filter h (map snd (List.filter g l)).
Proof.
  induction l as [|[a b] l IH]; [done|]. simpl.
  destruct (g (a, b)); simpl; [|done].
  destruct (h b); simpl; by rewrite IH.
Qed.

Lemma enumerate_from_fst {A} n (l : list A) :
  map fst (enumerate_from n l) = seq n (length l).
Proof.
  revert n. induction l as [|x l IH]; intros n; [done|].
  simpl. by rewrite IH.
Qed.

Lemma enumerate_from_snd {A} n (l : list A) :
  map snd (enumerate_from n l) = l.
Proof.
  revert n. induction l as [|x l IH]; intros n; [done|].
  simpl. by rewrite IH.
Qed.

Lemma enumerate_NoDup {A} (l : list A) : NoDup (map fst (enumerate l)).
Proof. unfold enumerate. rewrite enumerate_from_fst. apply NoDup_seq. Qed.

Lemma NoDup_fst_functional {A B} (l : list (A * B)) x y1 y2 :
  NoDup (map fst l) → (x, y1) ∈ l → (x, y2) ∈ l → y1 = y2.
Proof.
  induction l as [|[a b] l IH]; intros Hnd H1 H2.
  { by apply elem_of_nil in H1. }
  simpl in Hnd. apply NoDup_cons in Hnd as [Hni Hnd].
  apply elem_of_cons in H1 as [H1|H1]; apply elem_of_cons in H2 as [H2|H2].
  - congruence.
  - injection H1 as -> ->. exfalso. apply Hni. change a with (fst (a, y2)).
    by apply (list_elem_of_fmap_2 fst).
  - injection H2 as -> ->. exfalso. apply Hni. change a with (fst (a, y1)).
    by apply (list_elem_of_fmap_2 fst).
  - by apply IH.
Qed.

Lemma inner_loop_spec file1 js processed acc :
  NoDup (map fst js) →
  (inner_loop file1 js processed acc).2
  = acc ++ map snd (List.filter
                      (λ p, bool_decide (p.1 ∉ processed) && similar file1 p.2)
                      js)
  ∧ ∀ x, x ∈ (inner_loop file1 js processed acc).1 ↔
         (x ∈ processed ∨
          ∃ f, ((x, f) ∈ js) ∧ (x ∉ processed) ∧ similar file1 f = true).
Proof.
  revert processed acc.
  induction js as [|[j file2] js IH]; intros processed acc Hnd; simpl.
  { split; [by rewrite app_nil_r|]. intros x. split; [by left|].
    intros [?|(f & Hf & _)]; [done|]. by apply elem_of_nil in Hf. }
  simpl in Hnd. apply NoDup_cons in Hnd as [Hj Hnd].
  case_bool_decide as Hp; simpl.
  - (* already processed *)
    rewrite bool_decide_eq_false_2 by (intros ?; done). simpl.
    destruct (IH processed acc Hnd) as [IH1 IH2]. split; [done|].
    intros x. rewrite IH2. split.
    + intros [?|(f & Hf & ? & ?)]; [by left|].
      right. exists f. split; [by right|done].
    + intros [?|(f & Hf & Hx & ?)]; [by left|].
      apply elem_of_cons in Hf as [Hf|Hf]; [injection Hf as -> ->; done|].
      right. by exists f.
  - rewrite bool_decide_eq_true_2 by done. simpl.
    destruct (similar file1 file2) eqn:Hsim; simpl.
    + (* joins the seed *)
      destruct (IH ({[j]} ∪ processed) (acc ++ [file2]) Hnd) as [IH1 IH2].
      split.
      * rewrite IH1, <- app_assoc. simpl. do 3 f_equal.
        apply filter_ext_elem. intros [x f] Hx. simpl. f_equal.
        apply bool_decide_ext. split.
        -- intros H ?. apply H. set_solver.
        -- intros H [Hxj%elem_of_singleton|?]%elem_of_union; [|done].
           apply Hj. rewrite <- Hxj. change x with (fst (x, f)).
           by apply (list_elem_of_fmap_2 fst).
      * intros x. rewrite IH2. split.
        -- intros [[->%elem_of_singleton|?]%elem_of_union|(f & Hf & Hx & ?)].
           ++ right. exists file2. split; [by left|done].
           ++ by left.
           ++ right. exists f. split; [by right|]. split; [set_solver|done].
        -- intros [?|(f & Hf & Hx & ?)]; [left; set_solver|].
           apply elem_of_cons in Hf as [Hf|Hf].
           ++ injection Hf as -> ->. left. set_solver.
           ++ destruct (decide (x = j)) as [->|Hne]; [left; set_solver|].
              right. exists f. split; [done|]. split; [set_solver|done].
    + (* stays unassigned *)
      destruct (IH processed acc Hnd) as [IH1 IH2]. split; [done|].
      intros x. rewrite IH2. split.
      * intros [?|(f & Hf & ? & ?)]; [by left|].
        right. exists f. split; [by right|done].
      * intros [?|(f & Hf & Hx & Hs)]; [by left|].
        apply elem_of_cons in Hf as [Hf|Hf]; [injection Hf as -> ->; congruence|].
        right. by exists f.
Qed.

Lemma keys_below_mono n m d : keys_below n d → n ≤ m → keys_below m d.
Proof.
  intros H Hnm k v Hk. destruct (H k v Hk) as (f & e & s & c & -> & Hc).
  exists f, e, s, c. split; [done|lia].
Qed.

Lemma dict_set_fresh n folder_path ext size v d :
  keys_below n d →
  dict_set (group_key folder_path ext size (n + 1)) v d
  = d ++ [(group_key folder_path ext size (n + 1), v)].
Proof.
  induction d as [|[k v'] d IH]; intros Hd; [done|]. simpl.
  destruct (decide (k = _)) as [->|Hne].
  - destruct (Hd _ v' ltac:(left)) as (f & e & s & c & Hk & Hc).
    apply group_key_inj in Hk. lia.
  - f_equal. apply IH. intros k0 v0 H0. apply (Hd k0 v0). by right.
Qed.

Lemma keys_below_snoc n folder_path ext size v d :
  keys_below n d →
  keys_below (n + 1) (d ++ [(group_key folder_path ext size (n + 1), v)]).
Proof.
  intros Hd k v0 [H|H]%elem_of_app.
  - destruct (Hd k v0 H) as (f & e & s & c & -> & Hc).
    exists f, e, s, c. split; [done|lia].
  - apply list_elem_of_singleton in H. simplify_eq.
    by exists folder_path, ext, size, (n + 1).
Qed.

Section Emitted.
Context {A : Type} (sim : A → A → bool).

Lemma emitted_clusters_nil : emitted_clusters sim [] = [].
Proof. unfold emitted_clusters. by simp seed_clusters. Qed.

Lemma emitted_clusters_cons seed rest :
  emitted_clusters sim (seed :: rest)
  = (if 1 <? length (seed :: List.filter (sim seed) rest)
     then [seed :: List.filter (sim seed) rest] else [])
    ++ emitted_clusters sim (List.filter (λ x, negb (sim seed x)) rest).
Proof.
  unfold emitted_clusters. simp seed_clusters.
  cbn [List.filter].
  replace (2 <=? length (seed :: List.filter (sim seed) rest))
    with (1 <? length (seed :: List.filter (sim seed) rest)) by done.
  by destruct (1 <? _).
Qed.

(** A group of fewer than two files yields no cluster. *)
Lemma emitted_clusters_short l :
  length l ≤ 1 → emitted_clusters sim l = [].
Proof.
  destruct l as [|x [|y l]]; simpl; intros H; try lia.
  - apply emitted_clusters_nil.
  - rewrite emitted_clusters_cons. simpl. apply emitted_clusters_nil.
Qed.
End Emitted.

Lemma outer_loop_spec folder_path ext size files done todo processed st :
  enumerate files = done ++ todo →
  (∀ p, p ∈ done → p.1 ∈ processed) →
  keys_below (group_counter st) (duplicates st) →
  let r := (outer_loop folder_path ext size files todo processed st).2 in
  dict_values (duplicates r)
  = dict_values (duplicates st)
    ++ map (mkGroup folder_path ext size)
         (emitted_clusters similar (live processed todo))
  ∧ keys_below (group_counter r) (duplicates r).
Proof.
  revert done processed st.
  induction todo as [|[i file1] todo IH]; intros done processed st HE Hdone Hk.
  { simpl. unfold live. simpl. rewrite emitted_clusters_nil. simpl.
    by rewrite app_nil_r. }
  pose proof (enumerate_NoDup files) as Hnd. rewrite HE in Hnd.
  assert (HE' : enumerate files = (done ++ [(i, file1)]) ++ todo)
    by (by rewrite <- app_assoc).
  assert (Hi : ∀ p, p ∈ todo → p.1 ≠ i).
  { intros [x f] Hp Hx. simpl in Hx. subst x.
    rewrite map_app in Hnd. simpl in Hnd.
    apply NoDup_app in Hnd as (_ & _ & Hnd).
    apply NoDup_cons in Hnd as [Hnd _]. apply Hnd.
    change i with (fst (i, f)). by apply (list_elem_of_fmap_2 fst). }
  cbn [outer_loop]. case_bool_decide as Hp.
  - (* [continue] *)
    destruct (IH (done ++ [(i, file1)]) processed st HE') as [IH1 IH2];
      [|done|].
    { intros p [?|Hp'%list_elem_of_singleton]%elem_of_app;
        [by apply Hdone|by subst p]. }
    split; [|done]. rewrite IH1. unfold live. simpl.
    by rewrite bool_decide_eq_false_2 by (intros ?; done).
  - (* a new seed *)
    destruct (inner_loop_spec file1 (enumerate files) ({[i]} ∪ processed)
                [file1] (enumerate_NoDup files)) as [Hsf Hpr].
    destruct (inner_loop file1 (enumerate files) ({[i]} ∪ processed) [file1])
      as [processed' similar_files] eqn:Hin.
    simpl in Hsf, Hpr.
    assert (Hsf' : similar_files
                   = file1 :: List.filter (similar file1) (live processed todo)).
    { rewrite Hsf, HE. simpl. f_equal.
      rewrite List.filter_app. simpl.
      rewrite (filter_none _ done).
      2:{ intros p Hp'. apply andb_false_iff. left.
          apply bool_decide_eq_false. intros H. apply H.
          apply elem_of_union. right. by apply Hdone. }
      rewrite bool_decide_eq_false_2 by (intros H; apply H; set_solver).
      simpl. unfold live. rewrite <- map_snd_filter. f_equal.
      apply filter_ext_elem. intros p Hp'. f_equal.
      apply bool_decide_ext. specialize (Hi p Hp'). set_solver. }
    assert (Hlive : live processed' todo
                    = List.filter (λ x, negb (similar file1 x))
                        (live processed todo)).
    { unfold live. rewrite <- map_snd_filter. f_equal.
      apply filter_ext_elem. intros [x f] Hp'. simpl.
      specialize (Hi _ Hp'). simpl in Hi.
      assert (Hin' : (x, f) ∈ enumerate files).
      { rewrite HE. apply elem_of_app. right. by right. }
      destruct (similar file1 f) eqn:Hs; simpl.
      - rewrite andb_false_r. apply bool_decide_eq_false.
        intros H. apply H, Hpr.
        destruct (decide (x ∈ processed)); [left; set_solver|].
        right. exists f. split; [done|]. split; [set_solver|done].
      - rewrite andb_true_r. apply bool_decide_ext. split.
        + intros H ?. apply H, Hpr. left. set_solver.
        + intros H [?|(f' & Hf' & Hx & Hs')]%Hpr; [set_solver|].
          pose proof (NoDup_fst_functional _ _ _ _ (enumerate_NoDup files)
                        Hin' Hf'). congruence. }
    set (st' := if 1 <? length similar_files
                then mkScan (group_counter st + 1)
                       (dict_set (group_key folder_path ext size
                                    (group_counter st + 1))
                          (mkGroup folder_path ext size similar_files)
                          (duplicates st))
                else st).
    assert (Hst' : dict_values (duplicates st')
                   = dict_values (duplicates st)
                     ++ map (mkGroup folder_path ext size)
                          (if 1 <? length similar_files
                           then [similar_files] else [])
                   ∧ keys_below (group_counter st') (duplicates st')).
    { subst st'. destruct (1 <? length similar_files); simpl.
      - rewrite dict_set_fresh by done. split.
        + unfold dict_values. by rewrite map_app.
        + by apply keys_below_snoc.
      - by rewrite app_nil_r. }
    destruct Hst' as [Hv' Hk'].
    destruct (IH (done ++ [(i, file1)]) processed' st' HE') as [IH1 IH2];
      [|done|].
    { intros p [Hp'|Hp'%list_elem_of_singleton]%elem_of_app; apply Hpr; left.
      - specialize (Hdone p Hp'). set_solver.
      - subst p. set_solver. }
    split; [|done]. rewrite IH1, Hv', Hlive.
    assert (Hl : live processed ((i, file1) :: todo)
                 = file1 :: live processed todo).
    { unfold live. simpl. by rewrite bool_decide_eq_true_2 by done. }
    rewrite Hl, emitted_clusters_cons, <- Hsf', map_app, app_assoc.
    done.
Qed.

Lemma live_empty files : live ∅ (enumerate files) = files.
Proof.
  unfold live. rewrite (filter_ext_elem _ (λ _, true)).
  - unfold enumerate.
    assert (H : ∀ (l : list (nat * FileInfo)),
               List.filter (λ _, true) l = l).
    { induction l as [|x l IHl]; simpl; [done|by rewrite IHl]. }
    rewrite H. apply enumerate_from_snd.
  - intros p _. apply bool_decide_eq_true. set_solver.
Qed.

Lemma groups_loop_spec folder_path g st :
  keys_below (group_counter st) (duplicates st) →
  dict_values (duplicates (groups_loop folder_path g st))
  = dict_values (duplicates st) ++ flat_map (group_clusters folder_path) g.
Proof.
  revert st. induction g as [|[[ext size] files] g IH]; intros st Hk; simpl.
  { by rewrite app_nil_r. }
  destruct (1 <? length files) eqn:Hlen.
  - destruct (outer_loop_spec folder_path ext size files [] (enumerate files)
                ∅ st eq_refl) as [H1 H2]; [by intros p ?%elem_of_nil|done|].
    simpl in H1, H2. rewrite IH by done.
    rewrite H1, live_empty, <- app_assoc. done.
  - rewrite IH by done. unfold group_clusters at 2. simpl.
    rewrite emitted_clusters_short; [done|].
    apply Nat.ltb_ge in Hlen. lia.
Qed.

(** The dictionary returned holds, group after group in the order of
    [size_ext_groups], the seed clusters of two files or more. *)
Lemma find_duplicates_in_folder_spec w folder_path d :
  find_duplicates_in_folder w folder_path = Ok d →
  ∃ g, size_ext_groups w folder_path = Ok g ∧
       dict_values d = flat_map (group_clusters folder_path) g.
Proof.
  unfold find_duplicates_in_folder.
  destruct (size_ext_groups w folder_path) as [g|e]; [|done].
  intros [= <-]. exists g. split; [done|].
  rewrite groups_loop_spec; [done|].
  intros k v Hk. by apply elem_of_nil in Hk.
Qed.

(** ** What the listing loop puts in a group *)

Lemma groups_append_listed w folder_path key x g :
  groups_listed w folder_path g → listed w folder_path key x →
  groups_listed w folder_path (groups_append key x g).
Proof.
  intros Hg Hx. induction g as [|[k l] g IH]; simpl.
  - intros key' fs f [= -> ->]%list_elem_of_singleton
      ->%list_elem_of_singleton. done.
  - destruct (decide (k = key)) as [->|Hne].
    + intros key' fs f [[= -> ->]|Hin]%elem_of_cons Hf.
      * apply elem_of_app in Hf as [Hf|Hf%list_elem_of_singleton];
          [|by subst f].
        apply (Hg key l f); [left|done].
      * apply (Hg key' fs f); [by right|done].
    + intros key' fs f [[= -> ->]|Hin]%elem_of_cons Hf.
      * apply (Hg k l f); [left|done].
      * apply (IH ltac:(intros k0 fs0 f0 H0; apply Hg; by right) key' fs f);
          done.
Qed.

Lemma listing_loop_listed w folder_path names g :
  groups_listed w folder_path g →
  groups_listed w folder_path (listing_loop w folder_path names g).1.
Proof.
  revert g. induction names as [|filename rest IH]; intros g Hg; [done|].
  simpl.
  destruct (os_path_isfile w _) eqn:E1; simpl; [|by apply IH].
  destruct (is_image_file _) eqn:E2; simpl; [|by apply IH].
  destruct (Str.contains _ _) eqn:E3; simpl; [by apply IH|].
  destruct (os_path_getsize w _) as [file_size|e] eqn:E4; [|done].
  apply IH. apply groups_append_listed; [done|].
  by repeat split.
Qed.

Lemma size_ext_groups_listed w folder_path g :
  size_ext_groups w folder_path = Ok g → groups_listed w folder_path g.
Proof.
  unfold size_ext_groups. intros H.
  assert (Hnil : groups_listed w folder_path []).
  { intros key fs f Hin. by apply elem_of_nil in Hin. }
  destruct (os_listdir w folder_path) as [names|[]]; simplify_eq; try done.
  pose proof (listing_loop_listed w folder_path names [] Hnil) as Hl.
  destruct (listing_loop w folder_path names []) as [g' [[]|]];
    by simplify_eq.
Qed.

(** The listing never stops on an exception of its own: the size is asked
    of what has just been seen to be a regular file. *)
Lemma listing_loop_returns w folder_path names g :
  (listing_loop w folder_path names g).2 = None.
Proof.
  revert g. induction names as [|filename rest IH]; intros g; [done|].
  cbn [listing_loop]. cbv zeta.
  destruct (os_path_isfile w _) eqn:Hfile; simpl; [|apply IH].
  destruct (is_image_file _); simpl; [|apply IH].
  destruct (Str.contains _ _); simpl; [apply IH|].
  unfold os_path_getsize, os_stat. unfold os_path_isfile in Hfile.
  destruct (nodes w !! _) as [[]|]; done.
Qed.

(** On a directory the scan returns: with no cluster when the directory
    may not be listed. *)
Lemma find_duplicates_in_folder_returns w folder_path st entries listable :
  nodes w !! folder_path = Some (Dir st entries listable) →
  ∃ d, find_duplicates_in_folder w folder_path = Ok d.
Proof.
  intros Hdir. unfold find_duplicates_in_folder, size_ext_groups, os_listdir.
  rewrite Hdir. destruct listable; [|eauto].
  pose proof (listing_loop_returns w folder_path entries []) as H.
  destruct (listing_loop w folder_path entries []) as [g [e|]]; [done|eauto].
Qed.

(** ** The partition of one group *)

Lemma filter_elem {A} (f : A → bool) (l : list A) x :
  x ∈ List.filter f l ↔ x ∈ l ∧ f x = true.
Proof. rewrite !list_elem_of_In. apply List.filter_In. Qed.

Section SeedClustersFacts.
Context {A : Type} (sim : A → A → bool).

(** A cluster is its seed followed by files similar to that seed. *)
Lemma seed_clusters_seed l c :
  c ∈ seed_clusters sim l →
  ∃ seed rest, c = seed :: rest ∧ seed ∈ l ∧
               ∀ x, x ∈ rest → x ∈ l ∧ sim seed x = true.
Proof.
  funelim (seed_clusters sim l); simp seed_clusters.
  - by intros ?%elem_of_nil.
  - intros [->|Hc]%elem_of_cons.
    + exists seed, (List.filter (sim seed) rest).
      split; [done|]. split; [left|].
      intros x [? ?]%filter_elem. split; [by right|done].
    + destruct (H c Hc) as (s & r & -> & Hs & Hr).
      exists s, r. split; [done|].
      apply filter_elem in Hs as [Hs _]. split; [by right|].
      intros x Hx. destruct (Hr x Hx) as [[? _]%filter_elem ?].
      split; [by right|done].
Qed.

Lemma filter_split_perm (f : A → bool) (l : list A) :
  List.filter f l ++ List.filter (λ x, negb (f x)) l ≡ₚ l.
Proof.
  induction l as [|x l IH]; [done|]. simpl.
  destruct (f x); simpl.
  - by rewrite IH.
  - rewrite <- Permutation_middle. by rewrite IH.
Qed.

(** Every file of the group lands in exactly one seed's cluster. *)
Lemma seed_clusters_partition l : concat (seed_clusters sim l) ≡ₚ l.
Proof.
  funelim (seed_clusters sim l); simp seed_clusters; [done|].
  simpl. rewrite H. by rewrite filter_split_perm.
Qed.

(** The seeds, in the order they are drawn; no seed is similar to an
    earlier one, which is what "never reconsidered" leaves behind. *)
Lemma seed_clusters_later l c1 c2 s1 s2 r1 r2 i j :
  seed_clusters sim l !! i = Some c1 → seed_clusters sim l !! j = Some c2 →
  i < j → c1 = s1 :: r1 → c2 = s2 :: r2 →
  ∀ x, x ∈ c2 → sim s1 x = false.
Proof.
  revert c1 c2 s1 s2 r1 r2 i j.
  funelim (seed_clusters sim l); simp seed_clusters;
    intros c1 c2 s1 s2 r1 r2 i j Hi Hj Hij -> ->; [done|].
  destruct j as [|j]; [lia|]. simpl in Hj.
  destruct i as [|i]; simpl in Hi.
  - injection Hi as <- _. intros x Hx.
    assert (Hin : x ∈ concat (seed_clusters sim
                    (List.filter (λ x, negb (sim seed x)) rest))).
    { apply list_elem_of_In, List.in_concat. exists (s2 :: r2).
      split; apply list_elem_of_In; [|done].
      by eapply list_elem_of_lookup_2. }
    rewrite seed_clusters_partition in Hin.
    apply filter_elem in Hin as [_ Hin]. by apply negb_true_iff.
  - eapply (H _ _ s1 s2 r1 r2 i j); eauto. lia.
Qed.

Lemma emitted_clusters_elem l c :
  c ∈ emitted_clusters sim l ↔ c ∈ seed_clusters sim l ∧ 2 ≤ length c.
Proof.
  unfold emitted_clusters. rewrite filter_elem.
  by rewrite Nat.leb_le.
Qed.
End SeedClustersFacts.

(** ** Example folders *)

(** ** The claims about the duplicate scan *)

(** C3: in every (extension, size) group, [find_duplicates_in_folder]
    clusters greedily around seeds in listing order.  The clusters it
    returns are, group after group, those of [seed_clusters] (first
    unassigned file as seed, the later unassigned files similar to the seed
    with it, then the same on what is left) that have two files or more;
    each cluster is its seed followed by files similar to that seed, every
    file of a group lies in exactly one seed's cluster, and no file of a
    later cluster is similar to an earlier seed.  The scan of a directory
    always returns. *)
Theorem C3_seed_anchored_clustering (w : world) (folder_path : string)
    (d : dict) :
  find_duplicates_in_folder w folder_path = Ok d →
  (∀ w' st entries listable,
     nodes w' !! folder_path = Some (Dir st entries listable) →
     ∃ d', find_duplicates_in_folder w' folder_path = Ok d') ∧
  ∃ g, size_ext_groups w folder_path = Ok g ∧
    dict_values d
    = flat_map (λ grp, map (mkGroup folder_path grp.1.1 grp.1.2)
                         (List.filter (λ c, 2 <=? length c)
                            (seed_clusters similar grp.2))) g ∧
    ∀ key fs, (key, fs) ∈ g →
      concat (seed_clusters similar fs) ≡ₚ fs ∧
      (∀ c, c ∈ seed_clusters similar fs →
         ∃ seed rest, c = seed :: rest ∧
           ∀ x, x ∈ rest → similar seed x = true) ∧
      (∀ i j c1 c2 s1 r1,
         seed_clusters similar fs !! i = Some c1 →
         seed_clusters similar fs !! j = Some c2 →
         i < j → c1 = s1 :: r1 →
         ∀ x, x ∈ c2 → similar s1 x = false).
Proof.
  intros (g & Hg & Hd)%find_duplicates_in_folder_spec.
  split; [intros w' st entries listable;
          apply find_duplicates_in_folder_returns|].
  exists g. split; [done|]. split; [done|].
  intros key fs _. split; [apply seed_clusters_partition|]. split.
  - intros c (seed & rest & -> & _ & Hrest)%seed_clusters_seed.
    exists seed, rest. split; [done|]. intros x Hx. by apply Hrest.
  - intros i j c1 c2 s1 r1 Hi Hj Hij -> x Hx.
    destruct (seed_clusters_seed similar fs c2) as (s2 & r2 & -> & _).
    { by eapply list_elem_of_lookup_2. }
    by eapply (seed_clusters_later similar fs _ _ s1 s2 r1 r2 i j).
Qed.

Lemma C3_seed_anchored_clustering_witness :
  (∀ w' st entries listable,
     nodes w' !! "/p" = Some (Dir st entries listable) →
     ∃ d', find_duplicates_in_folder w' "/p" = Ok d') ∧
  ∃ g, size_ext_groups shoot_folder "/p" = Ok g ∧
    dict_values shoot_duplicates
    = flat_map (λ grp, map (mkGroup "/p" grp.1.1 grp.1.2)
                         (List.filter (λ c, 2 <=? length c)
                            (seed_clusters similar grp.2))) g ∧
    ∀ key fs, (key, fs) ∈ g →
      concat (seed_clusters similar fs) ≡ₚ fs ∧
      (∀ c, c ∈ seed_clusters similar fs →
         ∃ seed rest, c = seed :: rest ∧
           ∀ x, x ∈ rest → similar seed x = true) ∧
      (∀ i j c1 c2 s1 r1,
         seed_clusters similar fs !! i = Some c1 →
         seed_clusters similar fs !! j = Some c2 →
         i < j → c1 = s1 :: r1 →
         ∀ x, x ∈ c2 → similar s1 x = false).
Proof.
  apply (C3_seed_anchored_clustering shoot_folder "/p" shoot_duplicates).
  vm_compute. reflexivity.
Defined.

(** C4: every cluster [find_duplicates_in_folder] returns has at least two
    members, and each member is a regular media file of the folder whose
    lowercased extension and size are the ones recorded for the cluster and
    whose name does not contain "final", whatever the case. *)
Theorem C4_cluster_invariants (w : world) (folder_path : string) (d : dict)
    (key : string) (grp : DuplicateGroup) :
  find_duplicates_in_folder w folder_path = Ok d →
  (key, grp) ∈ d →
  2 ≤ length (files grp) ∧
  folder grp = folder_path ∧
  ∀ f, f ∈ files grp →
    extension f = group_extension grp ∧
    file_size f = group_size grp ∧
    path f = OsPath.join folder_path (filename f) ∧
    extension f = Str.lower (Pathlib.suffix (Pathlib.parse (filename f))) ∧
    os_path_getsize w (path f) = Ok (file_size f) ∧
    os_path_isfile w (path f) = true ∧
    is_image_file (path f) = true ∧
    Str.contains "final" (Str.lower (filename f)) = false.
Proof.
  intros Hd Hin.
  destruct (find_duplicates_in_folder_spec _ _ _ Hd) as (g & Hg & Hv).
  pose proof (size_ext_groups_listed _ _ _ Hg) as Hlisted.
  assert (Hgrp : grp ∈ dict_values d).
  { unfold dict_values. change grp with (snd (key, grp)).
    by apply (list_elem_of_fmap_2 snd). }
  rewrite Hv in Hgrp.
  apply list_elem_of_In, List.in_flat_map in Hgrp
    as ([[ext size] fs] & Hfs%list_elem_of_In & Hc%list_elem_of_In).
  unfold group_clusters in Hc. simpl in Hc.
  apply list_elem_of_fmap in Hc as (c & -> & Hc).
  apply emitted_clusters_elem in Hc as [Hc Hlen]. simpl.
  split; [done|]. split; [done|].
  intros f Hf.
  destruct (seed_clusters_seed _ _ _ Hc) as (seed & rest & -> & Hs & Hr).
  assert (Hffs : f ∈ fs).
  { apply elem_of_cons in Hf as [->|Hf]; [done|]. by apply Hr. }
  apply (Hlisted (ext, size) fs f Hfs Hffs).
Qed.

Lemma C4_cluster_invariants_witness :
  find_duplicates_in_folder shoot_folder "/p" = Ok shoot_duplicates ∧
  2 ≤ length [pair_record "IMG_0001.jpg"; pair_record "IMG_0002.jpg";
              pair_record "IMG_0004.JPG"] ∧
  ∀ f, f ∈ [pair_record "IMG_0001.jpg"; pair_record "IMG_0002.jpg";
            pair_record "IMG_0004.JPG"] →
    extension f = ".jpg" ∧ file_size f = 100 ∧
    Str.contains "final" (Str.lower (filename f)) = false.
Proof.
  assert (H : find_duplicates_in_folder shoot_folder "/p"
              = Ok shoot_duplicates) by (vm_compute; reflexivity).
  split; [exact H|].
  assert (Hin : ("/p|.jpg|100|1",
              (mkGroup "/p" ".jpg" 100
                 [pair_record "IMG_0001.jpg"; pair_record "IMG_0002.jpg";
                  pair_record "IMG_0004.JPG"])) ∈ shoot_duplicates).
  { vm_compute. left. }
  pose proof (C4_cluster_invariants shoot_folder "/p" shoot_duplicates
              "/p|.jpg|100|1"
              (mkGroup "/p" ".jpg" 100
                 [pair_record "IMG_0001.jpg"; pair_record "IMG_0002.jpg";
                  pair_record "IMG_0004.JPG"]) H Hin)
    as (Hlen & _ & Hall).
  split; [exact Hlen|].
  intros f Hf. destruct (Hall f Hf) as (He & Hs & _ & _ & _ & _ & _ & Hn).
  split; [exact He|]. split; [exact Hs|exact Hn].
Defined.

(** ** Paths: components, and reading back what was printed *)

Lemma string_app_nil_r (s : string) : s +:+ "" = s.
Proof.
  induction s as [|a s IH]; [done|].
  change (String a s +:+ "") with (String a (s +:+ "")). by rewrite IH.
Qed.

Lemma string_cons_app a (s t : string) : String a s +:+ t = String a (s +:+ t).
Proof. done. Qed.

Lemma split_no_sep (s : string) : Forall (λ c, no_sep c = true) (Str.split "/" s).
Proof.
  induction s as [|a s IH]; simpl.
  - by constructor.
  - case_bool_decide as Ha.
    + by constructor.
    + destruct (Str.split "/" s) as [|h t] eqn:E.
      * constructor; [|done]. unfold no_sep. simpl.
        by rewrite bool_decide_eq_false_2.
      * apply Forall_cons in IH as [Hh Ht]. constructor; [|done].
        unfold no_sep in *. simpl. by rewrite bool_decide_eq_false_2.
Qed.

Lemma split_component (c : string) : no_sep c = true → Str.split "/" c = [c].
Proof.
  induction c as [|a c IH]; [done|]. unfold no_sep. simpl.
  intros [Ha Hc]%andb_prop. apply negb_true_iff in Ha. rewrite Ha.
  by rewrite (IH Hc).
Qed.

Lemma split_app_sep (c s : string) :
  no_sep c = true → Str.split "/" (c +:+ String "/" s) = c :: Str.split "/" s.
Proof.
  induction c as [|a c IH]; intros Hc.
  - reflexivity.
  - rewrite string_cons_app. unfold no_sep in Hc. simpl in Hc.
    apply andb_prop in Hc as [Ha Hc]. apply negb_true_iff in Ha.
    simpl. rewrite Ha. by rewrite (IH Hc).
Qed.

Lemma split_join (l : list string) :
  l ≠ [] → Forall (λ c, no_sep c = true) l →
  Str.split "/" (Str.join "/" l) = l.
Proof.
  induction l as [|c l IH]; [done|]. intros _ Hl.
  apply Forall_cons in Hl as [Hc Hl].
  destruct l as [|c' l]; [by apply split_component|].
  change (Str.join "/" (c :: c' :: l))
    with (c +:+ String "/" (Str.join "/" (c' :: l))).
  rewrite split_app_sep by done. by rewrite IH.
Qed.

Lemma filter_components (l : list string) :
  Forall component l → List.filter Pathlib.is_part l = l.
Proof.
  induction 1 as [|c l [Hc _] _ IH]; [done|]. simpl. by rewrite Hc, IH.
Qed.

Lemma filter_empty_part (l : list string) :
  List.filter Pathlib.is_part ("" :: l) = List.filter Pathlib.is_part l.
Proof. reflexivity. Qed.

Lemma parse_components (s : string) :
  Forall component (Pathlib.parts (Pathlib.parse s)).
Proof.
  unfold Pathlib.parse. simpl.
  pose proof (split_no_sep s) as H.
  induction H as [|c l Hc _ IH]; simpl; [done|].
  destruct (Pathlib.is_part c) eqn:E; [|done].
  constructor; [by split|done].
Qed.

Lemma parse_root_cases (s : string) :
  Pathlib.parse_root s = "" ∨ Pathlib.parse_root s = "/"
  ∨ Pathlib.parse_root s = "//".
Proof. unfold Pathlib.parse_root. repeat case_match; auto. Qed.

(** [Path(str(p))] has the components of [p]. *)
Lemma parse_str_parts (r : string) (ps : list string) :
  r = "" ∨ r = "/" ∨ r = "//" → Forall component ps →
  Pathlib.parts (Pathlib.parse (Pathlib.str (Pathlib.mkPath r ps))) = ps.
Proof.
  intros Hr Hps.
  assert (Hsep : Forall (λ c, no_sep c = true) ps).
  { eapply Forall_impl; [exact Hps|]. by intros c [_ ?]. }
  destruct ps as [|c ps].
  - by destruct Hr as [->|[->| ->]].
  - assert (Hne : c :: ps ≠ []) by done.
    pose proof (split_join (c :: ps) Hne Hsep) as Hsplit.
    pose proof (filter_components (c :: ps) Hps) as Hfilter.
    destruct Hr as [->|[->| ->]]; unfold Pathlib.parse, Pathlib.str;
      cbn [Pathlib.root Pathlib.parts].
    + change ("" +:+ ?x) with x. by rewrite Hsplit.
    + change ("/" +:+ ?x) with (String "/" x).
      cbn [Str.split]. rewrite bool_decide_eq_true_2 by done.
      rewrite Hsplit. by rewrite filter_empty_part.
    + change ("//" +:+ ?x) with (String "/" (String "/" x)).
      cbn [Str.split]. rewrite !bool_decide_eq_true_2 by done.
      rewrite Hsplit. by rewrite !filter_empty_part.
Qed.

Lemma all_chars_take p i s :
  all_chars p s = true → all_chars p (Str.take i s) = true.
Proof.
  revert i. induction s as [|a s IH]; intros [|i]; simpl; try done.
  intros [Ha Hs]%andb_prop. by rewrite Ha, IH.
Qed.

Lemma take_length i s :
  i ≤ String.length s → String.length (Str.take i s) = i.
Proof.
  revert i. induction s as [|a s IH]; intros [|i]; simpl; try lia.
  intros H. rewrite IH; lia.
Qed.

Lemma name_no_sep (s : string) : no_sep (Pathlib.name (Pathlib.parse s)) = true.
Proof.
  unfold Pathlib.name.
  pose proof (parse_components s) as H.
  induction H as [|c l [_ Hc] Hl IH]; [done|].
  destruct l as [|c' l]; [done|]. exact IH.
Qed.

Lemma removelast_components (l : list string) :
  Forall component l → Forall component (List.removelast l).
Proof.
  induction 1 as [|c l Hc Hl IH]; [done|]. simpl.
  destruct l; [done|]. by constructor.
Qed.

Lemma find_matching_raw_file_find w image_path :
  find_matching_raw_file w image_path
  = List.find (os_path_exists w) (raw_candidates image_path).
Proof.
  unfold find_matching_raw_file, raw_candidates, raw_forms, raw_extensions.
  cbn [raw_loop ext_loop map List.find].
  change (Str.upper ".nef") with ".NEF".
  change (Str.upper ".arw") with ".ARW".
  change (Str.upper ".dng") with ".DNG".
  change (Str.upper ".raf") with ".RAF".
  repeat (destruct (os_path_exists w _); [done|]). done.
Qed.

(** A candidate ends with the raw extension it was built from. *)
Lemma suffix_stem_ext (stem ext : string) :
  ext ∈ raw_forms → stem ≠ "" →
  Pathlib.name_suffix (stem +:+ ext) = ext.
Proof.
  intros Hext Hstem.
  assert (∃ e, ext = String "." e ∧ Str.rfind "." e = None
               ∧ String.length e = 3) as (e & -> & He & Hlen).
  { unfold raw_forms in Hext.
    repeat (apply elem_of_cons in Hext as [->|Hext];
            [eexists; split; [reflexivity|by split]|]).
    by apply elem_of_nil in Hext. }
  unfold Pathlib.name_suffix, Pathlib.suffix_index.
  rewrite rfind_app_sep by done.
  rewrite string_app_length. simpl. rewrite Hlen.
  assert (0 < String.length stem) by (destruct stem; [done|simpl; lia]).
  replace (0 <? String.length stem) with true
    by (symmetry; by apply Nat.ltb_lt).
  replace (String.length stem <? String.length stem + 4 - 1) with true
    by (symmetry; apply Nat.ltb_lt; lia).
  simpl. apply drop_app_length.
Qed.

Lemma stem_nonempty (name : string) :
  Pathlib.name_suffix name ≠ "" → Pathlib.name_stem name ≠ "".
Proof.
  unfold Pathlib.name_suffix, Pathlib.name_stem, Pathlib.suffix_index.
  destruct (Str.rfind "." name) as [i|]; [|done].
  destruct ((0 <? i) && (i <? String.length name - 1)) eqn:E; [|done].
  apply andb_prop in E as [E1 E2].
  apply Nat.ltb_lt in E1, E2. intros _ Hs.
  apply (f_equal String.length) in Hs. rewrite take_length in Hs by lia.
  simpl in Hs. lia.
Qed.

Lemma stem_no_sep (s : string) :
  no_sep (Pathlib.stem (Pathlib.parse s)) = true.
Proof.
  unfold Pathlib.stem, Pathlib.name_stem.
  destruct (Pathlib.suffix_index _); [|apply name_no_sep].
  apply all_chars_take, name_no_sep.
Qed.

Lemma raw_form_no_sep ext : ext ∈ raw_forms → no_sep ext = true.
Proof.
  unfold raw_forms. intros H.
  repeat (apply elem_of_cons in H as [->|H]; [done|]).
  by apply elem_of_nil in H.
Qed.

Lemma last_snoc {A} (l : list A) (x d : A) : List.last (l ++ [x]) d = x.
Proof. apply List.last_last. Qed.

(** Reading a candidate back gives the stem of the image and the raw
    extension. *)
Lemma candidate_suffix image_path ext :
  ext ∈ raw_forms →
  Pathlib.stem (Pathlib.parse image_path) ≠ "" →
  Pathlib.suffix
    (Pathlib.parse
       (Pathlib.str
          (Pathlib.joinpath (Pathlib.parent (Pathlib.parse image_path))
             (Pathlib.stem (Pathlib.parse image_path) +:+ ext))))
  = ext.
Proof.
  intros Hext Hstem.
  set (stem := Pathlib.stem (Pathlib.parse image_path)) in *.
  assert (Hsep : no_sep (stem +:+ ext) = true).
  { unfold no_sep. rewrite all_chars_app.
    apply andb_true_intro. split; [apply stem_no_sep|by apply raw_form_no_sep]. }
  assert (Hpart : Pathlib.is_part (stem +:+ ext) = true).
  { unfold Pathlib.is_part.
    assert (Hlen : 4 ≤ String.length (stem +:+ ext)).
    { rewrite string_app_length.
      assert (String.length ext = 4); [|lia].
      unfold raw_forms in Hext.
      repeat (apply elem_of_cons in Hext as [->|Hext]; [done|]).
      by apply elem_of_nil in Hext. }
    rewrite !bool_decide_eq_false_2; [done|..];
      intros Heq; rewrite Heq in Hlen; simpl in Hlen; lia. }
  assert (Hparse : Pathlib.parse (stem +:+ ext)
                   = Pathlib.mkPath "" [stem +:+ ext]).
  { unfold Pathlib.parse. rewrite split_component by done.
    simpl. rewrite Hpart. f_equal.
    unfold Pathlib.parse_root.
    destruct (stem +:+ ext) as [|a s] eqn:E; [done|].
    unfold no_sep in Hsep. simpl in Hsep.
    apply andb_prop in Hsep as [Ha _].
    apply negb_true_iff, bool_decide_eq_false in Ha.
    cbn [Str.startswith].
    rewrite (bool_decide_eq_false_2 ("/"%char = a)) by congruence.
    done. }
  unfold Pathlib.joinpath. rewrite Hparse. simpl.
  unfold Pathlib.suffix, Pathlib.name.
  rewrite parse_str_parts.
  - rewrite last_snoc. by apply suffix_stem_ext.
  - apply parse_root_cases.
  - apply Forall_app. split.
    + apply removelast_components, parse_components.
    + constructor; [by split|done].
Qed.

Lemma find_matching_raw_file_suffix w image_path raw_file :
  Pathlib.stem (Pathlib.parse image_path) ≠ "" →
  find_matching_raw_file w image_path = Some raw_file →
  Pathlib.suffix (Pathlib.parse raw_file) ∈ raw_forms.
Proof.
  intros Hstem Hfind. rewrite find_matching_raw_file_find in Hfind.
  apply List.find_some in Hfind as [Hin _].
  unfold raw_candidates in Hin.
  apply List.in_map_iff in Hin as (ext & <- & Hext%list_elem_of_In).
  by rewrite candidate_suffix.
Qed.

Lemma str_nonempty (r : string) (ps : list string) :
  Forall component ps → Pathlib.str (Pathlib.mkPath r ps) ≠ "".
Proof.
  intros Hps. unfold Pathlib.str. simpl.
  destruct ps as [|c ps].
  - by destruct r.
  - apply Forall_cons in Hps as [[Hc _] _].
    unfold Pathlib.is_part in Hc.
    destruct c as [|a c]; [done|].
    destruct r as [|b r]; [|done].
    destruct ps; done.
Qed.

(** ** Date resolution *)

Lemma set_exif_lookup w p exif q :
  nodes (set_exif w p exif) !! q
  = if decide (p = q)
    then match nodes w !! q with
         | Some (File st _) => Some (File st exif)
         | o => o
         end
    else nodes w !! q.
Proof.
  unfold set_exif, set_nodes. simpl. rewrite lookup_alter.
  destruct (decide (p = q)) as [->|]; [|done].
  by destruct (nodes w !! q) as [[]|].
Qed.

Lemma set_exif_exists w p exif q :
  os_path_exists (set_exif w p exif) q = os_path_exists w q.
Proof.
  unfold os_path_exists. rewrite set_exif_lookup.
  destruct (decide (p = q)); [|done].
  destruct (nodes w !! q) as [[]|]; apply bool_decide_ext;
    split; intros [? ?]; eauto.
Qed.

Lemma set_exif_stat w p exif q :
  os_stat (set_exif w p exif) q = os_stat w q.
Proof.
  unfold os_stat. rewrite set_exif_lookup.
  destruct (decide (p = q)); [|done].
  by destruct (nodes w !! q) as [[]|].
Qed.

Lemma set_exif_creation_date w p exif q :
  get_file_creation_date (set_exif w p exif) q = get_file_creation_date w q.
Proof. unfold get_file_creation_date. by rewrite set_exif_stat. Qed.

Lemma set_exif_other w p exif q :
  p ≠ q → get_exif_date (set_exif w p exif) q = get_exif_date w q.
Proof.
  intros Hne. unfold get_exif_date. rewrite set_exif_lookup.
  by destruct (decide (p = q)).
Qed.

Lemma find_ext {A} (f g : A → bool) (l : list A) :
  (∀ x, f x = g x) → List.find f l = List.find g l.
Proof. intros H. induction l as [|x l IH]; simpl; [done|]. by rewrite H, IH. Qed.

Lemma set_exif_find w p exif q :
  find_matching_raw_file (set_exif w p exif) q = find_matching_raw_file w q.
Proof.
  rewrite !find_matching_raw_file_find. apply find_ext.
  intros x. apply set_exif_exists.
Qed.

Lemma joinpath_components (p : Pathlib.Path) (s : string) :
  Forall component (Pathlib.parts p) →
  Forall component (Pathlib.parts (Pathlib.joinpath p s)).
Proof.
  intros Hp. unfold Pathlib.joinpath. case_bool_decide; simpl.
  - apply Forall_app. split; [done|apply parse_components].
  - apply parse_components.
Qed.

(** [str(raw_path)] is never the empty string, so [if raw_file:] only
    tells [None] from a path. *)
Lemma find_matching_raw_file_truthy w image_path :
  truthy (find_matching_raw_file w image_path)
  = bool_decide (is_Some (find_matching_raw_file w image_path)).
Proof.
  destruct (find_matching_raw_file w image_path) as [raw|] eqn:E; simpl.
  - apply negb_true_iff, bool_decide_eq_false. intros ->.
    rewrite find_matching_raw_file_find in E.
    apply List.find_some in E as [Hin _].
    unfold raw_candidates in Hin.
    apply List.in_map_iff in Hin as (ext & Hstr & _).
    destruct (Pathlib.joinpath _ _) as [r ps] eqn:Ej.
    apply (str_nonempty r ps); [|done].
    change ps with (Pathlib.parts (Pathlib.mkPath r ps)). rewrite <- Ej.
    apply joinpath_components, removelast_components, parse_components.
  - done.
Qed.

Lemma raw_form_not_sibling ext :
  ext ∈ raw_forms → Str.lower ext ∉ raw_sibling_extensions.
Proof.
  unfold raw_forms. intros H.
  repeat (apply elem_of_cons in H as [->|H];
          [by_compute|]).
  by apply elem_of_nil in H.
Qed.

Lemma sibling_stem_nonempty image_path :
  Str.lower (Pathlib.suffix (Pathlib.parse image_path))
    ∈ raw_sibling_extensions →
  Pathlib.stem (Pathlib.parse image_path) ≠ "".
Proof.
  intros H. apply stem_nonempty. intros Hs.
  unfold Pathlib.suffix in H. rewrite Hs in H.
  revert H. by_compute.
Qed.

(** The companion found is never the image itself. *)
Lemma find_matching_raw_file_other w image_path raw_file :
  Str.lower (Pathlib.suffix (Pathlib.parse image_path))
    ∈ raw_sibling_extensions →
  find_matching_raw_file w image_path = Some raw_file →
  image_path ≠ raw_file.
Proof.
  intros Hsib Hfind ->.
  apply find_matching_raw_file_suffix in Hfind;
    [|by apply sibling_stem_nonempty].
  by apply raw_form_not_sibling in Hfind.
Qed.

Lemma get_photo_date_sibling w image_path :
  Str.lower (Pathlib.suffix (Pathlib.parse image_path))
    ∈ raw_sibling_extensions →
  get_photo_date w image_path
  = match find_matching_raw_file w image_path with
    | Some raw_file =>
        match get_exif_date w raw_file with
        | Some exif_date => Ok exif_date
        | None => get_file_creation_date w raw_file
        end
    | None => get_file_creation_date w image_path
    end.
Proof.
  intros Hsib. unfold get_photo_date.
  rewrite bool_decide_eq_true_2 by done.
  rewrite find_matching_raw_file_truthy.
  by destruct (find_matching_raw_file w image_path) as [raw|].
Qed.

(** C1: for a path whose lowercased extension is .jpg, .jpeg, .cr2, .png or
    .xmp, [get_photo_date] gives the EXIF date of the companion RAW file
    when there is one and it has one, the creation date of the companion
    when it has none, and the file's own creation date when there is no
    companion; the EXIF data of the file itself never changes the result.
    For [photo.jpg] beside [photo.NEF] with DateTimeOriginal
    2020:01:02 03:04:05 the folders are 2020 and 20200102, and without the
    RAW file the date is the file's own creation date. *)
Theorem C1_raw_sibling_date (w : world) (image_path : string) :
  Str.lower (Pathlib.suffix (Pathlib.parse image_path))
    ∈ raw_sibling_extensions →
  get_photo_date w image_path
  = match find_matching_raw_file w image_path with
    | Some raw_file =>
        match get_exif_date w raw_file with
        | Some exif_date => Ok exif_date
        | None => get_file_creation_date w raw_file
        end
    | None => get_file_creation_date w image_path
    end
  ∧ (∀ exif, get_photo_date (set_exif w image_path exif) image_path
             = get_photo_date w image_path)
  ∧ (∃ d, get_photo_date companion_folder "/p/photo.jpg" = Ok d
          ∧ Time.strftime_Y d = "2020" ∧ Time.strftime_Ymd d = "20200102")
  ∧ (file_try companion_folder "/out" "/p/photo.jpg" "photo.jpg" true).2
    = Ok "/out/2020/20200102/JPG/photo.jpg"
  ∧ get_photo_date lone_folder "/p/photo.jpg" = Ok example_date.
Proof.
  intros Hsib. split; [by apply get_photo_date_sibling|]. split.
  - intros exif. rewrite !get_photo_date_sibling by done.
    rewrite set_exif_find.
    destruct (find_matching_raw_file w image_path) as [raw|] eqn:E.
    + rewrite set_exif_other by (by eapply find_matching_raw_file_other).
      by rewrite set_exif_creation_date.
    + apply set_exif_creation_date.
  - split; [|split].
    + eexists. split; [vm_compute; reflexivity|]. split; vm_compute; reflexivity.
    + vm_compute. reflexivity.
    + vm_compute. reflexivity.
Qed.

Lemma C1_raw_sibling_date_witness :
  get_photo_date companion_folder "/p/photo.jpg"
  = match find_matching_raw_file companion_folder "/p/photo.jpg" with
    | Some raw_file =>
        match get_exif_date companion_folder raw_file with
        | Some exif_date => Ok exif_date
        | None => get_file_creation_date companion_folder raw_file
        end
    | None => get_file_creation_date companion_folder "/p/photo.jpg"
    end.
Proof.
  refine (proj1 (C1_raw_sibling_date companion_folder "/p/photo.jpg" _)).
  by_compute.
Defined.



(** C8, as stated, fails where file names are case-sensitive: a RAW file in
    the same directory whose base name differs from the image's in case
    only is not found. *)
Lemma C8_counterexample :
  find_matching_raw_file case_folder "d/PHOTO.jpg" = None
  ∧ os_path_exists case_folder "d/photo.nef" = true
  ∧ Pathlib.parent (Pathlib.parse "d/photo.nef")
    = Pathlib.parent (Pathlib.parse "d/PHOTO.jpg")
  ∧ Str.lower (Pathlib.stem (Pathlib.parse "d/photo.nef"))
    = Str.lower (Pathlib.stem (Pathlib.parse "d/PHOTO.jpg"))
  ∧ Pathlib.suffix (Pathlib.parse "d/photo.nef") ∈ raw_extensions.
Proof.
  repeat split; try (vm_compute; reflexivity).
  by_compute.
Qed.

(** C8, amended: [find_matching_raw_file] tests, in the directory of the
    path, the base name exactly as the path has it followed by .nef, .NEF,
    .arw, .ARW, .dng, .DNG, .raf, .RAF in that order, and returns the first
    of these paths that exists, or none when none exists. *)
Theorem C8_raw_companion_search (w : world) (image_path : string) :
  find_matching_raw_file w image_path
  = List.find (os_path_exists w)
      (map (λ ext,
              Pathlib.str
                (Pathlib.joinpath (Pathlib.parent (Pathlib.parse image_path))
                   (Pathlib.stem (Pathlib.parse image_path) +:+ ext)))
           [".nef"; ".NEF"; ".arw"; ".ARW"; ".dng"; ".DNG"; ".raf"; ".RAF"]).
Proof. apply find_matching_raw_file_find. Qed.

(** ** The similarity ratio *)


(** ** Filing: the name a file is given *)

Lemma string_app_inj_r (s1 s2 t : string) : s1 +:+ t = s2 +:+ t → s1 = s2.
Proof.
  intros H.
  assert (Hlen : String.length s1 = String.length s2).
  { apply (f_equal String.length) in H. rewrite !string_app_length in H. lia. }
  rewrite <- (take_app_length s1 t), <- (take_app_length s2 t).
  by rewrite H, Hlen.
Qed.

Lemma startswith_renamed base x y :
  Str.startswith "/" (base +:+ "_" +:+ x)
  = Str.startswith "/" (base +:+ "_" +:+ y).
Proof. by destruct base. Qed.

Lemma renamed_inj target_dir base ext n m :
  renamed target_dir base ext n = renamed target_dir base ext m → n = m.
Proof.
  unfold renamed, OsPath.join.
  rewrite (startswith_renamed base (pretty n +:+ ext) (pretty m +:+ ext)).
  intros H.
  assert (Hb : base +:+ "_" +:+ pretty n +:+ ext
               = base +:+ "_" +:+ pretty m +:+ ext).
  { destruct (Str.startswith _ _); [done|].
    destruct (_ || _).
    - by apply (inj (String.app target_dir)) in H.
    - apply (inj (String.app target_dir)) in H.
      by apply (inj (String.app "/")) in H. }
  apply (inj (String.app base)) in Hb.
  apply (inj (String.app "_")) in Hb.
  apply string_app_inj_r in Hb. by apply (inj pretty) in Hb.
Qed.

Lemma rename_loop_least w target_dir base ext fuel target_path counter N :
  os_path_exists w target_path = true →
  counter ≤ N →
  Forall (λ M, os_path_exists w (renamed target_dir base ext M) = true)
         (seq counter (N - counter)) →
  os_path_exists w (renamed target_dir base ext N) = false →
  N - counter + 2 ≤ fuel →
  rename_loop w target_dir base ext fuel target_path counter
  = renamed target_dir base ext N.
Proof.
  revert target_path counter.
  induction fuel as [|fuel IH]; intros target_path counter Hex Hc Hbusy Hfree Hf;
    [lia|].
  cbn [rename_loop]. rewrite Hex.
  change (OsPath.join target_dir (base +:+ "_" +:+ pretty counter +:+ ext))
    with (renamed target_dir base ext counter).
  destruct (decide (counter = N)) as [->|Hne].
  - destruct fuel as [|fuel]; [lia|]. cbn [rename_loop]. by rewrite Hfree.
  - replace (N - counter) with (S (N - (counter + 1))) in Hbusy by lia.
    cbn [seq] in Hbusy. apply Forall_cons in Hbusy as [Hhere Hbusy].
    apply IH; [exact Hhere|lia| |exact Hfree|lia].
    replace (S counter) with (counter + 1) in Hbusy by lia. exact Hbusy.
Qed.

(** Among [size + 1] different names one is not on disk. *)
Lemma renamed_free w target_dir base ext :
  ∃ N, 1 ≤ N ∧ N ≤ size (nodes w) + 1 ∧
       os_path_exists w (renamed target_dir base ext N) = false.
Proof.
  set (cands := renamed target_dir base ext <$> seq 1 (size (nodes w) + 1)).
  destruct (decide (Forall (λ c, os_path_exists w c = true) cands))
    as [Hall|Hnot].
  - exfalso.
    assert (Hnd : NoDup cands).
    { apply NoDup_fmap_2_strong; [|apply NoDup_seq].
      intros n m _ _. apply renamed_inj. }
    assert (Hsub : list_to_set cands ⊆ dom (nodes w)).
    { intros c Hc%elem_of_list_to_set.
      rewrite Forall_forall in Hall. specialize (Hall c Hc).
      unfold os_path_exists in Hall. apply bool_decide_eq_true in Hall.
      by apply elem_of_dom. }
    apply subseteq_size in Hsub.
    rewrite size_list_to_set, size_dom in Hsub by done.
    unfold cands in Hsub. rewrite length_fmap, length_seq in Hsub. lia.
  - apply not_Forall_Exists in Hnot; [|apply _].
    apply Exists_exists in Hnot as (c & Hc & Hfree).
    unfold cands in Hc. apply list_elem_of_fmap in Hc as (N & -> & HN).
    apply elem_of_seq in HN. exists N.
    split; [lia|]. split; [lia|].
    simpl in Hfree. by destruct (os_path_exists w _).
Qed.

(** The first counter, from [counter] on, whose name is not on disk. *)
Lemma first_free (p : nat → bool) (n counter : nat) :
  counter ≤ n → p n = false →
  ∃ N, counter ≤ N ∧ N ≤ n ∧ p N = false ∧
       Forall (λ M, p M = true) (seq counter (N - counter)).
Proof.
  intros Hc Hn. remember (n - counter) as k eqn:Hk.
  revert counter Hc Hk. induction k as [|k IH]; intros counter Hc Hk.
  - assert (counter = n) as -> by lia. exists n.
    rewrite Nat.sub_diag. by repeat split.
  - destruct (p counter) eqn:Hp.
    + destruct (IH (S counter)) as (N & HN1 & HN2 & HN3 & HN4); [lia|lia|].
      exists N. split; [lia|]. split; [done|]. split; [done|].
      replace (N - counter) with (S (N - S counter)) by lia.
      simpl. by constructor.
    + exists counter. rewrite Nat.sub_diag. by repeat split; try lia.
Qed.

Lemma choose_target_spec w target_dir filename :
  os_path_exists w (choose_target w target_dir filename) = false
  ∧ ((os_path_exists w (OsPath.join target_dir filename) = false
      ∧ choose_target w target_dir filename = OsPath.join target_dir filename)
     ∨ (os_path_exists w (OsPath.join target_dir filename) = true
        ∧ ∃ N, 1 ≤ N
            ∧ choose_target w target_dir filename
              = renamed target_dir (OsPath.splitext filename).1
                  (OsPath.splitext filename).2 N
            ∧ Forall (λ M, os_path_exists w
                             (renamed target_dir (OsPath.splitext filename).1
                                (OsPath.splitext filename).2 M) = true)
                     (seq 1 (N - 1)))).
Proof.
  unfold choose_target.
  destruct (os_path_exists w (OsPath.join target_dir filename)) eqn:Hex.
  - destruct (OsPath.splitext filename) as [base ext]. simpl.
    destruct (renamed_free w target_dir base ext) as (n & Hn1 & Hn2 & Hn3).
    destruct (first_free (λ M, os_path_exists w (renamed target_dir base ext M))
                n 1 Hn1 Hn3) as (N & HN1 & HN2 & HN3 & HN4).
    rewrite (rename_loop_least w target_dir base ext _ _ 1 N);
      [|done|done|done|done|lia].
    split; [done|]. right. split; [done|]. by exists N.
  - split; [done|]. left. by split.
Qed.

(** ** Filing: what is on disk stays there *)

Lemma os_makedirs_nodes w target_dir w1 :
  os_makedirs w target_dir = Ok w1 →
  nodes w ⊆ nodes w1 ∧ cwd w1 = cwd w.
Proof.
  unfold os_makedirs.
  destruct (nodes w !! target_dir) as [[]|] eqn:E; try done.
  - by intros [= <-].
  - case_bool_decide; [done|]. intros [= <-]. simpl. split; [|done].
    by apply insert_subseteq.
Qed.

Lemma os_makedirs_clock w target_dir w1 :
  os_makedirs w target_dir = Ok w1 →
  now w1 = now w ∧ os_name_nt w1 = os_name_nt w.
Proof.
  unfold os_makedirs.
  destruct (nodes w !! target_dir) as [[]|] eqn:E; try done.
  - by intros [= <-].
  - case_bool_decide; [done|]. by intros [= <-].
Qed.

Lemma real_dst_free w dst name :
  os_path_exists w dst = false → real_dst w dst name = dst.
Proof.
  unfold os_path_exists, real_dst. intros H.
  apply bool_decide_eq_false in H.
  destruct (nodes w !! dst); [|done]. exfalso. apply H. eauto.
Qed.

Lemma copy_or_move_nodes w src dst (copy_files : bool) w2 :
  os_path_exists w dst = false →
  (if copy_files then shutil_copy2 w src dst else shutil_move w src dst)
  = Ok w2 →
  (if copy_files then nodes w else delete src (nodes w)) ⊆ nodes w2
  ∧ cwd w2 = cwd w
  ∧ is_Some (nodes w2 !! dst).
Proof.
  intros Hfree.
  assert (Hnone : nodes w !! dst = None).
  { unfold os_path_exists in Hfree. apply bool_decide_eq_false in Hfree.
    destruct (nodes w !! dst); [|done]. exfalso. apply Hfree. eauto. }
  destruct copy_files; unfold shutil_copy2, shutil_move;
    rewrite !(real_dst_free w dst _ Hfree);
    destruct (nodes w !! src) as [[]|] eqn:Hsrc; try done;
    case_bool_decide; try done; intros [= <-]; simpl;
    (split; [|split; [done|by rewrite lookup_insert_eq]]).
  - by apply insert_subseteq.
  - apply insert_subseteq. rewrite lookup_delete_ne; [done|].
    intros ->. congruence.
Qed.

Lemma file_try_nodes (w : world)
    (destination_folder file_path filename : string) (copy_files : bool) :
  (if copy_files then nodes w else delete file_path (nodes w))
    ⊆ nodes (file_try w destination_folder file_path filename copy_files).1
  ∧ cwd (file_try w destination_folder file_path filename copy_files).1
    = cwd w.
Proof.
  assert (Hdel : (if copy_files then nodes w else delete file_path (nodes w))
                 ⊆ nodes w).
  { destruct copy_files; [done|apply delete_subseteq]. }
  unfold file_try.
  destruct (get_photo_date w file_path) as [photo_date|e]; [|done].
  match goal with |- context [os_makedirs w ?d] =>
    destruct (os_makedirs w d) as [w1|e] eqn:Hmk end; [|done].
  apply os_makedirs_nodes in Hmk as [Hsub Hcwd].
  match goal with |- context [choose_target w1 ?d ?f] =>
    pose proof (choose_target_spec w1 d f) as [Hfree _];
    set (target_path := choose_target w1 d f) in * end.
  destruct (if copy_files then shutil_copy2 w1 file_path target_path
            else shutil_move w1 file_path target_path) as [w2|e] eqn:Hcp;
    simpl.
  - apply copy_or_move_nodes in Hcp as (Hsub2 & Hcwd2 & _); [|done].
    split; [|congruence].
    etrans; [|exact Hsub2].
    destruct copy_files; [done|]. by apply delete_mono.
  - split; [|done]. by etrans.
Qed.

(** ** Filing: the run as a sequence of files *)

Lemma process_file_outcome (destination_folder root filename : string)
    (copy_files : bool) (stats : Stats) (w : world) :
  let file_path := OsPath.join root filename in
  let outcome := file_try w destination_folder file_path filename copy_files in
  let after :=
    process_file destination_folder root filename copy_files (stats, w) in
  if is_image_file file_path then
    after.2 = outcome.1 ∧
    total_found after.1 = total_found stats + 1 ∧
    match outcome.2 with
    | Ok _ =>
        organized after.1 = organized stats + 1 ∧
        skipped after.1 = skipped stats ∧
        errors after.1 = errors stats
    | Raise e =>
        organized after.1 = organized stats ∧
        skipped after.1 = skipped stats + 1 ∧
        errors after.1 = errors stats ++ [file_path +:+ ": " +:+ exn_str e]
    end
  else after = (stats, w).
Proof.
  intros file_path outcome after. subst after outcome. unfold process_file.
  fold file_path. destruct (is_image_file file_path); [|done]. simpl.
  by destruct (file_try w destination_folder file_path filename copy_files)
    as [w' [T|e]].
Qed.

Lemma process_file_cwd destination_folder root filename copy_files stats w :
  cwd (process_file destination_folder root filename copy_files (stats, w)).2
  = cwd w.
Proof.
  pose proof (process_file_outcome destination_folder root filename copy_files
                stats w) as H. cbv zeta in H.
  destruct (is_image_file _).
  - destruct H as [-> _]. apply file_try_nodes.
  - by rewrite H.
Qed.

Lemma process_file_balanced destination_folder root filename copy_files stats w :
  balanced stats →
  balanced
    (process_file destination_folder root filename copy_files (stats, w)).1.
Proof.
  intros [Hb1 Hb2].
  pose proof (process_file_outcome destination_folder root filename copy_files
                stats w) as H. cbv zeta in H.
  destruct (is_image_file _); [|by rewrite H].
  destruct H as (_ & Ht & H).
  destruct (file_try _ _ _ _ _).2; destruct H as (Ho & Hs & He);
    unfold balanced; rewrite Ht, Ho, Hs, He, ?length_app; simpl; lia.
Qed.

Lemma process_file_le destination_folder root filename copy_files stats w :
  stats_le stats
    (process_file destination_folder root filename copy_files (stats, w)).1.
Proof.
  pose proof (process_file_outcome destination_folder root filename copy_files
                stats w) as H. cbv zeta in H.
  destruct (is_image_file _).
  - destruct H as (_ & Ht & H).
    destruct (file_try _ _ _ _ _).2; destruct H as (Ho & Hs & He);
      unfold stats_le; rewrite Ht, Ho, Hs, He;
      (repeat split; [lia..|]); [done|by apply prefix_app_r].
  - rewrite H. by repeat split.
Qed.

Lemma process_file_found destination_folder root filename copy_files stats w :
  total_found
    (process_file destination_folder root filename copy_files (stats, w)).1
  = total_found stats
    + (if is_image_file (OsPath.join root filename) then 1 else 0).
Proof.
  pose proof (process_file_outcome destination_folder root filename copy_files
                stats w) as H. cbv zeta in H.
  destruct (is_image_file _).
  - by destruct H as (_ & -> & _).
  - rewrite H. simpl. lia.
Qed.

Lemma run_steps_snoc destination_folder copy_files steps step s :
  run_steps destination_folder copy_files (steps ++ [step]) s
  = process_file destination_folder step.1 step.2 copy_files
      (run_steps destination_folder copy_files steps s).
Proof. unfold run_steps. by rewrite foldl_app. Qed.

Lemma run_steps_cwd destination_folder copy_files steps s :
  cwd (run_steps destination_folder copy_files steps s).2 = cwd s.2.
Proof.
  induction steps as [|step steps IH] using rev_ind; [done|].
  rewrite run_steps_snoc.
  destruct (run_steps destination_folder copy_files steps s) as [st w'].
  by rewrite process_file_cwd.
Qed.

Lemma run_steps_balanced destination_folder copy_files steps s :
  balanced s.1 →
  balanced (run_steps destination_folder copy_files steps s).1.
Proof.
  intros Hs. induction steps as [|step steps IH] using rev_ind; [done|].
  rewrite run_steps_snoc.
  destruct (run_steps destination_folder copy_files steps s) as [st w'].
  by apply process_file_balanced.
Qed.

Lemma run_steps_found destination_folder copy_files steps s :
  total_found (run_steps destination_folder copy_files steps s).1
  = total_found s.1 + length (List.filter is_media_step steps).
Proof.
  induction steps as [|step steps IH] using rev_ind; [simpl; lia|].
  rewrite run_steps_snoc.
  destruct (run_steps destination_folder copy_files steps s) as [st w'].
  rewrite process_file_found. simpl in IH. rewrite IH.
  rewrite List.filter_app, length_app. cbn [List.filter].
  assert (is_media_step step = is_image_file (OsPath.join step.1 step.2))
    as -> by done.
  destruct (is_image_file _); simpl; lia.
Qed.

Lemma run_steps_app destination_folder copy_files steps1 steps2 s :
  run_steps destination_folder copy_files (steps1 ++ steps2) s
  = run_steps destination_folder copy_files steps2
      (run_steps destination_folder copy_files steps1 s).
Proof. unfold run_steps. by rewrite foldl_app. Qed.

Lemma files_loop_steps destination_folder root filenames copy_files s :
  files_loop destination_folder root filenames copy_files s
  = run_steps destination_folder copy_files (map (pair root) filenames) s.
Proof.
  unfold files_loop, run_steps. revert s.
  induction filenames as [|x l IH]; intros s; [done|]. simpl. apply IH.
Qed.

Lemma process_dir_steps destination_folder dest_normalized copy_files s item :
  process_dir destination_folder dest_normalized copy_files s item
  = run_steps destination_folder copy_files
      (dir_steps (cwd s.2) dest_normalized item) s.
Proof.
  destruct item as [[root dirs] filenames].
  unfold process_dir, dir_steps, normalized. simpl.
  destruct (in_destination _ _); [done|]. apply files_loop_steps.
Qed.

Lemma file_steps_cons cwd dest_normalized item walk :
  file_steps cwd dest_normalized (item :: walk)
  = dir_steps cwd dest_normalized item ++ file_steps cwd dest_normalized walk.
Proof. by destruct item as [[root dirs] filenames]. Qed.

(** The walk processes exactly the files of [file_steps], in order. *)
Lemma walk_as_steps destination_folder dest_normalized copy_files walk s :
  foldl (process_dir destination_folder dest_normalized copy_files) s walk
  = run_steps destination_folder copy_files
      (file_steps (cwd s.2) dest_normalized walk) s.
Proof.
  revert s. induction walk as [|item walk IH]; intros s; [done|].
  cbn [foldl]. rewrite IH, file_steps_cons, run_steps_app.
  rewrite process_dir_steps. by rewrite run_steps_cwd.
Qed.

Lemma organize_photos_steps walk w source_folder destination_folder copy_files :
  let dest := match destination_folder with
              | None => OsPath.join source_folder "Organized"
              | Some d => d
              end in
  organize_photos walk w source_folder destination_folder copy_files
  = run_steps dest copy_files (file_steps (cwd w) (normalized w dest) walk)
      (mkStats 0 0 0 [], w).
Proof. intros dest. unfold organize_photos. by rewrite walk_as_steps. Qed.

(** A directory inside the destination, by the test of the script, leaves
    the statistics and the file system as they are. *)
Lemma process_dir_skipped destination_folder dest_normalized copy_files s
    root dirs filenames :
  in_destination dest_normalized (normalized s.2 root) = true →
  process_dir destination_folder dest_normalized copy_files s
    (root, dirs, filenames) = s.
Proof. intros H. unfold process_dir. by rewrite H. Qed.

Lemma file_try_unfold w destination_folder file_path filename copy_files :
  file_try w destination_folder file_path filename copy_files
  = match get_photo_date w file_path with
    | Raise e => (w, Raise e)
    | Ok photo_date =>
        let target_dir := target_dir_of destination_folder file_path photo_date in
        match os_makedirs w target_dir with
        | Raise e => (w, Raise e)
        | Ok w1 =>
            let target_path := choose_target w1 target_dir filename in
            match (if copy_files then shutil_copy2 w1 file_path target_path
                   else shutil_move w1 file_path target_path) with
            | Raise e => (w1, Raise e)
            | Ok w2 => (w2, Ok target_path)
            end
        end
    end.
Proof. reflexivity. Qed.

Lemma os_makedirs_files w target_dir w1 p st exif :
  os_makedirs w target_dir = Ok w1 →
  nodes w1 !! p = Some (File st exif) → nodes w !! p = Some (File st exif).
Proof.
  unfold os_makedirs.
  destruct (nodes w !! target_dir) as [[]|] eqn:E; try done.
  - by intros [= <-].
  - case_bool_decide; [done|]. intros [= <-]. simpl.
    destruct (decide (target_dir = p)) as [->|Hne].
    + by rewrite lookup_insert_eq.
    + by rewrite lookup_insert_ne.
Qed.

(** A file that is filed lands on a path where nothing was, and what is
    there afterwards has the content of the source: its size and its EXIF
    data. *)
Lemma file_try_filed w destination_folder file_path filename copy_files w' filed :
  file_try w destination_folder file_path filename copy_files = (w', Ok filed) →
  os_path_exists w filed = false
  ∧ ∃ st exif,
      nodes w !! file_path = Some (File st exif)
      ∧ nodes w' !! filed
        = Some (File (if copy_files then copied_stat w st else moved_stat w st)
                  exif).
Proof.
  rewrite file_try_unfold.
  destruct (get_photo_date w file_path) as [photo_date|e]; [|done]. cbv zeta.
  destruct (os_makedirs w _) as [w1|e] eqn:Hmk; [|done].
  match goal with |- context [choose_target w1 ?d ?f] =>
    pose proof (choose_target_spec w1 d f) as [Hfree _];
    set (target_path := choose_target w1 d f) in * end.
  destruct (if copy_files then shutil_copy2 w1 file_path target_path
            else shutil_move w1 file_path target_path) as [w2|e] eqn:Hcp;
    [|done].
  intros [= <- <-].
  pose proof (os_makedirs_nodes _ _ _ Hmk) as [Hsub _].
  pose proof (os_makedirs_clock _ _ _ Hmk) as [Hnow Hnt].
  split.
  { unfold os_path_exists in *. apply bool_decide_eq_false.
    apply bool_decide_eq_false in Hfree. intros [n Hn]. apply Hfree.
    exists n. by apply (lookup_weaken _ _ _ _ Hn Hsub). }
  assert (Hsrc : ∃ st exif,
            nodes w1 !! file_path = Some (File st exif)
            ∧ nodes w2 !! target_path
              = Some (File (if copy_files then copied_stat w1 st
                            else moved_stat w1 st) exif)).
  { destruct copy_files; unfold shutil_copy2, shutil_move in Hcp;
      rewrite !(real_dst_free w1 target_path _ Hfree) in Hcp;
      destruct (nodes w1 !! file_path) as [[st exif|]|]; try done;
      case_bool_decide; try done; injection Hcp as <-; simpl;
      exists st, exif; by rewrite lookup_insert_eq. }
  destruct Hsrc as (st & exif & Hsrc & Hdst).
  apply (os_makedirs_files _ _ _ _ _ _ Hmk) in Hsrc.
  exists st, exif. split; [done|]. rewrite Hdst.
  unfold copied_stat, moved_stat. by rewrite Hnow, Hnt.
Qed.

(** ** Example trees for the filing run *)

(** ** The claims about the filing run *)

(** C2: the name a file is filed under is its own when nothing is at the
    target path, and otherwise base_N.ext for the smallest N >= 1 at which
    nothing is; the path chosen is never one that exists; a file that is
    filed lands where nothing was and carries the content of its source;
    and what was on disk before a file is processed is still there
    afterwards (but for the source itself when moving).  Three files colliding on x.jpg are filed
    as x.jpg, x_1.jpg and x_2.jpg, each a copy of its own source. *)
Theorem C2_collision_safe_naming (w : world)
    (target_dir filename destination_folder root : string)
    (copy_files : bool) (stats : Stats) :
  let target_path := choose_target w target_dir filename in
  let base := (OsPath.splitext filename).1 in
  let ext := (OsPath.splitext filename).2 in
  os_path_exists w target_path = false
  ∧ ((os_path_exists w (OsPath.join target_dir filename) = false
      ∧ target_path = OsPath.join target_dir filename)
     ∨ (os_path_exists w (OsPath.join target_dir filename) = true
        ∧ ∃ N, 1 ≤ N
            ∧ target_path
              = OsPath.join target_dir (base +:+ "_" +:+ pretty N +:+ ext)
            ∧ Forall (λ M, os_path_exists w
                             (OsPath.join target_dir
                                (base +:+ "_" +:+ pretty M +:+ ext)) = true)
                     (seq 1 (N - 1))))
  ∧ match file_try w destination_folder (OsPath.join root filename) filename
            copy_files with
    | (w', Ok filed) =>
        os_path_exists w filed = false
        ∧ ∃ st exif,
            nodes w !! OsPath.join root filename = Some (File st exif)
            ∧ nodes w' !! filed
              = Some (File (if copy_files then copied_stat w st
                            else moved_stat w st) exif)
    | (_, Raise _) => True
    end
  ∧ (if copy_files then nodes w
     else delete (OsPath.join root filename) (nodes w))
    ⊆ nodes (process_file destination_folder root filename copy_files
               (stats, w)).2
  ∧ (let r := organize_photos collision_walk collision_tree "/src"
                (Some "/out") true in
     r.1 = mkStats 3 3 0 []
     ∧ nodes r.2 !! "/out/2024/20240309/JPG/x.jpg"
       = Some (File (copied_stat collision_tree (example_stat 1)) None)
     ∧ nodes r.2 !! "/out/2024/20240309/JPG/x_1.jpg"
       = Some (File (copied_stat collision_tree (example_stat 2)) None)
     ∧ nodes r.2 !! "/out/2024/20240309/JPG/x_2.jpg"
       = Some (File (copied_stat collision_tree (example_stat 3)) None)).
Proof.
  intros target_path base ext.
  destruct (choose_target_spec w target_dir filename) as [Hfree Hname].
  split; [exact Hfree|]. split; [exact Hname|]. split.
  { destruct (file_try w destination_folder (OsPath.join root filename)
                filename copy_files) as [w' [filed|e]] eqn:Htry; [|done].
    by apply file_try_filed in Htry. }
  split.
  - pose proof (process_file_outcome destination_folder root filename
                  copy_files stats w) as H. cbv zeta in H.
    destruct (is_image_file _).
    + destruct H as [-> _]. apply file_try_nodes.
    + rewrite H. simpl. destruct copy_files; [done|apply delete_subseteq].
  - vm_compute. repeat split.
Qed.

(** C5 fails when the destination is a root directory: the test
    [startswith(dest_normalized + os.sep)] looks for two separators.  With
    destination [/], the second pass goes through
    [/2024/20240309/JPG], which lies under the destination, counts the
    photo the first pass filed there and files it again, under the day of
    the first pass; with the destination [/photos/Organized] the same pass
    skips the directory. *)
Theorem C5_root_destination_refiled :
  let first := organize_photos root_walk_first root_tree "/" (Some "/") true in
  let second := organize_photos root_walk_second first.2 "/" (Some "/") true in
  first.1 = mkStats 1 1 0 []
  ∧ is_Some (nodes first.2 !! "/2024/20240309/JPG/x.jpg")
  ∧ Pathlib.parts (Pathlib.parse (normalized first.2 "/"))
    `prefix_of`
    Pathlib.parts (Pathlib.parse (normalized first.2 "/2024/20240309/JPG"))
  ∧ in_destination (normalized first.2 "/")
      (normalized first.2 "/2024/20240309/JPG") = false
  ∧ file_steps "/" (normalized first.2 "/") root_walk_second
    = [("/2024/20240309/JPG", "x.jpg"); ("/photos", "x.jpg")]
  ∧ (file_try first.2 "/" "/2024/20240309/JPG/x.jpg" "x.jpg" true).2
    = Ok "/2024/20240310/JPG/x.jpg"
  ∧ second.1 = mkStats 2 2 0 []
  ∧ nodes first.2 !! "/2024/20240310/JPG/x.jpg" = None
  ∧ is_Some (nodes second.2 !! "/2024/20240310/JPG/x.jpg")
  ∧ (let first' := organize_photos [("/photos", [], ["x.jpg"])] root_tree
                     "/photos" None true in
     let second' := organize_photos organized_walk_second first'.2
                      "/photos" None true in
     is_Some (nodes first'.2 !! "/photos/Organized/2024/20240309/JPG/x.jpg")
     ∧ in_destination (normalized first'.2 "/photos/Organized")
         (normalized first'.2 "/photos/Organized/2024/20240309/JPG") = true
     ∧ file_steps "/" (normalized first'.2 "/photos/Organized")
         organized_walk_second = [("/photos", "x.jpg")]
     ∧ second'.1 = mkStats 1 1 0 []).
Proof.
  cbv zeta. split; [vm_compute; reflexivity|].
  split; [vm_compute; eexists; reflexivity|]. split.
  { exists ["2024"; "20240309"; "jpg"]. vm_compute. reflexivity. }
  split; [vm_compute; reflexivity|].
  split; [vm_compute; reflexivity|].
  split; [vm_compute; reflexivity|].
  split; [vm_compute; reflexivity|].
  split; [vm_compute; reflexivity|].
  split; [vm_compute; eexists; reflexivity|].
  split; [vm_compute; eexists; reflexivity|].
  split; [vm_compute; reflexivity|].
  split; vm_compute; reflexivity.
Qed.




(** * Further properties of the duplicate scan *)

(** ** Names too different in length, names equal up to case *)

Lemma map_length (f : ascii → ascii) (s : string) :
  String.length (Str.map f s) = String.length s.
Proof. induction s as [|c s IH]; simpl; congruence. Qed.

Lemma chars_length (s : string) : length (Str.chars s) = String.length s.
Proof. induction s as [|c s IH]; simpl; congruence. Qed.

Lemma lower_chars_length (name : string) :
  length (Str.chars (Str.lower name)) = String.length name.
Proof. unfold Str.lower. by rewrite chars_length, map_length. Qed.

Lemma calculate_ratio_below M L :
  0 < L → 5 * M < 2 * L →
  (Difflib.calculate_ratio M L < SIMILARITY_THRESHOLD)%Q.
Proof.
  intros HL H. unfold Difflib.calculate_ratio.
  destruct (L =? 0) eqn:E; [apply Nat.eqb_eq in E; lia|].
  unfold Qlt, SIMILARITY_THRESHOLD; simpl Qnum; simpl Qden.
  rewrite <- (positive_nat_Z (Pos.of_nat L)), Nat2Pos.id by lia.
  lia.
Qed.

Lemma similar_false file1 file2 :
  (filename_similarity (base_name file1) (base_name file2)
   < SIMILARITY_THRESHOLD)%Q →
  similar file1 file2 = false.
Proof.
  intros H. unfold similar.
  destruct (Qle_bool _ _) eqn:E; [|done].
  apply Qle_bool_iff in E. exfalso. by apply (Qlt_not_le _ _ H).
Qed.



Lemma similar_same_name file1 file2 :
  Str.lower (base_name file1) = Str.lower (base_name file2) →
  similar file1 file2 = true.
Proof.
  intros H. unfold similar, filename_similarity. rewrite H.
  apply Qle_bool_iff. rewrite ratio_self. discriminate.
Qed.

Lemma filter_all {A} (f : A → bool) (l : list A) :
  (∀ x, x ∈ l → f x = true) → List.filter f l = l.
Proof.
  induction l as [|x l IH]; intros H; [done|]. simpl.
  rewrite (H x) by left. f_equal. apply IH. intros y Hy. apply H. by right.
Qed.

Lemma emitted_clusters_all {A} (sim : A → A → bool) (l : list A) :
  2 ≤ length l →
  (∀ x y, x ∈ l → y ∈ l → sim x y = true) →
  emitted_clusters sim l = [l].
Proof.
  destruct l as [|seed rest]; simpl; intros Hlen Hall; [lia|].
  rewrite emitted_clusters_cons.
  rewrite (filter_all (sim seed)).
  2:{ intros x Hx. apply Hall; [left|by right]. }
  rewrite filter_none.
  2:{ intros x Hx. apply negb_false_iff, Hall; [left|by right]. }
  rewrite emitted_clusters_nil, app_nil_r.
  destruct (1 <? length (seed :: rest)) eqn:E; [done|].
  apply Nat.ltb_ge in E. simpl in E. lia.
Qed.

(** X2: the files of a folder that have the same size, the same extension
    up to case and the same base name up to case are reported, all of them
    and in the order of the listing, as one cluster: when the files of an
    (extension, size) group all bear one base name, the group is one
    cluster of the result. *)
Theorem same_name_files_one_cluster (w : world) (folder_path : string)
    (d : dict) (g : groups) (key : string * nat) (fs : list FileInfo) :
  find_duplicates_in_folder w folder_path = Ok d →
  size_ext_groups w folder_path = Ok g →
  (key, fs) ∈ g →
  2 ≤ length fs →
  (∀ f f', f ∈ fs → f' ∈ fs →
     Str.lower (base_name f) = Str.lower (base_name f')) →
  mkGroup folder_path key.1 key.2 fs ∈ dict_values d.
Proof.
  intros Hd Hg Hin Hlen Hsame.
  destruct (find_duplicates_in_folder_spec _ _ _ Hd) as (g' & Hg' & ->).
  rewrite Hg in Hg'. injection Hg' as <-.
  apply list_elem_of_In, List.in_flat_map. exists (key, fs).
  split; [by apply list_elem_of_In|]. apply list_elem_of_In.
  unfold group_clusters. simpl.
  rewrite emitted_clusters_all; [left|done|].
  intros x y Hx Hy. apply similar_same_name. by apply Hsame.
Qed.

Lemma same_name_files_one_cluster_witness :
  mkGroup "/p" ".jpg" 100 [pair_record "x.jpg"; pair_record "X.JPG"]
  ∈ dict_values
      (match find_duplicates_in_folder (pair_folder "x.jpg" "X.JPG") "/p" with
       | Ok d => d
       | Raise _ => []
       end).
Proof.
  apply (same_name_files_one_cluster (pair_folder "x.jpg" "X.JPG") "/p" _
           [((".jpg", 100), [pair_record "x.jpg"; pair_record "X.JPG"])]
           (".jpg", 100) [pair_record "x.jpg"; pair_record "X.JPG"]).
  - vm_compute. reflexivity.
  - vm_compute. reflexivity.
  - left.
  - simpl. lia.
  - intros f f' Hf Hf'.
    rewrite !elem_of_cons, elem_of_nil in Hf.
    rewrite !elem_of_cons, elem_of_nil in Hf'.
    destruct Hf as [->|[->|[]]]; destruct Hf' as [->|[->|[]]];
      vm_compute; reflexivity.
Defined.

(** ** The first matching block is a longest common run *)

Section LongestRun.
Import Difflib.

Variables a b : list ascii.

Hypothesis Hshort : length b < 200.

Local Abbreviation run := (run_ending a b).

Lemma b2j_short c : b2j b c = positions c b 0.
Proof.
  unfold b2j, popular. cbv zeta.
  destruct (200 <=? length b) eqn:E; [|done].
  apply Nat.leb_le in E. lia.
Qed.

Lemma run_shorter alo blo i j v :
  run alo blo (S i) (S j) (S v) → run alo blo i j v.
Proof.
  intros (H1 & H2 & H3). split; [lia|]. split; [lia|].
  intros t Ht. apply (H3 (S t)). lia.
Qed.

Lemma run_head alo blo i j v :
  run alo blo i j (S v) → is_Some (a !! i) ∧ a !! i = b !! j.
Proof.
  intros (_ & _ & H). specialize (H 0). rewrite !Nat.sub_0_r in H.
  apply H. lia.
Qed.

Lemma row_covers_prev alo blo bhi i new :
  (∀ j v, blo ≤ j → j < bhi → run alo blo i j v →
          v ≤ default 0 (new !! j)) →
  prev_covers a b alo blo bhi (S i) new.
Proof.
  intros Hrow j v Hj1 Hj2 Hrun. destruct v as [|v]; [lia|].
  destruct j as [|j].
  { destruct Hrun as (_ & H & _). lia. }
  cbn [j2lenget]. apply Hrow; [|lia|by apply run_shorter].
  destruct Hrun as (_ & H & _). lia.
Qed.

Lemma row_loop_covers js alo blo bhi i prev new best new' best' :
  StronglySorted lt js →
  prev_covers a b alo blo bhi i prev →
  row_loop js blo bhi i prev new best = (new', best') →
  (∀ j v, j ∈ js → blo ≤ j → j < bhi → run alo blo i j v →
          v ≤ default 0 (new' !! j) ∧ v ≤ m_size best')
  ∧ m_size best ≤ m_size best'
  ∧ (∀ j, (∀ j', j' ∈ js → j < j') → new' !! j = new !! j).
Proof.
  intros Hsorted Hprev. revert new best.
  induction Hsorted as [|j js Hsorted IH Hlt]; intros new best Hrun;
    cbn [row_loop] in Hrun.
  { simplify_eq. split; [by intros j v ?%elem_of_nil|]. by split. }
  rewrite Forall_forall in Hlt.
  destruct (j <? blo) eqn:E1.
  { apply Nat.ltb_lt in E1.
    destruct (IH _ _ Hrun) as (H1 & H2 & H3). split; [|split; [done|]].
    - intros j0 v [->|Hj0]%elem_of_cons ? ? ?; [lia|]. by apply H1.
    - intros j0 Hj0. apply H3. intros j' Hj'. apply Hj0. by right. }
  destruct (bhi <=? j) eqn:E2.
  { apply Nat.leb_le in E2. simplify_eq. split; [|by split].
    intros j0 v [->|Hj0]%elem_of_cons ? ? ?; [lia|].
    specialize (Hlt _ Hj0). lia. }
  apply Nat.ltb_ge in E1. apply Nat.leb_gt in E2.
  destruct (IH _ _ Hrun) as (H1 & H2 & H3).
  assert (Hbest : j2lenget prev j + 1 ≤ m_size best').
  { etrans; [|exact H2]. destruct (m_size best <? _) eqn:E; [done|].
    apply Nat.ltb_ge in E. lia. }
  split; [|split].
  - intros j0 v [->|Hj0]%elem_of_cons Hb1 Hb2 Hv; [|by apply H1].
    rewrite H3 by (intros j' Hj'; by apply Hlt).
    rewrite lookup_insert_eq. simpl.
    assert (v ≤ j2lenget prev j + 1); [|lia].
    destruct v as [|v]; [lia|].
    specialize (Hprev j v Hb1 Hb2 Hv). lia.
  - etrans; [|exact H2]. destruct (m_size best <? _) eqn:E; [|done].
    apply Nat.ltb_lt in E. simpl. lia.
  - intros j0 Hj0. rewrite H3.
    + apply lookup_insert_ne.
      assert (j0 < j) by (apply Hj0; left). lia.
    + intros j' Hj'. apply Hj0. by right.
Qed.

Lemma rows_loop_covers alo blo bhi n i prev best :
  prev_covers a b alo blo bhi i prev →
  best_covers a b alo blo bhi i best →
  best_covers a b alo blo bhi (i + n)
    (rows_loop a b blo bhi (seq i n) prev best).
Proof.
  revert i prev best.
  induction n as [|n IH]; intros i prev best Hprev Hbest.
  { by rewrite Nat.add_0_r. }
  cbn [seq rows_loop]. replace (i + S n) with (S i + n) by lia.
  destruct (a !! i) as [c|] eqn:Ha.
  - rewrite b2j_short.
    destruct (row_loop (positions c b 0) blo bhi i prev ∅ best)
      as [new' best'] eqn:Hrun.
    destruct (row_loop_covers _ alo _ _ _ _ _ _ _ _
                (positions_sorted c b 0) Hprev Hrun) as (H1 & H2 & H3).
    assert (Hrow : ∀ j v, blo ≤ j → j < bhi → run alo blo i j v →
              v ≤ default 0 (new' !! j) ∧ v ≤ m_size best').
    { intros j v Hj1 Hj2 Hv. destruct v as [|v]; [lia|].
      apply H1; [|done..].
      destruct (run_head _ _ _ _ _ Hv) as [_ Heq].
      apply elem_of_positions. exists j. split; [done|]. congruence. }
    apply IH.
    + apply row_covers_prev. intros j v ? ? ?. by apply Hrow.
    + intros i' j v Hi' Hj1 Hj2 Hv.
      destruct (decide (i' = i)) as [->|Hne]; [by apply (Hrow j v)|].
      etrans; [|exact H2]. apply (Hbest i' j); [lia|done..].
  - cbn [row_loop]. apply IH.
    + apply row_covers_prev. intros j v _ _ Hv.
      destruct v as [|v]; [lia|].
      destruct (run_head _ _ _ _ _ Hv) as [[x Hx] _]. congruence.
    + intros i' j v Hi' Hj1 Hj2 Hv.
      destruct (decide (i' = i)) as [->|Hne]; [|apply (Hbest i' j); [lia|done..]].
      destruct v as [|v]; [lia|].
      destruct (run_head _ _ _ _ _ Hv) as [[x Hx] _]. congruence.
Qed.

Lemma extend_left_size alo blo p besti bestj bestsize :
  bestsize ≤ m_size (extend_left a b alo blo p besti bestj bestsize).
Proof.
  revert bestj bestsize.
  induction besti as [|i' IH]; intros bestj bestsize; [done|].
  destruct bestj as [|j']; [done|]. cbn [extend_left].
  destruct (_ && _); [|done]. etrans; [|apply IH]. lia.
Qed.

Lemma extend_right_size fuel ahi bhi p besti bestj bestsize :
  bestsize ≤ extend_right fuel a b ahi bhi p besti bestj bestsize.
Proof.
  revert bestsize. induction fuel as [|fuel IH]; intros bestsize; [done|].
  cbn [extend_right]. destruct (_ && _); [|done]. etrans; [|apply IH]. lia.
Qed.

Lemma extend_size alo ahi blo bhi p m :
  m_size m ≤ m_size (extend a b alo ahi blo bhi p m).
Proof.
  unfold extend. cbn [m_size].
  etrans; [|apply extend_right_size]. apply extend_left_size.
Qed.

(** The block found in a window is as long as any common run that lies
    in the window. *)
Lemma find_longest_match_longest alo ahi blo bhi i j v :
  i < ahi → blo ≤ j → j < bhi → run alo blo i j v →
  v ≤ m_size (find_longest_match a b alo ahi blo bhi).
Proof.
  intros Hi Hj1 Hj2 Hv. unfold find_longest_match.
  etrans; [|apply extend_size]. etrans; [|apply extend_size].
  destruct (decide (alo ≤ i)) as [Hle|Hgt].
  2:{ destruct Hv as (H & _). lia. }
  assert (Hcov : best_covers a b alo blo bhi (alo + (ahi - alo))
            (rows_loop a b blo bhi (seq alo (ahi - alo)) ∅
               (mkMatch alo blo 0))).
  { apply rows_loop_covers.
    - intros j0 v0 _ _ (H & _). lia.
    - intros i' j0 v0 Hi' _ _ (H & _). lia. }
  apply (Hcov i j v); [lia|done..].
Qed.

Lemma blocks_loop_grows fuel queue ms :
  matches_total ms ≤ matches_total (blocks_loop fuel a b queue ms).
Proof.
  revert queue ms. induction fuel as [|fuel IH]; intros queue ms; [done|].
  destruct queue as [|r q]; [done|]. rewrite blocks_loop_step. cbv zeta.
  destruct (_ =? 0); [apply IH|].
  etrans; [|apply IH]. rewrite matches_total_snoc. lia.
Qed.

(** The characters in matching blocks are at least those of the longest
    common run. *)
Lemma matches_total_longest i j v :
  (∀ t, t < v → is_Some (a !! (i + t)) ∧ a !! (i + t) = b !! (j + t)) →
  v ≤ matches_total (get_matching_blocks a b).
Proof.
  intros Hv. destruct v as [|v]; [lia|].
  rewrite get_matching_blocks_total.
  replace (2 * length a + 1) with (S (2 * length a)) by lia.
  rewrite blocks_loop_step. cbn [alo ahi blo bhi]. cbv zeta.
  assert (Hlong : S v ≤ m_size (find_longest_match a b 0 (length a)
                                   0 (length b))).
  { apply (find_longest_match_longest 0 _ 0 _ (i + v) (j + v)).
    - destruct (Hv v) as [[x Hx] _]; [lia|].
      by apply lookup_lt_Some in Hx.
    - lia.
    - destruct (Hv v) as [[x Hx] Heq]; [lia|].
      rewrite Heq in Hx. by apply lookup_lt_Some in Hx.
    - split; [lia|]. split; [lia|]. intros t Ht.
      replace (i + v - t) with (i + (v - t)) by lia.
      replace (j + v - t) with (j + (v - t)) by lia.
      apply Hv. lia. }
  destruct (_ =? 0) eqn:E; [apply Nat.eqb_eq in E; lia|].
  etrans; [|apply blocks_loop_grows]. rewrite matches_total_snoc.
  change (matches_total []) with 0. lia.
Qed.

End LongestRun.

Lemma chars_app (s t : string) :
  Str.chars (s +:+ t) = Str.chars s ++ Str.chars t.
Proof. induction s as [|c s IH]; simpl; [done|]. by f_equal. Qed.

Lemma common_run_chars (u c v u' v' : string) t :
  t < String.length c →
  is_Some (Str.chars (u +:+ c +:+ v) !! (String.length u + t))
  ∧ Str.chars (u +:+ c +:+ v) !! (String.length u + t)
    = Str.chars (u' +:+ c +:+ v') !! (String.length u' + t).
Proof.
  intros Ht. rewrite <- chars_length in Ht.
  assert (Hat : ∀ x y, Str.chars (x +:+ c +:+ y) !! (String.length x + t)
                       = Str.chars c !! t).
  { intros x y. rewrite !chars_app, <- chars_length.
    rewrite lookup_app_r by lia.
    replace (length (Str.chars x) + t - length (Str.chars x)) with t by lia.
    by rewrite lookup_app_l. }
  rewrite !Hat. split; [|done]. by apply lookup_lt_is_Some.
Qed.

Lemma calculate_ratio_above M L k :
  k ≤ M → 2 * M ≤ L →
  (Z.of_nat (2 * k) # Pos.of_nat L <= Difflib.calculate_ratio M L)%Q.
Proof.
  intros H HL. unfold Difflib.calculate_ratio.
  destruct (L =? 0) eqn:E.
  - apply Nat.eqb_eq in E. subst L. unfold Qle; simpl Qnum; simpl Qden. lia.
  - unfold Qle; simpl Qnum; simpl Qden. nia.
Qed.

Lemma similarity_common_run (name1 name2 u1 c v1 u2 v2 : string) :
  String.length name2 < 200 →
  Str.lower name1 = u1 +:+ c +:+ v1 →
  Str.lower name2 = u2 +:+ c +:+ v2 →
  (Z.of_nat (2 * String.length c)
     # Pos.of_nat (String.length name1 + String.length name2)
   <= filename_similarity name1 name2)%Q.
Proof.
  intros Hshort H1 H2. unfold filename_similarity, Difflib.ratio.
  rewrite <- (lower_chars_length name1), <- (lower_chars_length name2).
  apply calculate_ratio_above.
  - assert (Hb : length (Str.chars (Str.lower name2)) < 200)
      by (by rewrite lower_chars_length).
    apply (matches_total_longest _ _ Hb (String.length u1) (String.length u2)).
    intros t Ht. rewrite H1, H2. by apply common_run_chars.
  - destruct (matches_total_bound (Str.chars (Str.lower name1))
                (Str.chars (Str.lower name2))). lia.
Qed.





(** * Further properties of date resolution *)

Lemma raw_form_media ext :
  ext ∈ raw_forms → Str.lower ext ∈ image_extensions.
Proof.
  unfold raw_forms. intros H.
  repeat (apply elem_of_cons in H as [->|H]; [by_compute|]).
  by apply elem_of_nil in H.
Qed.

(** X5: an image and the companion RAW file found for it resolve to the
    same date, so the two are filed under the same year and day; the
    companion is itself a media file. *)
Theorem companion_same_date (w : world) (image_path raw_file : string) :
  Str.lower (Pathlib.suffix (Pathlib.parse image_path))
    ∈ raw_sibling_extensions →
  find_matching_raw_file w image_path = Some raw_file →
  get_photo_date w image_path = get_photo_date w raw_file
  ∧ is_image_file raw_file = true.
Proof.
  intros Hsib Hfind.
  pose proof (find_matching_raw_file_suffix w image_path raw_file
                (sibling_stem_nonempty _ Hsib) Hfind) as Hraw.
  split.
  - rewrite get_photo_date_sibling, Hfind by done.
    unfold get_photo_date at 1.
    rewrite bool_decide_eq_false_2; [done|].
    by apply raw_form_not_sibling.
  - unfold is_image_file. apply bool_decide_eq_true. by apply raw_form_media.
Qed.

Lemma companion_same_date_witness :
  get_photo_date companion_folder "/p/photo.jpg"
  = get_photo_date companion_folder "/p/photo.NEF"
  ∧ is_image_file "/p/photo.NEF" = true.
Proof.
  apply (companion_same_date companion_folder "/p/photo.jpg" "/p/photo.NEF").
  - by_compute.
  - vm_compute. reflexivity.
Defined.

Lemma exif_get_cons tag tag' value rest :
  exif_get tag ((tag', value) :: rest)
  = if (tag' =? tag)%N then Some value else exif_get tag rest.
Proof. unfold exif_get. simpl. by destruct (tag' =? tag)%N. Qed.

Lemma exif_get_absent tag rest :
  tag ∉ rest.*1 → exif_get tag rest = None.
Proof.
  induction rest as [|[t v] rest IH]; [done|]. intros Hn.
  rewrite exif_get_cons. destruct (t =? tag)%N eqn:E.
  - apply N.eqb_eq in E. subst. exfalso. apply Hn. left.
  - apply IH. intros H. apply Hn. by right.
Qed.

(** What the loop over the tags leaves, by the values of the two tags. *)
Lemma exif_loop_by_tags items date_taken date_digitized :
  NoDup items.*1 →
  exif_loop items date_taken date_digitized
  = match exif_get TAG_DateTimeOriginal items with
    | Some vo =>
        match Time.strptime vo with
        | None => None
        | Some d =>
            match exif_get TAG_DateTimeDigitized items with
            | Some vd =>
                match Time.strptime vd with
                | None => None
                | Some d' => Some (Some d, Some d')
                end
            | None => Some (Some d, date_digitized)
            end
        end
    | None =>
        match exif_get TAG_DateTimeDigitized items with
        | Some vd =>
            match Time.strptime vd with
            | None => None
            | Some d' => Some (date_taken, Some d')
            end
        | None => Some (date_taken, date_digitized)
        end
    end.
Proof.
  revert date_taken date_digitized.
  induction items as [|[tag value] rest IH]; intros dt dd Hnd; [done|].
  apply NoDup_cons in Hnd as [Hfresh Hnd]. simpl in Hfresh.
  cbn [exif_loop]. rewrite !exif_get_cons.
  destruct (tag =? TAG_DateTimeOriginal)%N eqn:E1.
  - apply N.eqb_eq in E1. subst tag.
    change (TAG_DateTimeOriginal =? TAG_DateTimeDigitized)%N with false.
    destruct (Time.strptime value) as [d|]; [|done].
    rewrite IH by done. by rewrite (exif_get_absent _ _ Hfresh).
  - destruct (tag =? TAG_DateTimeDigitized)%N eqn:E2; [|by apply IH].
    apply N.eqb_eq in E2. subst tag.
    destruct (Time.strptime value) as [d'|] eqn:Ed.
    + rewrite IH by done. rewrite (exif_get_absent _ _ Hfresh).
      by destruct (exif_get TAG_DateTimeOriginal rest) as [vo|];
        [destruct (Time.strptime vo)|].
    + by destruct (exif_get TAG_DateTimeOriginal rest) as [vo|];
        [destruct (Time.strptime vo)|].
Qed.

(** X6: the date read from the EXIF data of a file depends on the
    values of the two tags only, not on where they stand among the tags:
    it is the date taken when there is one, else the date digitized, and
    there is none as soon as one of the two tags has a value that is not a
    date. *)
Theorem exif_date_by_tags (w : world) (image_path : string)
    (st : stat_result) (exif_data : exif_dict) :
  nodes w !! image_path = Some (File st (Some exif_data)) →
  NoDup exif_data.*1 →
  get_exif_date w image_path
  = match exif_get TAG_DateTimeOriginal exif_data,
          exif_get TAG_DateTimeDigitized exif_data with
    | Some vo, Some vd =>
        match Time.strptime vo, Time.strptime vd with
        | Some d, Some _ => Some d
        | _, _ => None
        end
    | Some vo, None => Time.strptime vo
    | None, Some vd => Time.strptime vd
    | None, None => None
    end.
Proof.
  intros Hnode Hnd. unfold get_exif_date. rewrite Hnode.
  case_bool_decide as Hnil; [by subst|].
  rewrite exif_loop_by_tags by done.
  destruct (exif_get TAG_DateTimeOriginal exif_data) as [vo|];
    destruct (exif_get TAG_DateTimeDigitized exif_data) as [vd|];
    try destruct (Time.strptime vo); try destruct (Time.strptime vd); done.
Qed.

Lemma exif_date_by_tags_witness :
  get_exif_date companion_folder "/p/photo.NEF"
  = Some (Time.mkDatetime 2020 1 2 3 4 5).
Proof.
  rewrite (exif_date_by_tags companion_folder "/p/photo.NEF"
             (example_stat 900)
             [(271%N, "NIKON"); (36868%N, "2020:01:02 03:04:06");
              (36867%N, "2020:01:02 03:04:05")]).
  - vm_compute. reflexivity.
  - vm_compute. reflexivity.
  - apply (bool_decide_eq_true_1 _). vm_compute. reflexivity.
Defined.

Lemma exif_loop_malformed items date_taken date_digitized tag value :
  (tag, value) ∈ items →
  tag = TAG_DateTimeOriginal ∨ tag = TAG_DateTimeDigitized →
  Time.strptime value = None →
  exif_loop items date_taken date_digitized = None.
Proof.
  intros Hin Htag Hbad. revert date_taken date_digitized.
  induction items as [|[t v] rest IH]; intros dt dd.
  { by apply elem_of_nil in Hin. }
  cbn [exif_loop]. apply elem_of_cons in Hin as [[= <- <-]|Hin].
  - destruct Htag as [->| ->].
    + change (TAG_DateTimeOriginal =? TAG_DateTimeOriginal)%N with true.
      cbv iota. by rewrite Hbad.
    + change (TAG_DateTimeDigitized =? TAG_DateTimeOriginal)%N with false.
      change (TAG_DateTimeDigitized =? TAG_DateTimeDigitized)%N with true.
      cbv iota. by rewrite Hbad.
  - destruct (t =? TAG_DateTimeOriginal)%N.
    + destruct (Time.strptime v); [by apply IH|done].
    + destruct (t =? TAG_DateTimeDigitized)%N; [|by apply IH].
      destruct (Time.strptime v); [by apply IH|done].
Qed.

(** X7: when the date taken or the date digitized of a file has a value
    that is not a date, no date is read from its EXIF data, be the other
    tag a valid date; a file that is not the companion kind (a RAW file for
    one) is then filed by its creation date. *)
Theorem malformed_exif_date_discards_both (w : world) (image_path : string)
    (st : stat_result) (exif_data : exif_dict) (tag : N) (value : string) :
  nodes w !! image_path = Some (File st (Some exif_data)) →
  (tag, value) ∈ exif_data →
  tag = TAG_DateTimeOriginal ∨ tag = TAG_DateTimeDigitized →
  Time.strptime value = None →
  get_exif_date w image_path = None
  ∧ (Str.lower (Pathlib.suffix (Pathlib.parse image_path))
       ∉ raw_sibling_extensions →
     get_photo_date w image_path = get_file_creation_date w image_path).
Proof.
  intros Hnode Hin Htag Hbad.
  assert (Hnone : get_exif_date w image_path = None).
  { unfold get_exif_date. rewrite Hnode. case_bool_decide; [done|].
    by rewrite (exif_loop_malformed _ _ _ tag value). }
  split; [done|]. intros Hext. unfold get_photo_date.
  rewrite bool_decide_eq_false_2 by done. by rewrite Hnone.
Qed.

Lemma malformed_exif_date_discards_both_witness :
  get_exif_date damaged_folder "/p/photo.NEF" = None
  ∧ get_photo_date damaged_folder "/p/photo.NEF" = Ok example_date.
Proof.
  destruct (malformed_exif_date_discards_both damaged_folder "/p/photo.NEF"
              (example_stat 900)
              [(36867%N, "2020:01:02 03:04:05");
               (36868%N, "0000:00:00 00:00:00")]
              36868%N "0000:00:00 00:00:00") as [H1 H2].
  - vm_compute. reflexivity.
  - right. left.
  - right. reflexivity.
  - vm_compute. reflexivity.
  - split; [exact H1|]. rewrite H2.
    + vm_compute. reflexivity.
    + by_compute.
Defined.

(** * Paths built from a folder and a listed name *)

Lemma split_nonempty (s : string) : Str.split "/" s ≠ [].
Proof.
  destruct s as [|a s]; [done|]. simpl. case_bool_decide; [done|].
  by destruct (Str.split "/" s).
Qed.

Lemma split_app (x y : string) :
  Str.split "/" (x +:+ String "/" y) = Str.split "/" x ++ Str.split "/" y.
Proof.
  induction x as [|a x IH]; [done|].
  rewrite string_cons_app. cbn [Str.split]. rewrite IH.
  case_bool_decide; [done|].
  pose proof (split_nonempty x) as Hne.
  by destruct (Str.split "/" x).
Qed.

Lemma filter_app_parts (l1 l2 : list string) :
  List.filter Pathlib.is_part (l1 ++ l2)
  = List.filter Pathlib.is_part l1 ++ List.filter Pathlib.is_part l2.
Proof. apply List.filter_app. Qed.

(** The name of [x/c] is [c]. *)
Lemma name_app_sep (x c : string) :
  component c → Pathlib.name (Pathlib.parse (x +:+ String "/" c)) = c.
Proof.
  intros [Hpart Hsep]. unfold Pathlib.name, Pathlib.parse.
  cbn [Pathlib.parts]. rewrite split_app, filter_app_parts.
  rewrite (split_component c Hsep). cbn [List.filter]. rewrite Hpart.
  apply last_snoc.
Qed.

Lemma name_component (c : string) :
  component c → Pathlib.name (Pathlib.parse c) = c.
Proof.
  intros [Hpart Hsep]. unfold Pathlib.name, Pathlib.parse.
  cbn [Pathlib.parts]. rewrite (split_component c Hsep).
  cbn [List.filter]. by rewrite Hpart.
Qed.

Lemma rfind_last (s : string) i :
  Str.rfind "/" s = Some i → S i = String.length s →
  ∃ x, s = x +:+ "/".
Proof.
  revert i. induction s as [|a s IH]; intros i; [done|]. simpl.
  destruct (Str.rfind "/" s) as [k|] eqn:E.
  - intros [= <-] Hlen. destruct (IH k eq_refl) as [x ->]; [lia|].
    by exists (String a x).
  - case_bool_decide as Ha; [|done]. intros [= <-] Hlen.
    destruct s; [|simpl in Hlen; lia]. subst a. by exists "".
Qed.

Lemma component_not_absolute (c : string) :
  component c → Str.startswith "/" c = false.
Proof.
  intros [Hpart Hsep]. destruct c as [|a c]; [done|].
  unfold no_sep in Hsep. simpl in Hsep.
  apply andb_prop in Hsep as [Ha _]. apply negb_true_iff in Ha.
  simpl. by rewrite andb_true_r, (bool_decide_ext _ (a = "/"%char)) by done.
Qed.

(** [os.path.join(folder, c)] ends in the name [c]. *)
Lemma name_join (folder c : string) :
  component c → Pathlib.name (Pathlib.parse (OsPath.join folder c)) = c.
Proof.
  intros Hc. unfold OsPath.join.
  rewrite (component_not_absolute c Hc).
  case_bool_decide as Hempty; simpl.
  { subst folder. by apply name_component. }
  unfold OsPath.endswith_sep.
  destruct (Str.rfind "/" folder) as [i|] eqn:E.
  - destruct (S i =? String.length folder) eqn:El.
    + apply Nat.eqb_eq in El. destruct (rfind_last _ _ E El) as [x ->].
      rewrite string_app_assoc. change ("/" +:+ c) with (String "/" c).
      by apply name_app_sep.
    + by apply name_app_sep.
  - by apply name_app_sep.
Qed.

Lemma suffix_join (folder c : string) :
  component c →
  Pathlib.suffix (Pathlib.parse (OsPath.join folder c))
  = Pathlib.suffix (Pathlib.parse c).
Proof.
  intros Hc. unfold Pathlib.suffix.
  by rewrite name_join, name_component.
Qed.

(** ** The name a file is filed under keeps its extension *)

Lemma rfind_split c s i :
  Str.rfind c s = Some i →
  ∃ x d, s = x +:+ String c d ∧ String.length x = i ∧ Str.rfind c d = None.
Proof.
  revert i. induction s as [|a s IH]; intros i; [done|]. simpl.
  destruct (Str.rfind c s) as [k|] eqn:E.
  - intros [= <-]. destruct (IH k eq_refl) as (x & d & -> & Hx & Hd).
    exists (String a x), d. split; [done|]. split; [simpl; lia|done].
  - case_bool_decide as Ha; [|done]. intros [= <-]. subst a.
    by exists "", s.
Qed.

Lemma no_sep_app (s t : string) :
  no_sep (s +:+ t) = no_sep s && no_sep t.
Proof. apply all_chars_app. Qed.

Lemma pretty_no_sep (n : nat) : no_sep (pretty n) = true.
Proof.
  unfold no_sep. eapply all_chars_impl; [|apply pretty_nat_digits].
  intros x Hx. apply negb_true_iff, bool_decide_eq_false. by intros ->.
Qed.

(** A name with an extension: what is before the last dot, and what is
    after it. *)
Lemma suffix_split (name : string) :
  Pathlib.name_suffix name ≠ "" →
  ∃ x d, name = x +:+ String "." d ∧ Str.rfind "." d = None
         ∧ x ≠ "" ∧ d ≠ ""
         ∧ Pathlib.name_suffix name = String "." d
         ∧ Pathlib.name_stem name = x.
Proof.
  unfold Pathlib.name_suffix, Pathlib.name_stem, Pathlib.suffix_index.
  destruct (Str.rfind "." name) as [i|] eqn:E; [|done].
  destruct (rfind_split _ _ _ E) as (x & d & -> & <- & Hd).
  rewrite string_app_length. simpl String.length.
  destruct ((0 <? String.length x)
            && (String.length x <? String.length x + S (String.length d) - 1))
    eqn:Ec; [|done].
  apply andb_prop in Ec as [E1 E2]. apply Nat.ltb_lt in E1, E2.
  intros _. exists x, d. split; [done|]. split; [done|].
  split; [by destruct x; [simpl in E1; lia|]|].
  split; [by destruct d; [simpl in E2; lia|]|].
  by rewrite drop_app_length, take_app_length.
Qed.

Lemma name_suffix_app (x d : string) :
  x ≠ "" → d ≠ "" → Str.rfind "." d = None →
  Pathlib.name_suffix (x +:+ String "." d) = String "." d.
Proof.
  intros Hx Hd Hdot. unfold Pathlib.name_suffix, Pathlib.suffix_index.
  rewrite rfind_app_sep by done.
  rewrite string_app_length. simpl String.length.
  assert (0 < String.length x) by (destruct x; [done|simpl; lia]).
  assert (0 < String.length d) by (destruct d; [done|simpl; lia]).
  replace (0 <? String.length x) with true
    by (symmetry; by apply Nat.ltb_lt).
  replace (String.length x <? String.length x + S (String.length d) - 1)
    with true by (symmetry; apply Nat.ltb_lt; lia).
  simpl. apply drop_app_length.
Qed.

Lemma splitext_component (x d : string) :
  no_sep (x +:+ String "." d) = true → Str.rfind "." d = None →
  Str.lstrip "." x ≠ "" →
  OsPath.splitext (x +:+ String "." d) = (x, String "." d).
Proof.
  intros Hsep Hdot Hx. unfold OsPath.splitext.
  rewrite rfind_app_sep by done.
  rewrite (rfind_none_all "/" _ Hsep).
  rewrite Nat.sub_0_r.
  change (Str.drop 0 (x +:+ String "." d)) with (x +:+ String "." d).
  rewrite take_app_length. simpl.
  rewrite bool_decide_eq_false_2 by done. simpl.
  by rewrite drop_app_length.
Qed.

Lemma renamed_name_component (x d : string) (N : nat) :
  no_sep (x +:+ String "." d) = true →
  component ((x +:+ "_" +:+ pretty N) +:+ String "." d).
Proof.
  intros Hsep. rewrite no_sep_app in Hsep.
  apply andb_prop in Hsep as [Hx Hd]. split.
  - unfold Pathlib.is_part.
    rewrite !bool_decide_eq_false_2; [done| |]; intros Heq;
      apply (f_equal String.length) in Heq;
      rewrite !string_app_length in Heq; simpl in Heq; lia.
  - rewrite !no_sep_app, Hx, pretty_no_sep. exact Hd.
Qed.

Lemma renamed_suffix (target_dir x d : string) (N : nat) :
  no_sep (x +:+ String "." d) = true → d ≠ "" → Str.rfind "." d = None →
  Pathlib.suffix
    (Pathlib.parse (renamed target_dir x (String "." d) N))
  = String "." d.
Proof.
  intros Hsep Hd Hdot. unfold renamed.
  replace (x +:+ "_" +:+ pretty N +:+ String "." d)
    with ((x +:+ "_" +:+ pretty N) +:+ String "." d)
    by (by rewrite !string_app_assoc).
  unfold Pathlib.suffix.
  rewrite name_join by (by apply renamed_name_component).
  apply name_suffix_app; [|done..].
  destruct x; done.
Qed.

(** X8: the path a file is filed at has the extension of the file, also
    when the name had to be numbered, for every name whose part before the
    extension is not made of dots only: the file stays of its type.  (A
    name such as [..jpg] is numbered after its extension.) *)
Theorem choose_target_keeps_suffix (w : world)
    (target_dir filename : string) :
  component filename →
  Pathlib.suffix (Pathlib.parse filename) ≠ "" →
  Str.lstrip "." (Pathlib.stem (Pathlib.parse filename)) ≠ "" →
  Pathlib.suffix (Pathlib.parse (choose_target w target_dir filename))
  = Pathlib.suffix (Pathlib.parse filename)
  ∧ is_image_file (choose_target w target_dir filename)
    = is_image_file filename.
Proof.
  intros Hc Hsuffix Hstem.
  assert (Hs : Pathlib.suffix (Pathlib.parse (choose_target w target_dir filename))
               = Pathlib.suffix (Pathlib.parse filename)).
  { unfold Pathlib.suffix, Pathlib.stem in *.
    rewrite (name_component filename Hc) in *.
    destruct (suffix_split filename Hsuffix)
      as (x & d & -> & Hdot & Hx & Hd & Hsuf & Hst).
    rewrite Hst in Hstem. rewrite Hsuf.
    destruct (choose_target_spec w target_dir (x +:+ String "." d))
      as [_ [[_ ->]|[_ (N & _ & -> & _)]]].
    - rewrite name_join by done. by apply name_suffix_app.
    - destruct Hc as [_ Hsep].
      rewrite (splitext_component x d Hsep Hdot Hstem). cbn [fst snd].
      by apply (renamed_suffix target_dir x d N). }
  split; [exact Hs|]. unfold is_image_file. by rewrite Hs.
Qed.

Lemma choose_target_keeps_suffix_witness :
  Pathlib.suffix
    (Pathlib.parse
       (choose_target (pair_folder "x.jpg" "y.jpg") "/p" "x.jpg"))
  = ".jpg".
Proof.
  refine (proj1 (choose_target_keeps_suffix (pair_folder "x.jpg" "y.jpg")
                   "/p" "x.jpg" _ _ _)).
  - split; vm_compute; reflexivity.
  - vm_compute. discriminate.
  - vm_compute. discriminate.
Defined.

(** * Grouping by extension and size *)

Lemma grouped_nil : grouped [] [].
Proof.
  split; [constructor|]. split; [by intros key fs ?%elem_of_nil|].
  split; [by intros f ?%elem_of_nil|done].
Qed.

Lemma filter_snoc {A} (f : A → bool) (l : list A) x :
  List.filter f (l ++ [x]) = List.filter f l ++ (if f x then [x] else []).
Proof. rewrite List.filter_app. simpl. by destruct (f x). Qed.

Lemma groups_append_fst_old key x g :
  key ∈ g.*1 → (groups_append key x g).*1 = g.*1.
Proof.
  induction g as [|[k l] g IH]; [by intros ?%elem_of_nil|].
  cbn [groups_append fmap list_fmap fst]. intros Hin.
  destruct (decide (k = key)) as [->|Hne]; [done|].
  cbn [fmap list_fmap fst]. f_equal. apply IH.
  apply elem_of_cons in Hin as [?|?]; [by subst|done].
Qed.

Lemma groups_append_fst_new key x g :
  key ∉ g.*1 → (groups_append key x g).*1 = g.*1 ++ [key].
Proof.
  induction g as [|[k l] g IH]; [done|].
  cbn [groups_append fmap list_fmap fst]. intros Hout.
  destruct (decide (k = key)) as [->|Hne].
  - exfalso. apply Hout. left.
  - cbn [fmap list_fmap fst app]. f_equal. apply IH.
    intros H. apply Hout. by right.
Qed.

Lemma groups_append_elem key x g key' fs :
  NoDup g.*1 →
  (key', fs) ∈ groups_append key x g ↔
  (key' ≠ key ∧ (key', fs) ∈ g)
  ∨ (key' = key ∧ ∃ old, fs = old ++ [x]
       ∧ ((key, old) ∈ g ∨ (old = [] ∧ key ∉ g.*1))).
Proof.
  induction g as [|[k l] g IH]; intros Hnd; cbn [groups_append].
  { split.
    - intros [= -> ->]%list_elem_of_singleton.
      right. split; [done|]. exists []. split; [done|].
      right. split; [done|]. by intros ?%elem_of_nil.
    - intros [[_ ?%elem_of_nil]|[-> (old & -> & [?%elem_of_nil|[-> _]])]];
        [done|done|left]. }
  rewrite fmap_cons in Hnd. apply NoDup_cons in Hnd as [Hk Hnd].
  cbn [fst] in Hk. specialize (IH Hnd).
  destruct (decide (k = key)) as [->|Hne].
  - split.
    + intros [[= -> ->]|Hin]%elem_of_cons.
      * right. split; [done|]. exists l. split; [done|]. left. left.
      * left. split; [|by right]. intros ->. apply Hk.
        apply list_elem_of_fmap. by exists (key, fs).
    + intros [[Hne Hin]|[-> (old & -> & Hold)]].
      * apply elem_of_cons in Hin as [[= -> ->]|Hin]; [done|by right].
      * destruct Hold as [Hold|[_ Hout]].
        -- apply elem_of_cons in Hold as [[= ->]|Hold]; [left|].
           exfalso. apply Hk. apply list_elem_of_fmap. by exists (key, old).
        -- exfalso. apply Hout. rewrite fmap_cons. left.
  - split.
    + intros [[= -> ->]|Hin]%elem_of_cons.
      * left. split; [done|left].
      * apply IH in Hin as [[Hn Hin]|[-> (old & -> & Hold)]].
        -- left. split; [done|by right].
        -- right. split; [done|]. exists old. split; [done|].
           destruct Hold as [Hold|[-> Hout]]; [left; by right|].
           right. split; [done|]. rewrite fmap_cons.
           intros [?|?]%elem_of_cons; [by subst|done].
    + intros [[Hn Hin]|[-> (old & -> & Hold)]].
      * apply elem_of_cons in Hin as [[= -> ->]|Hin]; [left|].
        right. apply IH. left. by split.
      * right. apply IH. right. split; [done|]. exists old. split; [done|].
        destruct Hold as [Hold|[-> Hout]].
        -- apply elem_of_cons in Hold as [[= <-]|Hold]; [done|by left].
        -- right. split; [done|]. intros H. apply Hout.
           rewrite fmap_cons. by right.
Qed.

Lemma groups_append_concat key x g :
  concat (groups_append key x g).*2 ≡ₚ concat g.*2 ++ [x].
Proof.
  induction g as [|[k l] g IH]; simpl; [done|].
  destruct (decide (k = key)) as [->|Hne]; simpl.
  - rewrite <- !app_assoc. apply Permutation_app_head, Permutation_app_comm.
  - by rewrite IH, app_assoc.
Qed.

Lemma groups_append_grouped g l x :
  grouped g l → grouped (groups_append (key_of x) x g) (l ++ [x]).
Proof.
  intros (Hnd & Hfs & Hkeys & Hperm).
  split; [|split; [|split]].
  - destruct (decide (key_of x ∈ g.*1)) as [Hin|Hout].
    + by rewrite groups_append_fst_old.
    + rewrite groups_append_fst_new by done.
      apply NoDup_app. split; [done|]. split; [|apply NoDup_singleton].
      intros k Hk Hk'%list_elem_of_singleton. by subst.
  - intros key fs Hin. apply groups_append_elem in Hin; [|done].
    rewrite filter_snoc. unfold has_key at 2.
    destruct Hin as [[Hne Hin]|[-> (old & -> & Hold)]].
    + rewrite bool_decide_eq_false_2 by done. rewrite app_nil_r.
      by apply Hfs.
    + rewrite bool_decide_eq_true_2 by done.
      split; [by destruct old|]. f_equal.
      destruct Hold as [Hold|[-> Hout]]; [by apply Hfs|].
      symmetry. apply filter_none. intros f Hf.
      apply bool_decide_eq_false. intros Hk. apply Hout.
      rewrite <- Hk. by apply Hkeys.
  - intros f Hf.
    destruct (decide (key_of x ∈ g.*1)) as [Hin|Hout].
    + rewrite groups_append_fst_old by done.
      apply elem_of_app in Hf as [Hf|Hf%list_elem_of_singleton];
        [by apply Hkeys|by subst].
    + rewrite groups_append_fst_new by done. apply elem_of_app.
      apply elem_of_app in Hf as [Hf|Hf%list_elem_of_singleton];
        [left; by apply Hkeys|subst; right; left].
  - by rewrite groups_append_concat, Hperm.
Qed.

Lemma isfile_getsize w file_path :
  os_path_isfile w file_path = true →
  ∃ size, os_path_getsize w file_path = Ok size.
Proof.
  unfold os_path_isfile, os_path_getsize, os_stat.
  destruct (nodes w !! file_path) as [[]|]; [eauto|done..].
Qed.

Lemma listing_loop_grouped w folder_path names g l :
  grouped g l →
  grouped (listing_loop w folder_path names g).1
          (l ++ eligible w folder_path names).
Proof.
  revert g l. induction names as [|filename rest IH]; intros g l Hg.
  { simpl. by rewrite app_nil_r. }
  cbn [listing_loop eligible flat_map]. cbv zeta.
  fold (eligible w folder_path rest).
  destruct (os_path_isfile w _) eqn:E1; simpl; [|by apply IH].
  destruct (is_image_file _) eqn:E2; simpl; [|by apply IH].
  destruct (Str.contains _ _) eqn:E3; simpl; [by apply IH|].
  destruct (isfile_getsize _ _ E1) as [size Hsize]. rewrite Hsize.
  rewrite app_assoc. apply IH.
  by apply (groups_append_grouped g l (record_of folder_path filename size)).
Qed.

Lemma grouping_facts (w : world) (folder_path : string)
    (names : list string) (g : groups) :
  os_listdir w folder_path = Ok names →
  size_ext_groups w folder_path = Ok g →
  NoDup g.*1
  ∧ (∀ key fs, (key, fs) ∈ g →
       fs ≠ []
       ∧ fs = List.filter (λ f, bool_decide ((extension f, file_size f) = key))
                (eligible w folder_path names))
  ∧ (∀ f, f ∈ eligible w folder_path names →
       ∃ fs, ((extension f, file_size f), fs) ∈ g ∧ f ∈ fs)
  ∧ concat g.*2 ≡ₚ eligible w folder_path names.
Proof.
  intros Hlist Hg. unfold size_ext_groups in Hg. rewrite Hlist in Hg.
  pose proof (listing_loop_returns w folder_path names []) as Hnone.
  pose proof (listing_loop_grouped w folder_path names [] [] grouped_nil)
    as Hgr.
  destruct (listing_loop w folder_path names []) as [g' [e|]]; [done|].
  injection Hg as <-. simpl in Hgr.
  destruct Hgr as (Hnd & Hfs & Hkeys & Hperm).
  split; [done|]. split; [exact Hfs|]. split; [|done].
  intros f Hf. specialize (Hkeys f Hf).
  apply list_elem_of_fmap in Hkeys as ([key fs] & Hkey & Hin).
  simpl in Hkey. exists fs.
  change (extension f, file_size f) with (key_of f).
  rewrite Hkey. split; [done|].
  destruct (Hfs key fs Hin) as [_ ->].
  apply filter_elem. split; [done|]. by apply bool_decide_eq_true.
Qed.

(** X9: the files of a folder that pass the tests of the listing (a
    regular file, a media extension, no "final" in the name) are grouped by
    extension and size without loss: no key comes twice, each group is not
    empty and holds the files of its key in the order of the listing, and
    every such file is in the group of its key. *)
Theorem grouping_keeps_every_file (w : world) (folder_path : string)
    (names : list string) (g : groups) :
  os_listdir w folder_path = Ok names →
  size_ext_groups w folder_path = Ok g →
  NoDup g.*1
  ∧ (∀ key fs, (key, fs) ∈ g →
       fs ≠ []
       ∧ fs = List.filter (λ f, bool_decide ((extension f, file_size f) = key))
                (eligible w folder_path names))
  ∧ (∀ f, f ∈ eligible w folder_path names →
       ∃ fs, ((extension f, file_size f), fs) ∈ g ∧ f ∈ fs)
  ∧ concat g.*2 ≡ₚ eligible w folder_path names.
Proof. apply grouping_facts. Qed.

Lemma grouping_keeps_every_file_witness :
  ∃ g, size_ext_groups shoot_folder "/p" = Ok g
       ∧ NoDup g.*1
       ∧ length (concat g.*2) = 6.
Proof.
  eexists. split; [vm_compute; reflexivity|].
  destruct (grouping_keeps_every_file shoot_folder "/p"
              ["IMG_0001.jpg"; "DSC_9999.jpg"; "IMG_0002.jpg";
               "IMG_0003_final.jpg"; "notes.txt"; "IMG_0004.JPG"; "sub";
               "DSC_9998.jpg"; "IMG_0005.png"] _
              ltac:(vm_compute; reflexivity) eq_refl)
    as (Hnd & _ & _ & Hperm).
  split; [exact Hnd|]. rewrite Hperm. vm_compute. reflexivity.
Defined.

Lemma eligible_elem w folder_path names f :
  f ∈ eligible w folder_path names →
  ∃ filename, filename ∈ names
    ∧ f = record_of folder_path filename (file_size f)
    ∧ is_image_file (OsPath.join folder_path filename) = true.
Proof.
  unfold eligible. intros Hf.
  apply list_elem_of_In, List.in_flat_map in Hf as (filename & Hin & Hf).
  apply list_elem_of_In in Hin, Hf. cbv zeta in Hf.
  destruct (os_path_isfile w _); [|by apply elem_of_nil in Hf].
  destruct (is_image_file _) eqn:E; [|by apply elem_of_nil in Hf].
  destruct (negb _); [|by apply elem_of_nil in Hf]. simpl in Hf.
  destruct (os_path_getsize w _) as [size|e]; [|by apply elem_of_nil in Hf].
  apply list_elem_of_singleton in Hf. subst f.
  exists filename. by repeat split.
Qed.

(** X10: with the names a directory listing gives (single components),
    every cluster reported for a folder has one of the media extensions as
    its extension, in lowercase, and each of its files is the record of a
    name of the listing: its path is the folder joined with the name, its
    base name is the name without its extension. *)
Theorem cluster_extension_is_media (w : world) (folder_path : string)
    (names : list string) (d : dict) (key : string) (grp : DuplicateGroup) :
  os_listdir w folder_path = Ok names →
  Forall component names →
  find_duplicates_in_folder w folder_path = Ok d →
  (key, grp) ∈ d →
  group_extension grp ∈ image_extensions
  ∧ ∀ f, f ∈ files grp →
      filename f ∈ names
      ∧ path f = OsPath.join folder_path (filename f)
      ∧ Pathlib.name (Pathlib.parse (path f)) = filename f
      ∧ base_name f = Pathlib.stem (Pathlib.parse (path f))
      ∧ extension f = Str.lower (Pathlib.suffix (Pathlib.parse (path f))).
Proof.
  intros Hlist Hnames Hd Hin.
  destruct (find_duplicates_in_folder_spec _ _ _ Hd) as (g & Hg & Hv).
  destruct (grouping_facts w folder_path names g Hlist Hg)
    as (_ & Hfs & _).
  assert (Hgrp : grp ∈ dict_values d).
  { unfold dict_values. apply list_elem_of_fmap. by exists (key, grp). }
  rewrite Hv in Hgrp.
  apply list_elem_of_In, List.in_flat_map in Hgrp
    as ([[ext size] fs] & Hgfs%list_elem_of_In & Hc%list_elem_of_In).
  unfold group_clusters in Hc. cbn [fst snd] in Hc.
  apply list_elem_of_fmap in Hc as (c & -> & Hc).
  apply emitted_clusters_elem in Hc as [Hc _]. cbn [group_extension files].
  destruct (seed_clusters_seed _ _ _ Hc) as (seed & rest & -> & Hs & Hr).
  destruct (Hfs _ _ Hgfs) as [_ Hfilter].
  assert (Hmember : ∀ f, f ∈ seed :: rest →
            extension f = ext ∧ f ∈ eligible w folder_path names).
  { intros f Hf.
    assert (Hffs : f ∈ fs).
    { apply elem_of_cons in Hf as [->|Hf]; [done|]. by apply Hr. }
    rewrite Hfilter in Hffs. apply filter_elem in Hffs as [Hel Hkey].
    apply bool_decide_eq_true in Hkey. by injection Hkey as -> _. }
  assert (Hrecord : ∀ f, f ∈ seed :: rest →
            filename f ∈ names
            ∧ path f = OsPath.join folder_path (filename f)
            ∧ Pathlib.name (Pathlib.parse (path f)) = filename f
            ∧ base_name f = Pathlib.stem (Pathlib.parse (path f))
            ∧ extension f
              = Str.lower (Pathlib.suffix (Pathlib.parse (path f)))
            ∧ is_image_file (path f) = true).
  { intros f Hf. destruct (Hmember f Hf) as [_ Hel].
    apply eligible_elem in Hel as (name & Hname & -> & Himg).
    unfold record_of. cbn [filename path base_name extension].
    rewrite Forall_forall in Hnames.
    pose proof (Hnames _ Hname) as Hcomp.
    split; [done|]. split; [done|].
    split; [by apply name_join|].
    unfold get_base_name, Pathlib.stem. rewrite name_join by done.
    rewrite (name_component _ Hcomp).
    split; [done|]. by rewrite suffix_join. }
  split.
  - destruct (Hmember seed) as [<- _]; [left|].
    destruct (Hrecord seed) as (_ & _ & _ & _ & -> & Himg); [left|].
    unfold is_image_file in Himg. by apply bool_decide_eq_true in Himg.
  - intros f Hf. destruct (Hrecord f Hf) as (? & ? & ? & ? & ? & _).
    by repeat split.
Qed.

Lemma cluster_extension_is_media_witness :
  ".jpg" ∈ image_extensions.
Proof.
  refine (proj1 (cluster_extension_is_media shoot_folder "/p"
            ["IMG_0001.jpg"; "DSC_9999.jpg"; "IMG_0002.jpg";
             "IMG_0003_final.jpg"; "notes.txt"; "IMG_0004.JPG"; "sub";
             "DSC_9998.jpg"; "IMG_0005.png"]
            shoot_duplicates "/p|.jpg|100|1"
            (mkGroup "/p" ".jpg" 100
               [pair_record "IMG_0001.jpg"; pair_record "IMG_0002.jpg";
                pair_record "IMG_0004.JPG"]) _ _ _ _)).
  - vm_compute. reflexivity.
  - repeat (constructor; [split; vm_compute; reflexivity|]). constructor.
  - vm_compute. reflexivity.
  - vm_compute. left.
Defined.

(** * The test that skips the destination *)

(** ** The shape of a normalized path *)

Lemma lower_char_sep (a : ascii) :
  bool_decide (Str.lower_char a = "/"%char) = bool_decide (a = "/"%char).
Proof. destruct a as [[] [] [] [] [] [] [] []]; reflexivity. Qed.

Lemma lower_char_dot (a : ascii) :
  bool_decide (Str.lower_char a = "."%char) = bool_decide (a = "."%char).
Proof. destruct a as [[] [] [] [] [] [] [] []]; reflexivity. Qed.

Lemma lower_app (x y : string) :
  Str.lower (x +:+ y) = Str.lower x +:+ Str.lower y.
Proof.
  induction x as [|a x IH]; [done|]. rewrite string_cons_app.
  unfold Str.lower in *. simpl. by rewrite IH.
Qed.

Lemma lower_join (cs : list string) :
  Str.lower (Str.join "/" cs) = Str.join "/" (Str.lower <$> cs).
Proof.
  induction cs as [|c cs IH]; [done|].
  destruct cs as [|c' cs]; [done|].
  change (Str.join "/" (c :: c' :: cs))
    with (c +:+ "/" +:+ Str.join "/" (c' :: cs)).
  rewrite !lower_app, IH. done.
Qed.

Lemma lower_no_sep (c : string) : no_sep (Str.lower c) = no_sep c.
Proof.
  unfold no_sep, Str.lower. induction c as [|a c IH]; [done|].
  simpl. by rewrite lower_char_sep, IH.
Qed.

Lemma lower_component (c : string) : component c → component (Str.lower c).
Proof.
  intros [Hpart Hsep]. split; [|by rewrite lower_no_sep].
  unfold Pathlib.is_part in *.
  apply andb_true_iff in Hpart as [Hne Hdot].
  apply negb_true_iff, bool_decide_eq_false in Hne, Hdot.
  destruct c as [|a c]; [done|].
  apply andb_true_iff. split; apply negb_true_iff, bool_decide_eq_false.
  - done.
  - unfold Str.lower. simpl. intros Heq. injection Heq as Ha Hc.
    apply Hdot. destruct c; [|done]. f_equal.
    pose proof (lower_char_dot a) as H.
    rewrite (bool_decide_eq_true_2 _ Ha) in H. symmetry in H.
    by apply bool_decide_eq_true in H.
Qed.

Lemma norm_comps_components k todo comps :
  Forall (λ c, no_sep c = true) todo → Forall component comps →
  Forall component (OsPath.norm_comps k todo comps).
Proof.
  intros Htodo. revert comps.
  induction Htodo as [|c todo Hc _ IH]; intros comps Hcomps; [done|].
  cbn [OsPath.norm_comps].
  destruct (bool_decide (c = "") || bool_decide (c = ".")) eqn:E;
    [by apply IH|].
  apply orb_false_iff in E as [E1 E2].
  destruct (_ || _).
  - apply IH. apply Forall_app. split; [done|].
    constructor; [|done]. split; [|done].
    unfold Pathlib.is_part. by rewrite E1, E2.
  - apply IH. by apply removelast_components.
Qed.

Lemma startswith_cons (a : ascii) (s : string) :
  Str.startswith (String a "") s
  = match s with String b _ => bool_decide (a = b) | EmptyString => false end.
Proof. destruct s as [|b s]; [done|]. simpl. by rewrite andb_true_r. Qed.

(** An absolute path is normalized into one or two slashes followed by
    components separated by single slashes. *)
Lemma normpath_shape (q : string) :
  Str.startswith "/" q = true →
  ∃ s cs, OsPath.normpath q = s +:+ Str.join "/" cs
          ∧ (s = "/" ∨ s = "//") ∧ Forall component cs.
Proof.
  intros Habs. unfold OsPath.normpath.
  rewrite bool_decide_eq_false_2 by (by intros ->).
  set (k := if Str.startswith "///" q then 1
            else if Str.startswith "//" q then 2
            else if Str.startswith "/" q then 1 else 0).
  assert (Hk : k = 1 ∨ k = 2).
  { unfold k. rewrite Habs. repeat case_match; auto. }
  assert (Hcs : Forall component (OsPath.norm_comps k (Str.split "/" q) [])).
  { apply norm_comps_components; [apply split_no_sep|done]. }
  cbv zeta.
  destruct Hk as [-> | ->].
  - rewrite bool_decide_eq_false_2 by done.
    exists "/", (OsPath.norm_comps 1 (Str.split "/" q) []). auto.
  - rewrite bool_decide_eq_false_2 by done.
    exists "//", (OsPath.norm_comps 2 (Str.split "/" q) []). auto.
Qed.

Lemma join_absolute (cwd p : string) :
  Str.startswith "/" cwd = true →
  Str.startswith "/" (OsPath.join cwd p) = true.
Proof.
  intros Hcwd. unfold OsPath.join.
  destruct (Str.startswith "/" p) eqn:Hp; [done|].
  destruct cwd as [|a cwd]; [done|].
  by destruct (_ || _).
Qed.

Lemma shape_absolute (s : string) (cs : list string) :
  s = "/" ∨ s = "//" → Str.startswith "/" (s +:+ Str.join "/" cs) = true.
Proof. by intros [-> | ->]. Qed.

(** What [normalized] returns when the working directory is absolute, as
    it is. *)
Lemma normalized_shape (w : world) (p : string) :
  Str.startswith "/" (cwd w) = true →
  ∃ s cs, normalized w p = s +:+ Str.join "/" cs
          ∧ (s = "/" ∨ s = "//") ∧ Forall component cs.
Proof.
  intros Hcwd. unfold normalized, OsPath.abspath.
  set (q := if Str.startswith "/" p then p else OsPath.join (cwd w) p).
  assert (Hq : Str.startswith "/" q = true).
  { unfold q. destruct (Str.startswith "/" p) eqn:Hp; [done|].
    by apply join_absolute. }
  destruct (normpath_shape q Hq) as (s1 & cs1 & -> & Hs1 & _).
  destruct (normpath_shape _ (shape_absolute s1 cs1 Hs1))
    as (s & cs & -> & Hs & Hcs).
  exists s, (Str.lower <$> cs).
  rewrite lower_app, lower_join. split; [|split].
  - by destruct Hs as [-> | ->].
  - done.
  - apply Forall_fmap. eapply Forall_impl; [exact Hcs|].
    intros c Hc. by apply lower_component.
Qed.

(** ** The test on normalized paths *)

Lemma component_head (c : string) :
  component c → ∃ x rest, c = String x rest ∧ x ≠ "/"%char.
Proof.
  intros [Hpart Hsep]. destruct c as [|x rest]; [done|].
  exists x, rest. split; [done|].
  unfold no_sep in Hsep. simpl in Hsep.
  apply andb_prop in Hsep as [Hx _].
  by apply negb_true_iff, bool_decide_eq_false in Hx.
Qed.

Lemma join_head (c : string) (cs : list string) :
  component c →
  ∃ x rest, Str.join "/" (c :: cs) = String x rest ∧ x ≠ "/"%char.
Proof.
  intros (x & rest & -> & Hx)%component_head.
  destruct cs as [|c' cs]; [by exists x, rest|].
  exists x, (rest +:+ "/" +:+ Str.join "/" (c' :: cs)). by split.
Qed.

Lemma parse_root_slash (x : ascii) (rest : string) :
  x ≠ "/"%char → Pathlib.parse_root (String "/" (String x rest)) = "/".
Proof.
  intros Hx. unfold Pathlib.parse_root. simpl.
  by rewrite !(bool_decide_eq_false_2 ("/"%char = x)) by done.
Qed.

Lemma parse_root_slashes (x : ascii) (rest : string) :
  x ≠ "/"%char →
  Pathlib.parse_root (String "/" (String "/" (String x rest))) = "//".
Proof.
  intros Hx. unfold Pathlib.parse_root. simpl.
  by rewrite !(bool_decide_eq_false_2 ("/"%char = x)) by done.
Qed.

Lemma parse_root_shape (s : string) (cs : list string) (z : string) :
  s = "/" ∨ s = "//" → Forall component cs → cs ≠ [] →
  Pathlib.parse_root ((s +:+ Str.join "/" cs) +:+ z) = s.
Proof.
  intros Hs Hcs Hne. destruct cs as [|c cs]; [done|].
  apply Forall_cons in Hcs as [Hc _].
  destruct (join_head c cs Hc) as (x & rest & -> & Hx).
  destruct Hs as [-> | ->].
  - by apply parse_root_slash.
  - by apply parse_root_slashes.
Qed.

Lemma parse_shape (s : string) (cs : list string) :
  s = "/" ∨ s = "//" → Forall component cs →
  Pathlib.parse (s +:+ Str.join "/" cs) = Pathlib.mkPath s cs.
Proof.
  intros Hs Hcs.
  assert (Hparts : Pathlib.parts (Pathlib.parse (s +:+ Str.join "/" cs)) = cs).
  { rewrite <- (parse_str_parts s cs) at 2; [|tauto|done].
    by destruct Hs as [-> | ->]. }
  assert (Hroot : Pathlib.root (Pathlib.parse (s +:+ Str.join "/" cs)) = s).
  { destruct cs as [|c cs].
    - by destruct Hs as [-> | ->].
    - rewrite <- (string_app_nil_r (s +:+ _)).
      by apply parse_root_shape. }
  destruct (Pathlib.parse _) as [r ps]. simpl in *. by subst.
Qed.

Lemma join_app (cs extra : list string) :
  cs ≠ [] → extra ≠ [] →
  Str.join "/" (cs ++ extra)
  = Str.join "/" cs +:+ String "/" (Str.join "/" extra).
Proof.
  intros Hcs Hextra. induction cs as [|c cs IH]; [done|].
  destruct cs as [|c' cs].
  - destruct extra as [|e extra]; [done|]. reflexivity.
  - change (Str.join "/" ((c :: c' :: cs) ++ extra))
      with (c +:+ "/" +:+ Str.join "/" ((c' :: cs) ++ extra)).
    rewrite IH by done.
    change (Str.join "/" (c :: c' :: cs))
      with (c +:+ "/" +:+ Str.join "/" (c' :: cs)).
    by rewrite !string_app_assoc.
Qed.

Lemma startswith_app (x y : string) : Str.startswith x (x +:+ y) = true.
Proof.
  induction x as [|a x IH]; [done|]. rewrite string_cons_app. simpl.
  by rewrite bool_decide_eq_true_2, IH.
Qed.

Lemma startswith_split (x r : string) :
  Str.startswith x r = true → ∃ y, r = x +:+ y.
Proof.
  revert r. induction x as [|a x IH]; intros r; [by exists r|].
  destruct r as [|b r]; [done|]. simpl.
  intros [Hab Hx]%andb_prop. apply bool_decide_eq_true in Hab as ->.
  destruct (IH r Hx) as [y ->]. by exists y.
Qed.

Lemma parts_app_sep (d y : string) :
  Pathlib.parts (Pathlib.parse (d +:+ String "/" y))
  = Pathlib.parts (Pathlib.parse d) ++ Pathlib.parts (Pathlib.parse y).
Proof.
  unfold Pathlib.parse. cbn [Pathlib.parts].
  by rewrite split_app, filter_app_parts.
Qed.

(** For a destination that has a component, the test holds exactly when
    the root is the destination or lies under it, component by
    component. *)
Lemma in_destination_shape (s s' : string) (cs cs' : list string) :
  s = "/" ∨ s = "//" → s' = "/" ∨ s' = "//" →
  Forall component cs → Forall component cs' → cs ≠ [] →
  in_destination (s +:+ Str.join "/" cs) (s' +:+ Str.join "/" cs') = true
  ↔ s = s' ∧ cs `prefix_of` cs'.
Proof.
  intros Hs Hs' Hcs Hcs' Hne. unfold in_destination. split.
  - intros [Heq|Hstart]%orb_prop.
    + apply bool_decide_eq_true in Heq.
      apply (f_equal Pathlib.parse) in Heq.
      rewrite !parse_shape in Heq by done. by injection Heq as -> ->.
    + apply startswith_split in Hstart as [y Hy].
      change OsPath.sep with "/" in Hy.
      rewrite string_app_assoc in Hy. change ("/" +:+ y) with (String "/" y) in Hy.
      pose proof (f_equal Pathlib.parse Hy) as Hp.
      rewrite parse_shape in Hp by done.
      split.
      * pose proof (f_equal Pathlib.root Hp) as Hr. cbn [Pathlib.root] in Hr.
        unfold Pathlib.parse in Hr at 1. cbn [Pathlib.root] in Hr.
        rewrite Hr. by rewrite parse_root_shape.
      * pose proof (f_equal Pathlib.parts Hp) as Hparts.
        cbn [Pathlib.parts] in Hparts.
        rewrite parts_app_sep, parse_shape in Hparts by done.
        cbn [Pathlib.parts] in Hparts. rewrite Hparts. by eexists.
  - intros [<- [extra ->]]. apply orb_true_iff.
    destruct extra as [|e extra].
    + left. rewrite app_nil_r. by apply bool_decide_eq_true.
    + right. rewrite join_app by done.
      change OsPath.sep with "/".
      rewrite <- !string_app_assoc.
      replace ((s +:+ Str.join "/" cs) +:+ String "/" (Str.join "/" (e :: extra)))
        with (((s +:+ Str.join "/" cs) +:+ "/") +:+ Str.join "/" (e :: extra))
        by (by rewrite !string_app_assoc).
      apply startswith_app.
Qed.

Lemma in_destination_under (w : world) (dest root : string) :
  Str.startswith "/" (cwd w) = true →
  Pathlib.parts (Pathlib.parse (normalized w dest)) ≠ [] →
  in_destination (normalized w dest) (normalized w root) = true
  ↔ under (normalized w dest) (normalized w root).
Proof.
  intros Hcwd Hne. unfold under.
  destruct (normalized_shape w dest Hcwd) as (s & cs & Hd & Hs & Hcs).
  destruct (normalized_shape w root Hcwd) as (s' & cs' & Hr & Hs' & Hcs').
  rewrite Hd, Hr in *. clear Hd Hr.
  rewrite !parse_shape in * by done. cbn [Pathlib.root Pathlib.parts] in *.
  by apply in_destination_shape.
Qed.

Lemma in_destination_root (w : world) (dest root : string) :
  Str.startswith "/" (cwd w) = true →
  Pathlib.parts (Pathlib.parse (normalized w dest)) = [] →
  Pathlib.root (Pathlib.parse (normalized w root)) = "/" →
  Pathlib.parts (Pathlib.parse (normalized w root)) ≠ [] →
  in_destination (normalized w dest) (normalized w root) = false.
Proof.
  intros Hcwd Hdest Hroot Hne.
  destruct (normalized_shape w dest Hcwd) as (s & cs & Hd & Hs & Hcs).
  destruct (normalized_shape w root Hcwd) as (s' & cs' & Hr & Hs' & Hcs').
  rewrite Hd, Hr in *. clear Hd Hr.
  rewrite !parse_shape in * by done. cbn [Pathlib.root Pathlib.parts] in *.
  subst cs s'. destruct cs' as [|c cs']; [done|].
  apply Forall_cons in Hcs' as [Hc _].
  destruct (join_head c cs' Hc) as (x & rest & -> & Hx).
  unfold in_destination. apply orb_false_iff.
  destruct Hs as [-> | ->]; split.
  - apply bool_decide_eq_false. intros Heq. discriminate.
  - simpl. by rewrite (bool_decide_eq_false_2 ("/"%char = x)) by done.
  - apply bool_decide_eq_false. intros Heq. injection Heq as Heq _.
    by subst.
  - simpl. by rewrite (bool_decide_eq_false_2 ("/"%char = x)) by done.
Qed.

(** X11: when the destination (or the excluded folder) is not a root
    directory, the test [root_normalized == dest_normalized or
    root_normalized.startswith(dest_normalized + os.sep)] holds exactly for
    the directories that are the destination or lie under it, component by
    component: a sibling whose name only begins like the destination's is
    not taken for a part of it. *)
Theorem guard_is_component_prefix (w : world) (dest root : string) :
  Str.startswith "/" (cwd w) = true →
  Pathlib.parts (Pathlib.parse (normalized w dest)) ≠ [] →
  in_destination (normalized w dest) (normalized w root) = true
  ↔ Pathlib.root (Pathlib.parse (normalized w dest))
    = Pathlib.root (Pathlib.parse (normalized w root))
    ∧ Pathlib.parts (Pathlib.parse (normalized w dest))
      `prefix_of` Pathlib.parts (Pathlib.parse (normalized w root)).
Proof. apply in_destination_under. Qed.

Lemma guard_is_component_prefix_witness :
  in_destination (normalized root_tree "/photos/Organized")
    (normalized root_tree "/photos/Organized-old/2024") = false.
Proof.
  destruct (in_destination _ _) eqn:E; [|reflexivity]. exfalso.
  apply (guard_is_component_prefix root_tree "/photos/Organized"
           "/photos/Organized-old/2024") in E.
  - destruct E as [_ [k Hk]]. vm_compute in Hk. discriminate.
  - vm_compute. reflexivity.
  - vm_compute. discriminate.
Defined.

(** X12: when the destination (or the excluded folder) is a root
    directory, the test holds for no directory below it: added to the
    separator the root already ends with, [os.sep] gives two separators,
    which no normalized path with one leading slash begins with. *)
Theorem root_destination_skips_nothing_below (w : world) (dest root : string) :
  Str.startswith "/" (cwd w) = true →
  Pathlib.parts (Pathlib.parse (normalized w dest)) = [] →
  Pathlib.root (Pathlib.parse (normalized w root)) = "/" →
  Pathlib.parts (Pathlib.parse (normalized w root)) ≠ [] →
  in_destination (normalized w dest) (normalized w root) = false.
Proof. apply in_destination_root. Qed.

Lemma root_destination_skips_nothing_below_witness :
  in_destination (normalized root_tree "/")
    (normalized root_tree "/2024/20240309/JPG") = false.
Proof.
  apply (root_destination_skips_nothing_below root_tree "/"
           "/2024/20240309/JPG").
  - vm_compute. reflexivity.
  - vm_compute. reflexivity.
  - vm_compute. reflexivity.
  - vm_compute. discriminate.
Defined.

(** * Running again over what has been filed *)

Lemma file_steps_outside (w : world) (dest : string) (walk : list walk_item) :
  Str.startswith "/" (cwd w) = true →
  Pathlib.parts (Pathlib.parse (normalized w dest)) ≠ [] →
  file_steps (cwd w) (normalized w dest) (outside w dest walk)
  = file_steps (cwd w) (normalized w dest) walk.
Proof.
  intros Hcwd Hne. induction walk as [|[[root dirs] filenames] walk IH];
    [done|].
  unfold outside in *. cbn [List.filter fst].
  rewrite (file_steps_cons _ _ (root, dirs, filenames) walk).
  unfold dir_steps. cbn [fst snd].
  change (Str.lower (OsPath.normpath (OsPath.abspath (cwd w) root)))
    with (normalized w root).
  pose proof (in_destination_under w dest root Hcwd Hne) as Hiff.
  destruct (in_destination (normalized w dest) (normalized w root)) eqn:E.
  - rewrite bool_decide_eq_true_2 by (by apply Hiff). simpl. exact IH.
  - rewrite bool_decide_eq_false_2.
    2:{ intros H. apply Hiff in H. congruence. }
    simpl negb. cbv iota. rewrite file_steps_cons, IH.
    unfold dir_steps. cbn [fst snd].
    change (Str.lower (OsPath.normpath (OsPath.abspath (cwd w) root)))
      with (normalized w root).
    by rewrite E.
Qed.

Lemma organize_photos_outside (walk : list walk_item) (w : world)
    (source_folder : string) (destination_folder : option string)
    (copy_files : bool) :
  let dest := match destination_folder with
              | None => OsPath.join source_folder "Organized"
              | Some d => d
              end in
  Str.startswith "/" (cwd w) = true →
  Pathlib.parts (Pathlib.parse (normalized w dest)) ≠ [] →
  organize_photos walk w source_folder destination_folder copy_files
  = organize_photos (outside w dest walk) w source_folder destination_folder
      copy_files.
Proof.
  intros dest Hcwd Hne. rewrite !organize_photos_steps. fold dest.
  by rewrite file_steps_outside.
Qed.

Lemma outside_nil (w : world) (dest : string) (walk : list walk_item) :
  Forall (λ item : walk_item,
            under (normalized w dest) (normalized w item.1.1)) walk →
  outside w dest walk = [].
Proof.
  induction 1 as [|item walk Hitem _ IH]; [done|].
  unfold outside in *. cbn [List.filter].
  by rewrite bool_decide_eq_true_2.
Qed.

(** X13: with a destination that is not a root directory, a filing run
    gives the result it would give on the walk without the directories
    that are the destination or lie under it: no file of these is counted,
    read, copied or moved.  A run over a tree that lies in the destination
    finds nothing and leaves the file system as it is. *)
Theorem destination_subtree_is_left_alone (walk : list walk_item) (w : world)
    (source_folder destination_folder : string) (copy_files : bool) :
  Str.startswith "/" (cwd w) = true →
  Pathlib.parts (Pathlib.parse (normalized w destination_folder)) ≠ [] →
  organize_photos walk w source_folder (Some destination_folder) copy_files
  = organize_photos (outside w destination_folder walk) w source_folder
      (Some destination_folder) copy_files
  ∧ (Forall (λ item : walk_item,
               under (normalized w destination_folder)
                     (normalized w item.1.1)) walk →
     organize_photos walk w source_folder (Some destination_folder) copy_files
     = (mkStats 0 0 0 [], w)).
Proof.
  intros Hcwd Hne.
  pose proof (organize_photos_outside walk w source_folder
                (Some destination_folder) copy_files Hcwd Hne) as H.
  split; [exact H|]. intros Hall. rewrite H.
  by rewrite outside_nil.
Qed.

Lemma destination_subtree_is_left_alone_witness :
  organize_photos filed_walk filed_tree "/photos/Organized"
    (Some "/photos/Organized") true
  = (mkStats 0 0 0 [], filed_tree).
Proof.
  refine (proj2 (destination_subtree_is_left_alone filed_walk filed_tree
                   "/photos/Organized" "/photos/Organized" true _ _) _).
  - vm_compute. reflexivity.
  - vm_compute. discriminate.
  - repeat (constructor;
            [apply (bool_decide_eq_true_1 _); vm_compute; reflexivity|]).
    constructor.
Defined.

(** ** The default destination *)

Lemma norm_comps_snoc k todo comps c :
  c ≠ "" → c ≠ "." → c ≠ ".." →
  OsPath.norm_comps k (todo ++ [c]) comps
  = OsPath.norm_comps k todo comps ++ [c].
Proof.
  intros H1 H2 H3. revert comps.
  induction todo as [|t todo IH]; intros comps.
  - cbn [app OsPath.norm_comps].
    by rewrite !bool_decide_eq_false_2 by done.
  - cbn [app OsPath.norm_comps].
    destruct (_ || _); [apply IH|]. destruct (_ || _); apply IH.
Qed.

(** A path that ends in [/c] is normalized into one that ends in the
    component [c]. *)
Lemma normpath_keeps_last (Y c : string) :
  Str.startswith "/" (Y +:+ String "/" c) = true →
  component c → c ≠ ".." →
  ∃ s cs, OsPath.normpath (Y +:+ String "/" c)
          = s +:+ Str.join "/" (cs ++ [c])
          ∧ (s = "/" ∨ s = "//") ∧ Forall component cs.
Proof.
  intros Habs [Hpart Hsep] Hdd.
  assert (Hc : c ≠ "" ∧ c ≠ ".").
  { unfold Pathlib.is_part in Hpart.
    apply andb_true_iff in Hpart as [H1 H2].
    by apply negb_true_iff, bool_decide_eq_false in H1, H2. }
  destruct Hc as [Hc1 Hc2].
  set (q := Y +:+ String "/" c) in *. unfold OsPath.normpath.
  rewrite bool_decide_eq_false_2 by (intros Hq; by rewrite Hq in Habs).
  set (k := if Str.startswith "///" q then 1
            else if Str.startswith "//" q then 2
            else if Str.startswith "/" q then 1 else 0).
  assert (Hk : k = 1 ∨ k = 2).
  { unfold k. rewrite Habs. repeat case_match; auto. }
  assert (Hsplit : Str.split "/" q = Str.split "/" Y ++ [c]).
  { unfold q. by rewrite split_app, (split_component c Hsep). }
  cbv zeta. rewrite Hsplit, norm_comps_snoc by done.
  assert (Hcs : Forall component (OsPath.norm_comps k (Str.split "/" Y) [])).
  { apply norm_comps_components; [apply split_no_sep|done]. }
  destruct Hk as [Hk|Hk]; rewrite Hk in *.
  - rewrite bool_decide_eq_false_2 by done. exists "/". eauto.
  - rewrite bool_decide_eq_false_2 by done. exists "//". eauto.
Qed.

Lemma shape_ends (s : string) (cs : list string) (c : string) :
  s = "/" ∨ s = "//" →
  ∃ Y, s +:+ Str.join "/" (cs ++ [c]) = Y +:+ String "/" c.
Proof.
  intros Hs. destruct cs as [|c' cs].
  - destruct Hs as [-> | ->]; [by exists ""|by exists "/"].
  - rewrite join_app by done. exists (s +:+ Str.join "/" (c' :: cs)).
    by rewrite string_app_assoc.
Qed.

Lemma join_ends (a c : string) :
  component c → a ≠ "" → ∃ Y, OsPath.join a c = Y +:+ String "/" c.
Proof.
  intros Hc Ha. unfold OsPath.join.
  rewrite (component_not_absolute c Hc).
  rewrite bool_decide_eq_false_2 by done. simpl.
  unfold OsPath.endswith_sep.
  destruct (Str.rfind "/" a) as [i|] eqn:E; [|by exists a].
  destruct (S i =? String.length a) eqn:El; [|by exists a].
  apply Nat.eqb_eq in El. destruct (rfind_last _ _ E El) as [x ->].
  exists x. by rewrite string_app_assoc.
Qed.

Lemma join_keeps_end (a Y c : string) :
  ∃ Y', OsPath.join a (Y +:+ String "/" c) = Y' +:+ String "/" c.
Proof.
  unfold OsPath.join. destruct (Str.startswith "/" _); [by exists Y|].
  destruct (_ || _).
  - exists (a +:+ Y). by rewrite string_app_assoc.
  - exists (a +:+ "/" +:+ Y). by rewrite !string_app_assoc.
Qed.

Lemma default_destination_parts (w : world) (source_folder : string) :
  Str.startswith "/" (cwd w) = true →
  Pathlib.parts
    (Pathlib.parse (normalized w (OsPath.join source_folder "Organized")))
  ≠ [].
Proof.
  intros Hcwd.
  assert (Hc : component "Organized") by (by split).
  assert (Hq : ∃ Y, (if Str.startswith "/" (OsPath.join source_folder "Organized")
                     then OsPath.join source_folder "Organized"
                     else OsPath.join (cwd w)
                            (OsPath.join source_folder "Organized"))
                    = Y +:+ String "/" "Organized"
                    ∧ Str.startswith "/" (Y +:+ String "/" "Organized") = true).
  { destruct (Str.startswith "/" (OsPath.join source_folder "Organized"))
      eqn:Habs.
    - destruct (decide (source_folder = "")) as [->|Hne]; [done|].
      destruct (join_ends source_folder "Organized" Hc Hne) as [Y HY].
      exists Y. by rewrite <- HY.
    - destruct (decide (source_folder = "")) as [->|Hne].
      + change (OsPath.join "" "Organized") with "Organized".
        destruct (join_ends (cwd w) "Organized" Hc) as [Y HY].
        { intros Hw. by rewrite Hw in Hcwd. }
        exists Y. rewrite <- HY. split; [done|]. by apply join_absolute.
      + destruct (join_ends source_folder "Organized" Hc Hne) as [Y HY].
        rewrite HY. destruct (join_keeps_end (cwd w) Y "Organized") as [Y' HY'].
        exists Y'. rewrite <- HY'. split; [done|]. by apply join_absolute. }
  destruct Hq as (Y & HY & Habs).
  unfold normalized, OsPath.abspath. rewrite HY.
  destruct (normpath_keeps_last Y "Organized" Habs Hc)
    as (s1 & cs1 & -> & Hs1 & _); [done|].
  destruct (shape_ends s1 cs1 "Organized" Hs1) as [Y2 HY2]. rewrite HY2.
  destruct (normpath_keeps_last Y2 "Organized") as (s & cs & -> & Hs & Hcs);
    [|done|done|].
  { rewrite <- HY2. by apply shape_absolute. }
  rewrite lower_app, lower_join.
  replace (Str.lower s) with s by (by destruct Hs as [-> | ->]).
  rewrite parse_shape; [|done|].
  - cbn [Pathlib.parts]. rewrite fmap_app. by destruct (Str.lower <$> cs).
  - apply Forall_fmap. eapply Forall_impl.
    + apply Forall_app. split; [exact Hcs|]. by constructor.
    + intros c Hcc. by apply lower_component.
Qed.

(** X14: with the default destination, the folder [Organized] of the
    source, the test never fails, whatever the source folder: a run gives
    the result it would give on the walk without [Organized] and what is
    under it, and a run over a tree that lies in [Organized] finds nothing
    and leaves the file system as it is. *)
Theorem default_destination_is_left_alone (walk : list walk_item) (w : world)
    (source_folder : string) (copy_files : bool) :
  Str.startswith "/" (cwd w) = true →
  organize_photos walk w source_folder None copy_files
  = organize_photos
      (outside w (OsPath.join source_folder "Organized") walk) w
      source_folder None copy_files
  ∧ (Forall (λ item : walk_item,
               under (normalized w (OsPath.join source_folder "Organized"))
                     (normalized w item.1.1)) walk →
     organize_photos walk w source_folder None copy_files
     = (mkStats 0 0 0 [], w)).
Proof.
  intros Hcwd.
  pose proof (organize_photos_outside walk w source_folder None copy_files
                Hcwd (default_destination_parts w source_folder Hcwd)) as H.
  split; [exact H|]. intros Hall. rewrite H.
  by rewrite outside_nil.
Qed.

Lemma default_destination_is_left_alone_witness :
  organize_photos filed_walk filed_tree "/photos" None true
  = (mkStats 0 0 0 [], filed_tree).
Proof.
  refine (proj2 (default_destination_is_left_alone filed_walk filed_tree
                   "/photos" true _) _).
  - vm_compute. reflexivity.
  - repeat (constructor;
            [apply (bool_decide_eq_true_1 _); vm_compute; reflexivity|]).
    constructor.
Defined.

(** * What a filing run does to the disk as a whole *)

Lemma run_steps_media destination_folder copy_files steps s :
  run_steps destination_folder copy_files (List.filter is_media_step steps) s
  = run_steps destination_folder copy_files steps s.
Proof.
  induction steps as [|step steps IH] using rev_ind; [done|].
  rewrite List.filter_app, !run_steps_app, IH. cbn [List.filter].
  destruct (run_steps destination_folder copy_files steps s) as [st w'].
  pose proof (process_file_outcome destination_folder step.1 step.2
                copy_files st w') as H. cbv zeta in H.
  unfold is_media_step. destruct (is_image_file _); [done|].
  unfold run_steps. cbn [foldl]. by rewrite H.
Qed.

Lemma file_steps_media_only cwd dest_normalized walk :
  file_steps cwd dest_normalized (media_only walk)
  = List.filter is_media_step (file_steps cwd dest_normalized walk).
Proof.
  induction walk as [|[[root dirs] filenames] walk IH]; [done|].
  unfold media_only in *. cbn [map fst snd].
  rewrite (file_steps_cons _ _ (root, dirs, _)), (file_steps_cons _ _ (root, dirs, filenames)).
  rewrite List.filter_app, IH. f_equal.
  unfold dir_steps. cbn [fst snd].
  destruct (in_destination _ _); [done|].
  induction filenames as [|x l IHl]; [done|].
  cbn [List.filter map].
  change (is_media_step (root, x)) with (is_image_file (OsPath.join root x)).
  destruct (is_image_file (OsPath.join root x)); cbn [map]; by rewrite IHl.
Qed.

(** X15: a filing run does not depend on the files that are not media
    files: it gives the statistics and the file system it would give if the
    walk listed the media files only.  Such files are never counted, read,
    copied or moved. *)
Theorem other_files_are_ignored (walk : list walk_item) (w : world)
    (source_folder : string) (destination_folder : option string)
    (copy_files : bool) :
  organize_photos walk w source_folder destination_folder copy_files
  = organize_photos (media_only walk) w source_folder destination_folder
      copy_files.
Proof.
  rewrite !organize_photos_steps. cbv zeta.
  by rewrite file_steps_media_only, run_steps_media.
Qed.

(** ** Counting the files *)

Lemma filter_files_fresh (m : gmap string node) (k : string) :
  m !! k = None →
  filter (λ kv : string * node, is_file kv.2) m !! k = None.
Proof. intros H. apply map_lookup_filter_None_2. by left. Qed.

Lemma os_makedirs_count w target_dir w1 :
  os_makedirs w target_dir = Ok w1 → file_count w1 = file_count w.
Proof.
  unfold os_makedirs, file_count.
  destruct (nodes w !! target_dir) as [[]|] eqn:E; try done.
  - by intros [= <-].
  - case_bool_decide; [done|]. intros [= <-]. simpl.
    rewrite map_filter_insert_False by (simpl; tauto).
    by rewrite delete_id.
Qed.

Lemma copy_or_move_count w src dst (copy_files : bool) w2 :
  os_path_exists w dst = false →
  (if copy_files then shutil_copy2 w src dst else shutil_move w src dst)
  = Ok w2 →
  file_count w2 = file_count w + (if copy_files then 1 else 0).
Proof.
  intros Hfree.
  assert (Hnone : nodes w !! dst = None).
  { unfold os_path_exists in Hfree. apply bool_decide_eq_false in Hfree.
    destruct (nodes w !! dst); [|done]. exfalso. apply Hfree. eauto. }
  destruct copy_files; unfold shutil_copy2, shutil_move;
    rewrite !(real_dst_free w dst _ Hfree);
    destruct (nodes w !! src) as [[st exif|]|] eqn:Hsrc; try done;
    case_bool_decide; try done; intros [= <-]; unfold file_count; simpl.
  - rewrite map_filter_insert_True by done.
    rewrite map_size_insert_None by by apply filter_files_fresh.
    lia.
  - rewrite map_filter_insert_True by done.
    rewrite map_size_insert_None
      by (apply filter_files_fresh; rewrite lookup_delete_ne; [done|];
          intros ->; congruence).
    rewrite map_filter_delete.
    rewrite <- (insert_delete_id
                  (filter (λ kv : string * node, is_file kv.2) (nodes w))
                  src (File st exif)) at 2
      by (by apply map_lookup_filter_Some_2).
    rewrite map_size_insert_None by apply lookup_delete_eq.
    lia.
Qed.

Lemma file_try_count w destination_folder file_path filename copy_files :
  file_count (file_try w destination_folder file_path filename copy_files).1
  = file_count w
    + match (file_try w destination_folder file_path filename copy_files).2
      with
      | Ok _ => if copy_files then 1 else 0
      | Raise _ => 0
      end.
Proof.
  rewrite file_try_unfold.
  destruct (get_photo_date w file_path) as [photo_date|e]; [|simpl; lia].
  cbv zeta.
  destruct (os_makedirs w _) as [w1|e] eqn:Hmk; [|simpl; lia].
  apply os_makedirs_count in Hmk.
  match goal with |- context [choose_target w1 ?d ?f] =>
    pose proof (choose_target_spec w1 d f) as [Hfree _];
    set (target_path := choose_target w1 d f) in * end.
  destruct (if copy_files then shutil_copy2 w1 file_path target_path
            else shutil_move w1 file_path target_path) as [w2|e] eqn:Hcp;
    simpl; [|lia].
  apply copy_or_move_count in Hcp; [|done]. lia.
Qed.

Lemma run_steps_count destination_folder copy_files steps s :
  file_count (run_steps destination_folder copy_files steps s).2
  + (if copy_files then organized s.1 else 0)
  = file_count s.2
    + (if copy_files
       then organized (run_steps destination_folder copy_files steps s).1
       else 0).
Proof.
  induction steps as [|step steps IH] using rev_ind; [done|].
  rewrite run_steps_snoc.
  destruct (run_steps destination_folder copy_files steps s) as [st w'].
  pose proof (process_file_outcome destination_folder step.1 step.2
                copy_files st w') as H. cbv zeta in H.
  pose proof (file_try_count w' destination_folder
                (OsPath.join step.1 step.2) step.2 copy_files) as Hc.
  destruct (is_image_file _); [|by rewrite H].
  destruct H as (-> & _ & H).
  destruct (file_try w' destination_folder _ step.2 copy_files).2;
    destruct H as (Ho & _ & _); rewrite Ho; simpl in *;
    destruct copy_files; lia.
Qed.


(** ** What a run keeps *)

Lemma file_try_raise_nodes w destination_folder file_path filename copy_files
    w' e :
  file_try w destination_folder file_path filename copy_files = (w', Raise e) →
  nodes w ⊆ nodes w'.
Proof.
  rewrite file_try_unfold.
  destruct (get_photo_date w file_path) as [photo_date|e0];
    [|by intros [= <- _]].
  cbv zeta.
  destruct (os_makedirs w _) as [w1|e1] eqn:Hmk; [|by intros [= <- _]].
  apply os_makedirs_nodes in Hmk as [Hsub _].
  destruct (if copy_files then shutil_copy2 w1 file_path _
            else shutil_move w1 file_path _) as [w2|e2]; [done|].
  by intros [= <- _].
Qed.

Lemma run_steps_copy_nodes destination_folder steps s :
  nodes s.2 ⊆ nodes (run_steps destination_folder true steps s).2.
Proof.
  induction steps as [|step steps IH] using rev_ind; [done|].
  rewrite run_steps_snoc. etrans; [exact IH|].
  destruct (run_steps destination_folder true steps s) as [st w'].
  pose proof (process_file_outcome destination_folder step.1 step.2
                true st w') as H. cbv zeta in H.
  destruct (is_image_file _); [|by rewrite H].
  destruct H as (-> & _). simpl.
  apply (file_try_nodes w' destination_folder _ step.2 true).
Qed.


Lemma run_steps_move_nodes destination_folder copy_files steps s p n :
  p ∉ map (λ step : string * string, OsPath.join step.1 step.2)
        (List.filter is_media_step steps) →
  nodes s.2 !! p = Some n →
  nodes (run_steps destination_folder copy_files steps s).2 !! p = Some n.
Proof.
  induction steps as [|step steps IH] using rev_ind; [done|].
  rewrite List.filter_app, map_app, run_steps_snoc. intros Hp Hn.
  apply not_elem_of_app in Hp as [Hp1 Hp2].
  specialize (IH Hp1 Hn).
  destruct (run_steps destination_folder copy_files steps s) as [st w'].
  pose proof (process_file_outcome destination_folder step.1 step.2
                copy_files st w') as H. cbv zeta in H.
  cbn [List.filter] in Hp2. unfold is_media_step in Hp2.
  destruct (is_image_file _); [|by rewrite H].
  destruct H as (-> & _). simpl in *.
  pose proof (file_try_nodes w' destination_folder
                (OsPath.join step.1 step.2) step.2 copy_files) as [Hsub _].
  eapply lookup_weaken; [|exact Hsub].
  destruct copy_files; [done|].
  rewrite lookup_delete_ne; [done|].
  intros <-. apply Hp2. by left.
Qed.



Lemma keeps_contents_subseteq w w' :
  nodes w ⊆ nodes w' → keeps_contents w w'.
Proof.
  intros Hsub p st exif Hp. exists p, st. split; [|done].
  by apply (lookup_weaken _ _ _ _ Hp Hsub).
Qed.

Lemma keeps_contents_trans w1 w2 w3 :
  keeps_contents w1 w2 → keeps_contents w2 w3 → keeps_contents w1 w3.
Proof.
  intros H12 H23 p st exif Hp.
  destruct (H12 p st exif Hp) as (p2 & st2 & Hp2 & Hs2).
  destruct (H23 p2 st2 exif Hp2) as (p3 & st3 & Hp3 & Hs3).
  exists p3, st3. split; [done|congruence].
Qed.

Lemma file_try_keeps_contents w destination_folder file_path filename
    copy_files :
  keeps_contents w
    (file_try w destination_folder file_path filename copy_files).1.
Proof.
  destruct (file_try w destination_folder file_path filename copy_files)
    as [w' [filed|e]] eqn:Htry; simpl.
  - pose proof (file_try_nodes w destination_folder file_path filename
                  copy_files) as [Hsub _].
    rewrite Htry in Hsub. simpl in Hsub.
    apply file_try_filed in Htry as (_ & st0 & exif0 & Hsrc & Hdst).
    intros p st exif Hp.
    destruct (decide (p = file_path)) as [->|Hne].
    + rewrite Hsrc in Hp. injection Hp as <- <-.
      eexists filed, _. split; [exact Hdst|].
      by destruct copy_files.
    + exists p, st. split; [|done].
      eapply lookup_weaken; [|exact Hsub].
      destruct copy_files; [done|]. by rewrite lookup_delete_ne.
  - apply keeps_contents_subseteq.
    by apply file_try_raise_nodes in Htry.
Qed.

Lemma run_steps_keeps_contents destination_folder copy_files steps s :
  keeps_contents s.2 (run_steps destination_folder copy_files steps s).2.
Proof.
  induction steps as [|step steps IH] using rev_ind.
  { by apply keeps_contents_subseteq. }
  rewrite run_steps_snoc. eapply keeps_contents_trans; [exact IH|].
  destruct (run_steps destination_folder copy_files steps s) as [st w'].
  pose proof (process_file_outcome destination_folder step.1 step.2
                copy_files st w') as H. cbv zeta in H.
  destruct (is_image_file _).
  - destruct H as (-> & _). simpl. apply file_try_keeps_contents.
  - rewrite H. by apply keeps_contents_subseteq.
Qed.

(** X19: no run loses the content of a file, whatever the mode and
    whatever fails on the way: for every regular file on disk before the
    run there is, after it, a regular file of the same size with the same
    EXIF data, at the same path or at the path it was moved to. *)
Theorem run_loses_no_content (walk : list walk_item) (w : world)
    (source_folder : string) (destination_folder : option string)
    (copy_files : bool) (p : string) (st : stat_result) (exif : option exif_dict) :
  nodes w !! p = Some (File st exif) →
  ∃ p' st',
    nodes (organize_photos walk w source_folder destination_folder
             copy_files).2 !! p' = Some (File st' exif)
    ∧ st_size st' = st_size st.
Proof.
  rewrite organize_photos_steps. cbv zeta.
  match goal with |- context [run_steps ?d _ ?steps ?s] =>
    apply (run_steps_keeps_contents d copy_files steps s) end.
Qed.

Lemma run_loses_no_content_witness :
  ∃ p' st',
    nodes (organize_photos album_walk album_tree "/album" None false).2 !! p'
    = Some (File st' None)
    ∧ st_size st' = st_size (example_stat 1).
Proof.
  apply (run_loses_no_content album_walk album_tree "/album" None false
           "/album/a.jpg" (example_stat 1) None).
  vm_compute. reflexivity.
Defined.

(** * The scan of a tree for duplicates *)

Lemma scanned_cons w excluded_folder root dirs filenames walk :
  scanned w excluded_folder ((root, dirs, filenames) :: walk)
  = (if excluded w (excluded_normalized w excluded_folder) root then []
     else [root]) ++ scanned w excluded_folder walk.
Proof.
  unfold scanned. cbn [List.filter fst snd].
  by destruct (excluded w _ root).
Qed.

Lemma scan_loop_cons w en root dirs filenames walk acc :
  scan_loop w en ((root, dirs, filenames) :: walk) acc
  = if excluded w en root then scan_loop w en walk acc
    else match find_duplicates_in_folder w root with
         | Raise e => Raise e
         | Ok folder_duplicates =>
             scan_loop w en walk (acc ++ dict_values folder_duplicates)
         end.
Proof. reflexivity. Qed.

Lemma is_dir_returns w root :
  is_dir w root = true → ∃ d, find_duplicates_in_folder w root = Ok d.
Proof.
  unfold is_dir. destruct (nodes w !! root) as [[|st entries listable]|] eqn:E;
    try done.
  intros _. by apply (find_duplicates_in_folder_returns w root st entries listable).
Qed.

Lemma not_dir_raises w root :
  is_dir w root = false →
  find_duplicates_in_folder w root = Raise (listing_error w root).
Proof.
  unfold is_dir, listing_error, find_duplicates_in_folder, size_ext_groups,
    os_listdir.
  by destruct (nodes w !! root) as [[]|].
Qed.

Lemma scan_loop_returns w excluded_folder walk acc :
  Forall (λ root, is_dir w root = true) (scanned w excluded_folder walk) →
  ∃ ds,
    Forall2 (λ root d, find_duplicates_in_folder w root = Ok d)
      (scanned w excluded_folder walk) ds
    ∧ scan_loop w (excluded_normalized w excluded_folder) walk acc
      = Ok (acc ++ concat (map dict_values ds)).
Proof.
  revert acc.
  induction walk as [|[[root dirs] filenames] walk IH]; intros acc Hall.
  { exists []. split; [constructor|]. simpl. by rewrite app_nil_r. }
  rewrite scanned_cons in *. rewrite scan_loop_cons.
  destruct (excluded w _ root); cbn [app] in *.
  - by apply IH.
  - apply Forall_cons in Hall as [Hroot Hall].
    destruct (is_dir_returns w root Hroot) as [d Hd]. rewrite Hd.
    destruct (IH (acc ++ dict_values d) Hall) as (ds & Hds & ->).
    exists (d :: ds). split; [by constructor|].
    cbn [map concat]. by rewrite app_assoc.
Qed.

Lemma scan_loop_aborts w excluded_folder walk acc before root after :
  scanned w excluded_folder walk = before ++ root :: after →
  Forall (λ root, is_dir w root = true) before →
  is_dir w root = false →
  scan_loop w (excluded_normalized w excluded_folder) walk acc
  = Raise (listing_error w root).
Proof.
  revert acc before.
  induction walk as [|[[root' dirs] filenames] walk IH];
    intros acc before Hsc Hbefore Hroot.
  { by destruct before. }
  rewrite scanned_cons in Hsc. rewrite scan_loop_cons.
  destruct (excluded w _ root'); cbn [app] in Hsc.
  - by apply (IH acc before).
  - destruct before as [|b before]; simplify_eq/=.
    + by rewrite not_dir_raises.
    + apply Forall_cons in Hbefore as [Hb Hbefore].
      destruct (is_dir_returns w b Hb) as [d ->].
      by apply (IH _ before).
Qed.

(** X20: when every walked folder the scan looks into is a directory on
    disk, the scan returns, and what it returns is the groups of these
    folders put end to end, folder after folder in the order of the walk. *)
Theorem scan_returns_groups_in_walk_order (walk : list walk_item) (w : world)
    (root_folder : string) (excluded_folder : option string) :
  Forall (λ root, is_dir w root = true) (scanned w excluded_folder walk) →
  ∃ ds,
    Forall2 (λ root d, find_duplicates_in_folder w root = Ok d)
      (scanned w excluded_folder walk) ds
    ∧ scan_for_duplicates walk w root_folder excluded_folder
      = Ok (concat (map dict_values ds)).
Proof.
  intros Hall. unfold scan_for_duplicates.
  destruct (scan_loop_returns w excluded_folder walk [] Hall) as (ds & H1 & H2).
  by exists ds.
Qed.

Lemma scan_returns_groups_in_walk_order_witness :
  ∃ ds,
    Forall2 (λ root d, find_duplicates_in_folder library_tree root = Ok d)
      (scanned library_tree None library_walk) ds
    ∧ scan_for_duplicates library_walk library_tree "/lib" None
      = Ok (concat (map dict_values ds)).
Proof.
  apply (scan_returns_groups_in_walk_order library_walk library_tree "/lib"
           None).
  repeat (constructor; [vm_compute; reflexivity|]). constructor.
Defined.

(** X21: the scan stops at the first walked folder it looks into that is
    not a directory on disk (a folder removed since it was listed, or a
    file): it raises the exception of the listing, [FileNotFoundError] or
    [NotADirectoryError] with the path of this folder, and the groups found
    in the folders before it are not returned. *)
Theorem scan_aborts_at_first_missing_folder (walk : list walk_item)
    (w : world) (root_folder : string) (excluded_folder : option string)
    (before after : list string) (root : string) :
  scanned w excluded_folder walk = before ++ root :: after →
  Forall (λ root, is_dir w root = true) before →
  is_dir w root = false →
  scan_for_duplicates walk w root_folder excluded_folder
  = Raise (match nodes w !! root with
           | Some (File _ _) => NotADirectoryError root
           | _ => FileNotFoundError root
           end).
Proof. intros Hsc Hbefore Hroot. by eapply scan_loop_aborts. Qed.

Lemma scan_aborts_at_first_missing_folder_witness :
  scan_for_duplicates stale_walk library_tree "/lib" None
  = Raise (FileNotFoundError "/lib/gone").
Proof.
  apply (scan_aborts_at_first_missing_folder stale_walk library_tree "/lib"
           None ["/lib"; "/lib/shoot"] ["/lib/album"] "/lib/gone").
  - vm_compute. reflexivity.
  - repeat (constructor; [vm_compute; reflexivity|]). constructor.
  - vm_compute. reflexivity.
Defined.

(** ** The excluded folder *)

Lemma normalized_nonempty (w : world) (p : string) :
  Pathlib.parts (Pathlib.parse (normalized w p)) ≠ [] →
  nonempty (normalized w p) = true.
Proof.
  intros Hne. unfold nonempty. apply negb_true_iff, bool_decide_eq_false.
  intros E. by rewrite E in Hne.
Qed.

Lemma scan_loop_outside (w : world) (excluded_folder : string)
    (walk : list walk_item) (acc : list DuplicateGroup) :
  Str.startswith "/" (cwd w) = true →
  Pathlib.parts (Pathlib.parse (normalized w excluded_folder)) ≠ [] →
  scan_loop w (Some (normalized w excluded_folder)) walk acc
  = scan_loop w None (outside w excluded_folder walk) acc.
Proof.
  intros Hcwd Hne. revert acc.
  induction walk as [|[[root dirs] filenames] walk IH]; intros acc; [done|].
  unfold outside in *. cbn [List.filter fst]. rewrite scan_loop_cons.
  cbn [excluded]. rewrite (normalized_nonempty w excluded_folder Hne).
  cbn [andb].
  pose proof (in_destination_under w excluded_folder root Hcwd Hne) as Hiff.
  destruct (in_destination (normalized w excluded_folder) (normalized w root))
    eqn:E.
  - rewrite bool_decide_eq_true_2 by (by apply Hiff). simpl. apply IH.
  - rewrite bool_decide_eq_false_2.
    2:{ intros H. apply Hiff in H. congruence. }
    simpl negb. cbv iota. rewrite scan_loop_cons. cbn [excluded].
    destruct (find_duplicates_in_folder w root); [apply IH|done].
Qed.

(** X22: excluding a folder that is not a root directory gives what the
    scan without exclusion gives on the walk from which the excluded folder
    and the folders under it are taken out: these folders are not listed,
    so that they add no group and cannot make the scan fail. *)
Theorem excluded_subtree_is_not_scanned (walk : list walk_item) (w : world)
    (root_folder excluded_folder : string) :
  Str.startswith "/" (cwd w) = true →
  excluded_folder ≠ "" →
  Pathlib.parts (Pathlib.parse (normalized w excluded_folder)) ≠ [] →
  scan_for_duplicates walk w root_folder (Some excluded_folder)
  = scan_for_duplicates (outside w excluded_folder walk) w root_folder None.
Proof.
  intros Hcwd He Hne. unfold scan_for_duplicates, excluded_normalized.
  unfold nonempty at 1. rewrite bool_decide_eq_false_2 by done. cbn [negb].
  by apply scan_loop_outside.
Qed.

Lemma excluded_subtree_is_not_scanned_witness :
  scan_for_duplicates library_walk library_tree "/lib" (Some "/lib/album")
  = scan_for_duplicates
      [("/lib", ["shoot"; "album"], []);
       ("/lib/shoot", [], ["IMG_0001.jpg"; "IMG_0002.jpg"])]
      library_tree "/lib" None.
Proof.
  apply (excluded_subtree_is_not_scanned library_walk library_tree "/lib"
           "/lib/album").
  - vm_compute. reflexivity.
  - discriminate.
  - vm_compute. discriminate.
Defined.

(** ** The groups of a scan *)

Lemma group_folder w folder_path d key grp :
  find_duplicates_in_folder w folder_path = Ok d →
  (key, grp) ∈ d →
  folder grp = folder_path.
Proof.
  intros Hd Hin.
  destruct (find_duplicates_in_folder_spec _ _ _ Hd) as (g & Hg & Hv).
  assert (Hgrp : grp ∈ dict_values d).
  { unfold dict_values. apply list_elem_of_fmap. by exists (key, grp). }
  rewrite Hv in Hgrp.
  apply list_elem_of_In, List.in_flat_map in Hgrp
    as ([[ext size] fs] & _ & Hc%list_elem_of_In).
  unfold group_clusters in Hc. simpl in Hc.
  by apply list_elem_of_fmap in Hc as (c & -> & _).
Qed.

Lemma scan_loop_groups w excluded_folder walk acc groups grp :
  scan_loop w (excluded_normalized w excluded_folder) walk acc = Ok groups →
  grp ∈ groups →
  grp ∈ acc
  ∨ ∃ root d key,
      root ∈ scanned w excluded_folder walk
      ∧ find_duplicates_in_folder w root = Ok d
      ∧ (key, grp) ∈ d.
Proof.
  revert acc.
  induction walk as [|[[root dirs] filenames] walk IH]; intros acc.
  { intros [= <-] Hin. by left. }
  rewrite scan_loop_cons, scanned_cons.
  destruct (excluded w _ root); cbn [app].
  - apply IH.
  - destruct (find_duplicates_in_folder w root) as [d|e] eqn:Hd; [|done].
    intros Hscan Hin.
    destruct (IH _ Hscan Hin) as [Hacc|(root' & d' & key & Hr & Hd' & Hk)].
    + apply elem_of_app in Hacc as [Hacc|Hnew]; [by left|]. right.
      unfold dict_values in Hnew.
      apply list_elem_of_fmap in Hnew as ([key grp'] & -> & Hk).
      exists root, d, key. split; [by left|done].
    + right. exists root', d', key. split; [by right|done].
Qed.

(** X23: every group a scan returns is a group of one of the walked
    folders it looks into: the folder recorded in the group is such a
    folder, outside the excluded one, and the group is one of those
    [find_duplicates_in_folder] returns for it.  What holds of the groups
    of a folder holds of the groups of a scan. *)
Theorem scan_groups_are_folder_groups (walk : list walk_item) (w : world)
    (root_folder : string) (excluded_folder : option string)
    (groups : list DuplicateGroup) (grp : DuplicateGroup) :
  scan_for_duplicates walk w root_folder excluded_folder = Ok groups →
  grp ∈ groups →
  folder grp ∈ scanned w excluded_folder walk
  ∧ excluded w (excluded_normalized w excluded_folder) (folder grp) = false
  ∧ ∃ d key,
      find_duplicates_in_folder w (folder grp) = Ok d ∧ (key, grp) ∈ d.
Proof.
  intros Hscan Hin.
  destruct (scan_loop_groups w excluded_folder walk [] groups grp Hscan Hin)
    as [Hnil|(root & d & key & Hroot & Hd & Hk)].
  { by apply elem_of_nil in Hnil. }
  rewrite (group_folder w root d key grp Hd Hk).
  split; [done|]. split; [|by exists d, key].
  unfold scanned in Hroot.
  apply list_elem_of_fmap in Hroot as (item & -> & Hitem).
  apply list_elem_of_In, List.filter_In in Hitem as [_ Hex].
  by apply negb_true_iff in Hex.
Qed.

Lemma scan_groups_are_folder_groups_witness :
  let grp :=
    mkGroup "/lib/album" ".png" 7
      [mkFileInfo "/lib/album/DSC_0001.png" "DSC_0001.png" "DSC_0001" 7 ".png";
       mkFileInfo "/lib/album/DSC_0002.png" "DSC_0002.png" "DSC_0002" 7 ".png"]
  in
  folder grp ∈ scanned library_tree (Some "/lib/shoot") library_walk
  ∧ excluded library_tree
      (excluded_normalized library_tree (Some "/lib/shoot")) (folder grp)
    = false
  ∧ ∃ d key,
      find_duplicates_in_folder library_tree (folder grp) = Ok d
      ∧ (key, grp) ∈ d.
Proof.
  intros grp.
  apply (scan_groups_are_folder_groups library_walk library_tree "/lib"
           (Some "/lib/shoot") [grp] grp).
  - vm_compute. reflexivity.
  - by left.
Defined.

(** * The size shown for a file *)

Lemma round_half_even_bound (q : Q) :
  (inject_Z (Number.round_half_even q) - (1 # 2) <= q
   ∧ q <= inject_Z (Number.round_half_even q) + (1 # 2))%Q.
Proof.
  unfold Number.round_half_even. cbv zeta.
  pose proof (Qfloor_le q) as Hlo. pose proof (Qlt_floor q) as Hhi.
  rewrite inject_Z_plus in Hhi. change (inject_Z 1) with 1%Q in Hhi.
  destruct (Qcompare_spec (q - inject_Z (Qfloor q)) (1 # 2)) as [E|E|E].
  - destruct (Z.even (Qfloor q)).
    + split; lra.
    + rewrite inject_Z_plus. change (inject_Z 1) with 1%Q. split; lra.
  - split; lra.
  - rewrite inject_Z_plus. change (inject_Z 1) with 1%Q. split; lra.
Qed.

Lemma scaled_lt_1024 x z P :
  (0 < P)%Z → scaled x z P →
  Number.lt_1024 x = bool_decide (z < 1024 * P)%Z.
Proof.
  intros HP Hx. unfold scaled in Hx. unfold Number.lt_1024.
  assert (HPq : (0 < inject_Z P)%Q)
    by (change 0%Q with (inject_Z 0); by rewrite <- Zlt_Qlt).
  destruct (Qle_bool 1024 (Number.value x)) eqn:E; simpl; symmetry.
  - apply bool_decide_eq_false. apply Qle_bool_iff in E.
    intros Hlt. rewrite Zlt_Qlt, inject_Z_mult, <- Hx in Hlt.
    change (inject_Z 1024) with 1024%Q in Hlt.
    apply (Qmult_le_compat_r _ _ (inject_Z P)) in E; lra.
  - apply bool_decide_eq_true.
    destruct (Z.lt_ge_cases z (1024 * P)) as [|Hge]; [done|exfalso].
    rewrite Zle_Qle, inject_Z_mult, <- Hx in Hge.
    change (inject_Z 1024) with 1024%Q in Hge.
    assert (Hle : (1024 <= Number.value x)%Q).
    { apply (Qmult_le_r _ _ (inject_Z P)); [done|lra]. }
    apply Qle_bool_iff in Hle. congruence.
Qed.

Lemma round53_small (z : Z) : (0 ≤ z < 2 ^ 53)%Z → Number.round53 z = z.
Proof.
  intros [H0 H]. unfold Number.round53.
  destruct (Z.eq_dec z 0%Z) as [->|Hz]; [done|].
  assert (Z.log2 z < 53)%Z by (apply Z.log2_lt_pow2; lia).
  by rewrite (proj2 (Z.ltb_lt _ _)).
Qed.

Lemma scaled_div_1024 x z P :
  (0 < P)%Z → (0 ≤ z < 2 ^ 53)%Z →
  (match x with Number.Int n => n = z | Number.Float _ => True end) →
  scaled x z P → scaled (Number.div_1024 x) z (1024 * P).
Proof.
  intros HP Hz Hint Hx. unfold scaled in *.
  rewrite inject_Z_mult. change (inject_Z 1024) with 1024%Q.
  destruct x as [n|q]; simpl in *.
  - subst n. rewrite round53_small by done.
    rewrite <- Hx. unfold Qeq. simpl. lia.
  - rewrite <- Hx. field.
Qed.

Lemma scaled_tenths x z P :
  (0 < P)%Z → scaled x z P →
  (2 * Z.abs (10 * z - Number.round_half_even (Number.value x * 10) * P)
   ≤ P)%Z.
Proof.
  intros HP Hx. unfold scaled in Hx.
  assert (HPq : (0 < inject_Z P)%Q)
    by (change 0%Q with (inject_Z 0); by rewrite <- Zlt_Qlt).
  destruct (round_half_even_bound (Number.value x * 10)) as [Hlo Hhi].
  set (t := Number.round_half_even (Number.value x * 10)) in *.
  apply (Qmult_le_compat_r _ _ (inject_Z P)) in Hlo; [|lra].
  apply (Qmult_le_compat_r _ _ (inject_Z P)) in Hhi; [|lra].
  assert (H1 : (inject_Z (2 * (t * P)) <= inject_Z (2 * (10 * z) + P))%Q).
  { rewrite inject_Z_plus, !inject_Z_mult, <- Hx.
    change (inject_Z 2) with 2%Q. change (inject_Z 10) with 10%Q. lra. }
  assert (H2 : (inject_Z (2 * (10 * z)) <= inject_Z (2 * (t * P) + P))%Q).
  { rewrite inject_Z_plus, !inject_Z_mult, <- Hx.
    change (inject_Z 2) with 2%Q. change (inject_Z 10) with 10%Q. lra. }
  rewrite <- Zle_Qle in H1, H2. lia.
Qed.

Lemma format_size_scaled (size_bytes : nat) :
  (Z.of_nat size_bytes < 2 ^ 53)%Z →
  ∃ x,
    scaled x (Z.of_nat size_bytes)
      (1024 ^ Z.of_nat (unit_index (Z.of_nat size_bytes)))
    ∧ format_size size_bytes
      = Number.format_1f x +:+ " "
          +:+ unit_name (unit_index (Z.of_nat size_bytes)).
Proof.
  intros Hz. set (z := Z.of_nat size_bytes) in *.
  assert (Hz' : (0 ≤ z < 2 ^ 53)%Z) by lia.
  unfold format_size. fold z. unfold unit_index. cbn [units_loop].
  set (x0 := Number.Int z).
  assert (H0 : scaled x0 z 1).
  { unfold scaled, x0. simpl. by rewrite Qmult_1_r. }
  pose proof (scaled_div_1024 x0 z 1 eq_refl Hz' eq_refl H0) as H1.
  set (x1 := Number.div_1024 x0) in *.
  assert (Hf1 : match x1 with Number.Int n => n = z | Number.Float _ => True end)
    by done.
  pose proof (scaled_div_1024 x1 z (1024 * 1) eq_refl Hz' Hf1 H1) as H2.
  set (x2 := Number.div_1024 x1) in *.
  assert (Hf2 : match x2 with Number.Int n => n = z | Number.Float _ => True end)
    by done.
  pose proof (scaled_div_1024 x2 z (1024 * (1024 * 1)) eq_refl Hz' Hf2 H2) as H3.
  set (x3 := Number.div_1024 x2) in *.
  assert (Hf3 : match x3 with Number.Int n => n = z | Number.Float _ => True end)
    by done.
  pose proof (scaled_div_1024 x3 z (1024 * (1024 * (1024 * 1))) eq_refl Hz' Hf3 H3) as H4.
  set (x4 := Number.div_1024 x3) in *.
  rewrite (scaled_lt_1024 x0 z 1 eq_refl H0).
  rewrite (scaled_lt_1024 x1 z (1024 * 1) eq_refl H1).
  rewrite (scaled_lt_1024 x2 z (1024 * (1024 * 1)) eq_refl H2).
  rewrite (scaled_lt_1024 x3 z (1024 * (1024 * (1024 * 1))) eq_refl H3).
  change (1024 * (1024 * (1024 * (1024 * 1))))%Z with (1024 ^ 4)%Z in *.
  change (1024 * (1024 * (1024 * 1)))%Z with (1024 ^ 3)%Z in *.
  change (1024 * (1024 * 1))%Z with (1024 ^ 2)%Z in *.
  change (1024 * 1)%Z with 1024%Z in *.
  destruct (Z.ltb_spec z 1024).
  { rewrite bool_decide_eq_true_2 by done. by exists x0. }
  rewrite bool_decide_eq_false_2 by lia.
  destruct (Z.ltb_spec z (1024 ^ 2)).
  { rewrite bool_decide_eq_true_2 by done. by exists x1. }
  rewrite bool_decide_eq_false_2 by lia.
  destruct (Z.ltb_spec z (1024 ^ 3)).
  { rewrite bool_decide_eq_true_2 by done. by exists x2. }
  rewrite bool_decide_eq_false_2 by lia.
  destruct (Z.ltb_spec z (1024 ^ 4)).
  { rewrite bool_decide_eq_true_2 by done. by exists x3. }
  rewrite bool_decide_eq_false_2 by lia.
  by exists x4.
Qed.

(** X24: for a size below 2^53 bytes the unit shown is the one of the
    magnitude of the size (B below 1024, then KB, MB, GB, and TB from
    1024^4 on, without limit), and the number shown, with its one decimal,
    is within 0.05 of the size counted in this unit: the divisions by 1024
    lose nothing. *)
Theorem format_size_accuracy (size_bytes : nat) :
  (Z.of_nat size_bytes < 2 ^ 53)%Z →
  let k := unit_index (Z.of_nat size_bytes) in
  ∃ tenths : Z,
    format_size size_bytes = decimal tenths +:+ " " +:+ unit_name k
    ∧ (2 * Z.abs (10 * Z.of_nat size_bytes - tenths * 1024 ^ Z.of_nat k)
       ≤ 1024 ^ Z.of_nat k)%Z.
Proof.
  intros Hz k.
  destruct (format_size_scaled size_bytes Hz) as (x & Hx & ->).
  exists (Number.round_half_even (Number.value x * 10)).
  split; [done|].
  apply scaled_tenths; [|done]. apply Z.pow_pos_nonneg; lia.
Qed.

Lemma format_size_accuracy_witness :
  ∃ tenths : Z,
    format_size 1536 = decimal tenths +:+ " " +:+ "KB"
    ∧ (2 * Z.abs (10 * 1536 - tenths * 1024) ≤ 1024)%Z.
Proof.
  apply (format_size_accuracy 1536). vm_compute. reflexivity.
Defined.

(** X25: the unit is chosen before the number is rounded, so that a size
    less than a twentieth of a unit below the next unit is shown as 1024.0
    of the smaller unit: 1048575 bytes are shown as 1024.0 KB, not as
    1.0 MB. *)
Theorem format_size_shows_1024 (size_bytes : nat) (k : nat) :
  1 ≤ k ≤ 3 →
  (20 * 1024 ^ (Z.of_nat k + 1) - 1024 ^ Z.of_nat k
   < 20 * Z.of_nat size_bytes)%Z →
  (Z.of_nat size_bytes < 1024 ^ (Z.of_nat k + 1))%Z →
  format_size size_bytes = "1024.0 " +:+ unit_name k.
Proof.
  intros Hk Hlo Hhi.
  assert (HP : (0 < 1024 ^ Z.of_nat k)%Z) by (apply Z.pow_pos_nonneg; lia).
  rewrite Z.pow_add_r in Hlo, Hhi by lia.
  change (1024 ^ 1)%Z with 1024%Z in *.
  assert (Hpow : (1024 ^ Z.of_nat k = 1024)%Z ∧ k = 1
                 ∨ (1024 ^ Z.of_nat k = 1048576)%Z ∧ k = 2
                 ∨ (1024 ^ Z.of_nat k = 1073741824)%Z ∧ k = 3).
  { assert (Hk3 : k = 1 ∨ k = 2 ∨ k = 3) by lia.
    destruct Hk3 as [->|[->| ->]]; auto. }
  assert (Hidx : unit_index (Z.of_nat size_bytes) = k).
  { unfold unit_index.
    change (1024 ^ 2)%Z with 1048576%Z.
    change (1024 ^ 3)%Z with 1073741824%Z.
    change (1024 ^ 4)%Z with 1099511627776%Z.
    destruct Hpow as [[Hp ->]|[[Hp ->]|[Hp ->]]]; rewrite Hp in Hlo, Hhi;
      repeat match goal with
             | |- context [(?a <? ?b)%Z] => destruct (Z.ltb_spec a b)
             end; lia. }
  assert (Hz : (Z.of_nat size_bytes < 2 ^ 53)%Z).
  { change (2 ^ 53)%Z with 9007199254740992%Z.
    destruct Hpow as [[Hp _]|[[Hp _]|[Hp _]]]; rewrite Hp in Hhi; lia. }
  destruct (format_size_scaled size_bytes Hz) as (x & Hx & ->).
  rewrite Hidx in *.
  pose proof (scaled_tenths x _ _ HP Hx) as Ht.
  unfold Number.format_1f. cbv zeta.
  set (t := Number.round_half_even (Number.value x * 10)) in *.
  assert (t = 10240%Z) as Ht'.
  { set (P := (1024 ^ Z.of_nat k)%Z) in *. clear Hpow Hx Hidx. nia. }
  rewrite Ht'. reflexivity.
Qed.

Lemma format_size_shows_1024_witness :
  format_size (Z.to_nat 1048575) = "1024.0 KB".
Proof.
  apply (format_size_shows_1024 (Z.to_nat 1048575) 1).
  - lia.
  - vm_compute. reflexivity.
  - vm_compute. reflexivity.
Defined.

(** * The media classifier *)

(** X26: whether the file of a folder is a media file is decided by its
    name alone, and a name accepted has a stem that is not empty before
    its last dot and, after it, an extension of the list up to case: a
    name without a dot, a name ending with a dot and a name with nothing
    before its only dot ([.jpg]) are not media files. *)
Theorem media_file_name_shape (folder c : string) :
  component c →
  is_image_file (OsPath.join folder c) = is_image_file c
  ∧ (is_image_file c = true →
     ∃ stem ext,
       c = stem +:+ String "." ext
       ∧ stem ≠ "" ∧ ext ≠ "" ∧ Str.rfind "." ext = None
       ∧ Str.lower (String "." ext) ∈ image_extensions).
Proof.
  intros Hc. unfold is_image_file. rewrite (suffix_join folder c Hc).
  split; [done|]. intros Himg. apply bool_decide_eq_true in Himg.
  unfold Pathlib.suffix in Himg. rewrite (name_component c Hc) in Himg.
  destruct (decide (Pathlib.name_suffix c = "")) as [E|E].
  { rewrite E in Himg. exfalso. revert Himg. clear.
    apply (bool_decide_eq_false_1 _). vm_compute. reflexivity. }
  destruct (suffix_split c E) as (x & d & -> & Hd & Hx & Hd' & Hs & _).
  exists x, d. rewrite Hs in Himg. done.
Qed.

Lemma media_file_name_shape_witness :
  is_image_file (OsPath.join "/p" "IMG_1.JPG") = is_image_file "IMG_1.JPG"
  ∧ (is_image_file "IMG_1.JPG" = true →
     ∃ stem ext,
       "IMG_1.JPG" = stem +:+ String "." ext
       ∧ stem ≠ "" ∧ ext ≠ "" ∧ Str.rfind "." ext = None
       ∧ Str.lower (String "." ext) ∈ image_extensions).
Proof.
  apply (media_file_name_shape "/p" "IMG_1.JPG").
  split; vm_compute; reflexivity.
Defined.
